(** * The images pipeline of scrapy/contrib/pipeline/images.py

    A shallow embedding of [FSImagesStore], [S3ImagesStore] and
    [ImagesPipeline], and the properties of the freshness-and-persistence
    pipeline that are stated about them.

    Conventions of the embedding.
    - A Python 2 [str] is a [string]; a [dict] with string keys is a
      [gmap string _]; a [set] is a [gset].
    - A Python float is an IEEE 754 double.  A finite double is the rational
      [Q] that it denotes; the operations on floats that the code performs
      are those of [Binary64]: the exact result rounded to the nearest
      double, ties to even, or an infinity when it is too large.
    - Code with effects runs in the monad [M]: it threads the [state] of the
      process (file system, clock, the store's directory cache and the log of
      calls made to collaborators) and may raise an exception [exn]; the state
      reached when the exception is raised is kept.
    - The file system is a tree of directories and files without links,
      whose names are compared byte by byte.  A path is resolved name by
      name from the root or the working directory, [.] and [..] included,
      with the errors of the system calls. *)

From Stdlib Require Import ZArith QArith Qround Qpower Ascii String List Lia Lqa.
From Stdlib Require SpecFloat.
From stdpp Require Import base option list gmap strings pretty.

Set Default Proof Using "Type*".

(** ** Python string methods used by the module *)

Module Py.

(** [c in s] for a one-character [c]. *)
Fixpoint contains (c : ascii) (s : string) : bool :=
  match s with
  | EmptyString => false
  | String a s' => if decide (a = c) then true else contains c s'
  end.

Fixpoint rfind_from (c : ascii) (s : string) (i last : Z) : Z :=
  match s with
  | EmptyString => last
  | String a s' => rfind_from c s' (i + 1) (if decide (a = c) then i else last)
  end.

(** [s.rfind(c)]: the highest index of [c] in [s], or [-1]. *)
Definition rfind (c : ascii) (s : string) : Z := rfind_from c s 0 (-1).

Fixpoint find_from (c : ascii) (s : string) (i : Z) : Z :=
  match s with
  | EmptyString => -1
  | String a s' => if decide (a = c) then i else find_from c s' (i + 1)
  end.

(** [s.find(c)]: the lowest index of [c] in [s], or [-1]. *)
Definition find (c : ascii) (s : string) : Z := find_from c s 0.

Fixpoint take (n : nat) (s : string) : string :=
  match n, s with
  | S n', String a s' => String a (take n' s')
  | _, _ => EmptyString
  end.

Fixpoint drop (n : nat) (s : string) : string :=
  match n, s with
  | S n', String _ s' => drop n' s'
  | _, _ => s
  end.

(** [s[i:j]], [s[:j]] and [s[i:]] for indices that are not negative. *)
Definition slice (s : string) (i j : Z) : string :=
  take (Z.to_nat (j - i)) (drop (Z.to_nat i) s).
Definition slice_to (s : string) (j : Z) : string := take (Z.to_nat j) s.
Definition slice_from (s : string) (i : Z) : string := drop (Z.to_nat i) s.

Fixpoint startswith (s p : string) : bool :=
  match p, s with
  | EmptyString, _ => true
  | String b p', String a s' => if decide (a = b) then startswith s' p' else false
  | String _ _, EmptyString => false
  end.

Fixpoint endswith_char (s : string) (c : ascii) : bool :=
  match s with
  | EmptyString => false
  | String a EmptyString => bool_decide (a = c)
  | String _ s' => endswith_char s' c
  end.

Fixpoint all_chars (p : ascii → bool) (s : string) : bool :=
  match s with
  | EmptyString => true
  | String a s' => p a && all_chars p s'
  end.

Fixpoint any_char (p : ascii → bool) (s : string) : bool :=
  match s with
  | EmptyString => false
  | String a s' => p a || any_char p s'
  end.

(** [sub in s]. *)
Fixpoint has_substring (sub s : string) : bool :=
  if startswith s sub then true
  else match s with
       | EmptyString => false
       | String _ s' => has_substring sub s'
       end.

(** [s.split(sep, 1)]: [None] stands for the one-element list [[s]],
    [Some (h, t)] for [[h, t]]. *)
Fixpoint split_once (sep s : string) : option (string * string) :=
  if startswith s sep then Some (EmptyString, drop (String.length sep) s)
  else match s with
       | EmptyString => None
       | String a s' =>
           match split_once sep s' with
           | Some (h, t) => Some (String a h, t)
           | None => None
           end
       end.

(** [s.split(c)] for a one-character [c]: the list is never empty. *)
Fixpoint split_char (c : ascii) (s : string) : list string :=
  match s with
  | EmptyString => [EmptyString]
  | String a s' =>
      if decide (a = c) then EmptyString :: split_char c s'
      else match split_char c s' with
           | h :: t => String a h :: t
           | [] => [String a EmptyString]
           end
  end.

(** [s.rstrip(c)]. *)
Fixpoint rstrip (c : ascii) (s : string) : string :=
  match s with
  | EmptyString => EmptyString
  | String a s' =>
      match rstrip c s' with
      | EmptyString => if decide (a = c) then EmptyString else String a EmptyString
      | r => String a r
      end
  end.

(** [s.strip(c)]. *)
Fixpoint lstrip (c : ascii) (s : string) : string :=
  match s with
  | String a s' => if decide (a = c) then lstrip c s' else s
  | EmptyString => EmptyString
  end.
Definition strip (c : ascii) (s : string) : string := rstrip c (lstrip c s).

Definition lower_char (a : ascii) : ascii :=
  let n := nat_of_ascii a in
  if (65 <=? n)%nat && (n <=? 90)%nat then ascii_of_nat (n + 32) else a.

(** [s.lower()]. *)
Fixpoint lower (s : string) : string :=
  match s with
  | EmptyString => EmptyString
  | String a s' => String (lower_char a) (lower s')
  end.

(** [str(n)] and [%d] for an integer. *)
Definition str_int (n : Z) : string := pretty n.

End Py.

(** ** [hashlib.sha1]

    SHA-1 as in FIPS 180: 32-bit words are integers with the wrap-around
    written out. *)

Module Sha1.

Local Open Scope Z_scope.

Definition mask32 (x : Z) : Z := Z.land x 0xffffffff.
Definition add32 (x y : Z) : Z := mask32 (x + y).
Definition rotl (n x : Z) : Z :=
  mask32 (Z.lor (Z.shiftl x n) (Z.shiftr x (32 - n))).

Definition bytes_of_string (s : string) : list Z :=
  map (λ a, Z.of_nat (nat_of_ascii a)) (list_ascii_of_string s).

(** The message followed by [0x80], zeros up to 56 modulo 64, and the
    length in bits as a 64-bit big-endian integer. *)
Definition pad (msg : list Z) : list Z :=
  let len := Z.of_nat (length msg) in
  let zeros := Z.to_nat ((55 - len) mod 64) in
  let bits := 8 * len in
  msg ++ [128] ++ replicate zeros 0
      ++ map (λ i, Z.land (Z.shiftr bits (8 * i)) 255) [7; 6; 5; 4; 3; 2; 1; 0].

Fixpoint words_of_bytes (fuel : nat) (bs : list Z) : list Z :=
  match fuel, bs with
  | S f, b0 :: b1 :: b2 :: b3 :: rest =>
      (Z.shiftl b0 24 + Z.shiftl b1 16 + Z.shiftl b2 8 + b3) :: words_of_bytes f rest
  | _, _ => []
  end.

Fixpoint blocks (fuel : nat) (ws : list Z) : list (list Z) :=
  match fuel, ws with
  | _, [] => []
  | O, _ => []
  | S f, _ => firstn 16%nat ws :: blocks f (skipn 16%nat ws)
  end.

(** The message schedule: 16 words extended to 80. *)
Fixpoint expand (fuel : nat) (w : list Z) : list Z :=
  match fuel with
  | O => w
  | S f =>
      let t := length w in
      let x := Z.lxor (Z.lxor (nth (t - 3)%nat w 0) (nth (t - 8)%nat w 0))
                      (Z.lxor (nth (t - 14)%nat w 0) (nth (t - 16)%nat w 0)) in
      expand f (w ++ [rotl 1 x])
  end.

Definition hash_state : Type := Z * Z * Z * Z * Z.

Definition round (t : nat) (wt : Z) (st : hash_state) : hash_state :=
  let '(a, b, c, d, e) := st in
  let '(f, k) :=
    if (t <? 20)%nat then
      (Z.lor (Z.land b c) (Z.land (Z.lxor b 0xffffffff) d), 0x5a827999)
    else if (t <? 40)%nat then (Z.lxor (Z.lxor b c) d, 0x6ed9eba1)
    else if (t <? 60)%nat then
      (Z.lor (Z.lor (Z.land b c) (Z.land b d)) (Z.land c d), 0x8f1bbcdc)
    else (Z.lxor (Z.lxor b c) d, 0xca62c1d6) in
  let temp := add32 (add32 (add32 (add32 (rotl 5 a) f) e) k) wt in
  (temp, a, rotl 30 b, c, d).

Fixpoint rounds (t : nat) (w : list Z) (st : hash_state) : hash_state :=
  match w with
  | [] => st
  | wt :: w' => rounds (S t) w' (round t wt st)
  end.

Definition compress (st : hash_state) (block : list Z) : hash_state :=
  let '(h0, h1, h2, h3, h4) := st in
  let '(a, b, c, d, e) := rounds 0%nat (expand 64%nat block) st in
  (add32 h0 a, add32 h1 b, add32 h2 c, add32 h3 d, add32 h4 e).

Definition init : hash_state :=
  (0x67452301, 0xefcdab89, 0x98badcfe, 0x10325476, 0xc3d2e1f0).

Definition digest (s : string) : hash_state :=
  let bs := pad (bytes_of_string s) in
  fold_left compress (blocks (length bs) (words_of_bytes (length bs) bs)) init.

Definition hexdigits : list ascii :=
  list_ascii_of_string "0123456789abcdef".

Definition hex_char (n : Z) : ascii :=
  nth (Z.to_nat (Z.land n 15)) hexdigits "0"%char.

(** The eight lowercase hexadecimal digits of a 32-bit word. *)
Definition hex8 (w : Z) : list ascii :=
  map (λ i, hex_char (Z.shiftr w i)) [28; 24; 20; 16; 12; 8; 4; 0].

(** [hashlib.sha1(s).hexdigest()]. *)
Definition hexdigest (s : string) : string :=
  let '(h0, h1, h2, h3, h4) := digest s in
  string_of_list_ascii (hex8 h0 ++ hex8 h1 ++ hex8 h2 ++ hex8 h3 ++ hex8 h4).

End Sha1.

(** ** Key derivation: [ImagesPipeline.image_key], [ImagesPipeline.thumb_key] *)

Definition image_key (url : string) : string :=
  let image_guid := Sha1.hexdigest url in
  "full/" +:+ image_guid +:+ ".jpg".

Definition thumb_key (url thumb_id : string) : string :=
  let image_guid := Sha1.hexdigest url in
  "thumbs/" +:+ thumb_id +:+ "/" +:+ image_guid +:+ ".jpg".

(** The characters of a lowercase hexadecimal number. *)
Definition is_lower_hex (a : ascii) : bool := Py.contains a "0123456789abcdef".

(** ** Data model *)

(** The values found in the dictionaries that the stores and the pipeline
    exchange: [None], a number, a string. *)
Inductive pyvalue : Type :=
| VNone
| VNum (q : Q)
| VStr (s : string).

(** Truth value of a Python object, as tested by [if x] and [not x]. *)
Definition truthy (v : pyvalue) : bool :=
  match v with
  | VNone => false
  | VNum q => negb (Qeq_bool q 0)
  | VStr s => negb (bool_decide (s = ""))
  end.

(** [d.get(k, None)]. *)
Definition dict_get (d : gmap string pyvalue) (k : string) : pyvalue :=
  default VNone (d !! k).

(** [scrapy.http.Request], with the fields that the module reads or sets. *)
Record Request : Type := mkRequest {
  req_url : string;
  req_method : string;
  req_body : option string;
  req_headers : gmap string string;
  req_priority : Z
}.

(** [scrapy.http.Response]. *)
Record Response : Type := mkResponse {
  resp_url : string;
  resp_status : Z;
  resp_body : string;
  resp_headers : gmap string string;
  resp_flags : list string
}.

(** The per-domain object [info] that the media pipeline hands to every hook:
    the module reads [info.domain] and [info.spider]. *)
Record DomainInfo : Type := mkInfo {
  info_domain : string;
  info_spider : string
}.

(** A decoded [Image]: its mode, its size [(width, height)] and its pixels. *)
Record image : Type := mkImage {
  im_mode : string;
  im_size : Z * Z;
  im_data : list Z
}.

(** The keys of [FSImagesStore.created_directories]: whatever object [_mkdir]
    is given as [domain] and whatever [domain_closed] receives.  The module
    uses two kinds: an [info] object and the name of a domain. *)
Inductive dkey : Type :=
| KInfo (info : DomainInfo)
| KDomain (name : string).

Global Instance DomainInfo_eq_dec : EqDecision DomainInfo.
Proof. solve_decision. Defined.

Global Instance DomainInfo_countable : Countable DomainInfo.
Proof.
  apply (inj_countable' (λ i, (info_domain i, info_spider i))
                        (λ p, mkInfo p.1 p.2)).
  by intros [].
Defined.

Global Instance dkey_eq_dec : EqDecision dkey.
Proof. solve_decision. Defined.

Global Instance dkey_countable : Countable dkey.
Proof.
  apply (inj_countable'
           (λ k, match k with KInfo i => inl i | KDomain n => inr n end)
           (λ x, match x with inl i => KInfo i | inr n => KDomain n end)).
  by intros [].
Defined.

(** [if domain] in [_mkdir]: [None] and the empty string are false, an
    [info] object is true. *)
Definition dkey_truthy (domain : option dkey) : bool :=
  match domain with
  | None => false
  | Some (KInfo _) => true
  | Some (KDomain n) => negb (bool_decide (n = ""))
  end.

(** *** Exceptions *)

(** The messages with which the module raises [ImageException], each with
    the values that its format string takes. *)
Inductive image_error : Type :=
| HttpError (request : Request) (referer : option string)
| EmptyContent (request : Request) (referer : option string)
| UnknownError (request : Request) (referer : option string) (failure : string)
| TooSmall (width height min_width min_height : Z) (url : string)
| CannotProcess (err : string).

Inductive errno : Type := ENOENT | EEXIST | ENOTDIR | EISDIR.

Inductive exn : Type :=
| ImageException (reason : image_error)
| NotConfigured
| KeyError (key : string)
| IOError (msg : string)
| OSError (code : errno) (path : string)
| TypeError (msg : string)
| ValueError (msg : string)
| AssertionError
| AttributeError (msg : string)
| RuntimeError (msg : string)
| EngineFailure (msg : string).

(** *** Calls to collaborators *)

Inductive log_level : Type := DEBUG | WARNING | ERROR.

Inductive message : Type :=
| MsgImageError (reason : image_error)
| MsgDownloaded (status : string) (request : Request) (referer : option string)
| MsgUptodate (url : string) (referer : option string)
| MsgException (ex : exn).

(** [ImagesPipeline.MEDIA_NAME]. *)
Definition MEDIA_NAME : string := "image".

(** [str(x)] for a string or [None], as [%s] formats it. *)
Definition str_option (o : option string) : string := default "None" o.

(** The text of the message of an [ImageException], given the text
    [str_request] of a request. *)
Definition image_error_text (str_request : Request → string) (e : image_error)
  : string :=
  match e with
  | HttpError request referer =>
      "Image (http-error): Error downloading image from " +:+ str_request request
      +:+ " referred in <" +:+ str_option referer +:+ ">"
  | EmptyContent request referer =>
      "Image (empty-content): Empty image from " +:+ str_request request
      +:+ " referred in <" +:+ str_option referer +:+ ">: no-content"
  | UnknownError request referer failure =>
      "Image (unknow-error): Error downloading " +:+ MEDIA_NAME +:+ " from "
      +:+ str_request request +:+ " referred in <" +:+ str_option referer +:+ ">: "
      +:+ failure
  | TooSmall width height min_width min_height url =>
      "Image too small (" +:+ Py.str_int width +:+ "x" +:+ Py.str_int height
      +:+ " < " +:+ Py.str_int min_width +:+ "x" +:+ Py.str_int min_height
      +:+ "): " +:+ url
  | CannotProcess err => "Cannot process image. Error: " +:+ err
  end.

(** The text of a message to the log; an exception that is not an
    [ImageException] is logged with the message it carries. *)
Definition message_text (str_request : Request → string) (msg : message) : string :=
  match msg with
  | MsgImageError reason => image_error_text str_request reason
  | MsgDownloaded status request referer =>
      "Image (" +:+ status +:+ "): Downloaded image from " +:+ str_request request
      +:+ " referred in <" +:+ str_option referer +:+ ">"
  | MsgUptodate url referer =>
      "Image (uptodate): Downloaded " +:+ MEDIA_NAME +:+ " from <" +:+ url
      +:+ "> referred in <" +:+ str_option referer +:+ ">"
  | MsgException (ImageException reason) => image_error_text str_request reason
  | MsgException (KeyError key) => "'" +:+ key +:+ "'"
  | MsgException (IOError msg) | MsgException (TypeError msg)
  | MsgException (ValueError msg) | MsgException (AttributeError msg)
  | MsgException (RuntimeError msg) | MsgException (EngineFailure msg) => msg
  | MsgException (OSError _ path) => path
  | MsgException NotConfigured | MsgException AssertionError => ""
  end.

(** What the process does to the outside, in order: the calls of this module
    to the log, the statistics, the file system, the engine and the
    dispatcher. *)
Inductive event : Type :=
| LogMsg (msg : message) (level : log_level) (domain : string)
| LogErr (failure : exn) (why : string)
| StatsInc (key : string) (domain : string)
| OsPathExists (path : string)
| OsMakedirs (path : string)
| ImageSaveFile (path : string)
| EngineSchedule (request : Request) (spider : string)
| EngineDownload (request : Request) (spider : string)
| DispatcherConnect (signal : string).

(** *** The state of the process *)

Inductive node : Type :=
| File (mtime : Q) (data : string)
| Dir (mtime : Q).

(** The file system: a tree without links.  An entry is named by the list
    of the names on the way to it from the root, and the root is the empty
    list; [cwd] names the working directory.  The time of a directory is
    the time at which it was made: the module reads the time of a directory
    only when a directory is where a file should be, and then fails to
    open it. *)
Record filesystem : Type := mkFS {
  tree : gmap (list string) node;
  cwd : list string
}.

Record state : Type := mkState {
  fs : filesystem;
  clock : Q;
  created_directories : gmap dkey (gset string);
  events : list event
}.

Definition set_fs (f : filesystem → filesystem) (s : state) : state :=
  mkState (f (fs s)) (clock s) (created_directories s) (events s).

Definition set_created_directories
    (f : gmap dkey (gset string) → gmap dkey (gset string)) (s : state) : state :=
  mkState (fs s) (clock s) (f (created_directories s)) (events s).

Definition add_event (e : event) (s : state) : state :=
  mkState (fs s) (clock s) (created_directories s) (events s ++ [e]).

(** ** The monad of effects: state and exceptions *)

Definition M (A : Type) : Type := state → (exn + A) * state.

Definition ret {A} (a : A) : M A := λ s, (inr a, s).

Definition raise {A} (e : exn) : M A := λ s, (inl e, s).

Definition bind {A B} (m : M A) (k : A → M B) : M B :=
  λ s, match m s with
       | (inr a, s') => k a s'
       | (inl e, s') => (inl e, s')
       end.

Notation "'let*' x ':=' m 'in' k" := (bind m (λ x, k))
  (at level 10, x pattern, m at level 100, k at level 200).

Notation "m ';;' k" := (bind m (λ _, k))
  (at level 100, k at level 200, right associativity).

Definition get_state : M state := λ s, (inr s, s).
Definition modify (f : state → state) : M unit := λ s, (inr tt, f s).
Definition emit (e : event) : M unit := modify (add_event e).

(** [try: m except Exception, ex: h ex]. *)
Definition try_except {A} (m : M A) (h : exn → M A) : M A :=
  λ s, match m s with
       | (inl e, s') => h e s'
       | r => r
       end.

(** [for x in l: body x]. *)
Fixpoint for_each {A} (l : list A) (body : A → M unit) : M unit :=
  match l with
  | [] => ret tt
  | x :: l' => body x;; for_each l' body
  end.

(** *** Deferreds

    A deferred is modelled once it has fired: it holds a failure or a
    result.  Callbacks run when they are added. *)

Definition deferred (A : Type) : Type := (exn + A)%type.

(** [defer.maybeDeferred(f, ...)]: an exception of [f] becomes a failure. *)
Definition maybeDeferred {A} (f : M A) : M (deferred A) :=
  λ s, let '(r, s') := f s in (inr r, s').

(** [d.addCallbacks(callback, errback)]. *)
Definition addCallbacks {A B} (d : deferred A)
    (callback : A → M B) (errback : exn → M B) : M (deferred B) :=
  maybeDeferred (match d with inr a => callback a | inl e => errback e end).

(** [d.addCallback(callback)]. *)
Definition addCallback {A B} (d : deferred A) (callback : A → M B)
  : M (deferred B) :=
  match d with
  | inr a => maybeDeferred (callback a)
  | inl e => ret (inl e)
  end.

(** [d.addErrback(errback)]. *)
Definition addErrback {A} (d : deferred A) (errback : exn → M A)
  : M (deferred A) :=
  match d with
  | inr a => ret (inr a)
  | inl e => maybeDeferred (errback e)
  end.

(** ** The operating system: [os.path], [os.makedirs], files *)

Module os.

Definition sep : ascii := "/"%char.
Definition extsep : ascii := "."%char.

Definition all_sep (s : string) : bool :=
  Py.all_chars (λ a, bool_decide (a = sep)) s.

(** [os.path.split]. *)
Definition path_split (p : string) : string * string :=
  let i := (Py.rfind sep p + 1)%Z in
  let head := Py.slice_to p i in
  let tail := Py.slice_from p i in
  let head :=
    if negb (bool_decide (head = "")) && negb (all_sep head)
    then Py.rstrip sep head else head in
  (head, tail).

(** [os.path.dirname]. *)
Definition path_dirname (p : string) : string :=
  let i := (Py.rfind sep p + 1)%Z in
  let head := Py.slice_to p i in
  if negb (bool_decide (head = "")) && negb (all_sep head)
  then Py.rstrip sep head else head.

(** [os.path.join] of two components. *)
Definition path_join (a b : string) : string :=
  if Py.startswith b "/" then b
  else if bool_decide (a = "") || Py.endswith_char a sep then a +:+ b
  else a +:+ "/" +:+ b.

(** [os.path.splitext]: the extension starts at the last dot of the last
    component, unless that component has only dots before it. *)
Definition path_splitext (p : string) : string * string :=
  let sepIndex := Py.rfind sep p in
  let dotIndex := Py.rfind extsep p in
  if (sepIndex <? dotIndex)%Z
     && Py.any_char (λ a, negb (bool_decide (a = extsep)))
                    (Py.slice p (sepIndex + 1) dotIndex)
  then (Py.slice_to p dotIndex, Py.slice_from p dotIndex)
  else (p, "").

(** *** Resolution of a path

    A path is resolved name by name, as the kernel does: from the root when
    it starts with a separator and from the working directory when it does
    not; an empty name and [.] stay where they are, [..] goes to the parent
    (the root is its own parent), any other name goes to the entry of that
    name.  Every step starts in a directory that is there. *)

Definition strerror (e : errno) : string :=
  match e with
  | ENOENT => "No such file or directory"
  | EEXIST => "File exists"
  | ENOTDIR => "Not a directory"
  | EISDIR => "Is a directory"
  end.

(** The entry named by [k]; the root always exists. *)
Definition entry (t : gmap (list string) node) (k : list string) : option node :=
  match k with
  | [] => Some (Dir 0)
  | _ => t !! k
  end.

Definition step (cur : list string) (name : string) : list string :=
  if bool_decide (name = "") || bool_decide (name = ".") then cur
  else if bool_decide (name = "..") then removelast cur
  else cur ++ [name].

(** Whether names can be looked up in [cur]: it has to be a directory. *)
Definition search (t : gmap (list string) node) (cur : list string) : option errno :=
  match entry t cur with
  | Some (Dir _) => None
  | Some (File _ _) => Some ENOTDIR
  | None => Some ENOENT
  end.

Fixpoint walk (t : gmap (list string) node) (cur : list string) (names : list string)
  : errno + list string :=
  match names with
  | [] => inr cur
  | name :: rest =>
      match search t cur with
      | Some e => inl e
      | None => walk t (step cur name) rest
      end
  end.

Definition start (cwd : list string) (p : string) : list string :=
  if Py.startswith p "/" then [] else cwd.

(** The entry that [p] names when every directory on the way is there. *)
Definition lex_key (cwd : list string) (p : string) : list string :=
  foldl step (start cwd p) (Py.split_char sep p).

Definition resolve (fs : filesystem) (p : string) : errno + list string :=
  if bool_decide (p = "") then inl ENOENT
  else walk (tree fs) (start (cwd fs) p) (Py.split_char sep p).

(** The node at a path, if any. *)
Definition node_at (fs : filesystem) (p : string) : option node :=
  match resolve fs p with
  | inr k => entry (tree fs) k
  | inl _ => None
  end.

Definition exists_at (fs : filesystem) (p : string) : bool :=
  bool_decide (is_Some (node_at fs p)).

(** Where an entry named by [p] is made: the directory that the names but
    the last lead to, which has to be there, and the last name. *)
Definition parent_of (fs : filesystem) (p : string) : errno + (list string * string) :=
  let names := Py.split_char sep p in
  match walk (tree fs) (start (cwd fs) p) (removelast names) with
  | inl e => inl e
  | inr d =>
      match search (tree fs) d with
      | Some e => inl e
      | None => inr (d, List.last names "")
      end
  end.

Definition add_entry (k : list string) (n : node) (fs : filesystem) : filesystem :=
  mkFS (<[k := n]> (tree fs)) (cwd fs).

(** [os.mkdir]: separators at the end of the name do not count. *)
Definition mkdir (name : string) (now : Q) (fs : filesystem)
  : option exn * filesystem :=
  if bool_decide (name = "") then (Some (OSError ENOENT name), fs)
  else
    let stripped := Py.rstrip sep name in
    if bool_decide (stripped = "") then (Some (OSError EEXIST name), fs)
    else
      match parent_of fs stripped with
      | inl e => (Some (OSError e name), fs)
      | inr (d, c) =>
          if bool_decide (c = ".") || bool_decide (c = "..")
          then (Some (OSError EEXIST name), fs)
          else match tree fs !! (d ++ [c]) with
               | Some _ => (Some (OSError EEXIST name), fs)
               | None => (None, add_entry (d ++ [c]) (Dir now) fs)
               end
      end.

(** [os.makedirs]: the missing ancestors first, then the directory.  The
    recursion is on the head of the path, which gets shorter; [fuel] bounds
    its depth. *)
Fixpoint makedirs_rec (fuel : nat) (name : string) (now : Q)
    (fs : filesystem) : option exn * filesystem :=
  let '(head, tail) := path_split name in
  let '(head, tail) :=
    if bool_decide (tail = "") then path_split head else (head, tail) in
  if negb (bool_decide (head = "")) && negb (bool_decide (tail = ""))
     && negb (exists_at fs head)
  then
    match fuel with
    | O => (Some (RuntimeError "maximum recursion depth exceeded"), fs)
    | S fuel' =>
        match makedirs_rec fuel' head now fs with
        | (Some (OSError EEXIST _), fs') | (None, fs') =>
            if bool_decide (tail = ".") then (None, fs')
            else mkdir name now fs'
        | (Some e, fs') => (Some e, fs')
        end
    end
  else mkdir name now fs.

(** [os.path.exists], called by the module. *)
Definition path_exists (p : string) : M bool :=
  emit (OsPathExists p);;
  let* s := get_state in
  ret (exists_at (fs s) p).

(** [os.makedirs], called by the module. *)
Definition makedirs (name : string) : M unit :=
  emit (OsMakedirs name);;
  λ s, match makedirs_rec (String.length name) name (clock s) (fs s) with
       | (Some e, fs') => (inl e, set_fs (λ _, fs') s)
       | (None, fs') => (inr tt, set_fs (λ _, fs') s)
       end.

(** [os.path.getmtime]. *)
Definition path_getmtime (p : string) : M Q :=
  let* s := get_state in
  match resolve (fs s) p with
  | inl e => raise (OSError e p)
  | inr k =>
      match entry (tree (fs s)) k with
      | Some (File t _) | Some (Dir t) => ret t
      | None => raise (OSError ENOENT p)
      end
  end.

(** [open(p, 'rb')] followed by reading the whole file. *)
Definition read_file (p : string) : M string :=
  let* s := get_state in
  match resolve (fs s) p with
  | inl e => raise (IOError (strerror e))
  | inr k =>
      match entry (tree (fs s)) k with
      | Some (File _ data) => ret data
      | Some (Dir _) => raise (IOError (strerror EISDIR))
      | None => raise (IOError (strerror ENOENT))
      end
  end.

(** [open(p, 'wb')]: the file is created or truncated; what is returned
    stands for the open file. *)
Definition open_wb (p : string) : M (list string) :=
  let* s := get_state in
  if bool_decide (p = "") then raise (IOError (strerror ENOENT))
  else if Py.endswith_char p sep then
    (* a name that ends in a separator names a directory *)
    let stripped := Py.rstrip sep p in
    if bool_decide (stripped = "") then raise (IOError (strerror EISDIR))
    else match parent_of (fs s) stripped with
         | inl e => raise (IOError (strerror e))
         | inr _ => raise (IOError (strerror EISDIR))
         end
  else
    match parent_of (fs s) p with
    | inl e => raise (IOError (strerror e))
    | inr (d, c) =>
        if bool_decide (c = ".") || bool_decide (c = "..")
        then raise (IOError (strerror EISDIR))
        else match tree (fs s) !! (d ++ [c]) with
             | Some (Dir _) => raise (IOError (strerror EISDIR))
             | _ =>
                 modify (set_fs (add_entry (d ++ [c]) (File (clock s) "")));;
                 ret (d ++ [c])
             end
    end.

(** Writing [data] to the open file [k] and closing it. *)
Definition write_file (k : list string) (data : string) : M unit :=
  let* s := get_state in
  modify (set_fs (add_entry k (File (clock s) data))).

End os.

(** ** [StringIO] buffers *)

Record StringIO : Type := mkStringIO {
  getvalue : string;
  tell : nat
}.

Definition StringIO_new : StringIO := mkStringIO "" 0.

(** [buf.write(data)] on a buffer whose position is at its end. *)
Definition StringIO_write (buf : StringIO) (data : string) : StringIO :=
  mkStringIO (Py.take (tell buf) (getvalue buf) +:+ data)
             (tell buf + String.length data).

(** [buf.seek(pos)]. *)
Definition StringIO_seek (buf : StringIO) (pos : nat) : StringIO :=
  mkStringIO (getvalue buf) pos.

(** [buf.read()]: what is read, and the buffer with its position at the end. *)
Definition StringIO_read (buf : StringIO) : string * StringIO :=
  (Py.drop (tell buf) (getvalue buf),
   mkStringIO (getvalue buf) (Nat.max (tell buf) (String.length (getvalue buf)))).

(** ** [urlparse.urlparse(uri).scheme] *)

Definition scheme_chars : string :=
  "abcdefghijklmnopqrstuvwxyzABCDEFGHIJKLMNOPQRSTUVWXYZ0123456789+-.".

Definition urlparse_scheme (url : string) : string :=
  let i := Py.find ":" url in
  if (0 <? i)%Z then
    let pre := Py.slice_to url i in
    if bool_decide (pre = "http") then Py.lower pre
    else if Py.all_chars (λ c, Py.contains c scheme_chars) pre then Py.lower pre
    else ""
  else "".

(** ** Stores and pipeline objects *)

Inductive store : Type :=
| FSImagesStore (basedir : string)
| S3ImagesStore (bucket prefix : string) (s3_spider : option string).

Inductive store_class : Type := FSImagesStore_class | S3ImagesStore_class.

(** [ImagesPipeline.STORE_SCHEMES]. *)
Definition STORE_SCHEMES : gmap string store_class :=
  {[ "" := FSImagesStore_class;
     "file" := FSImagesStore_class;
     "s3" := S3ImagesStore_class ]}.

(** The settings that the module reads; [None] is an unset setting. *)
Record Settings : Type := mkSettings {
  IMAGES_STORE : option string;
  IMAGES_MIN_WIDTH : option Z;
  IMAGES_MIN_HEIGHT : option Z;
  IMAGES_EXPIRES : option Z;
  IMAGES_THUMBS : list (string * option (Z * Z));
  IMAGES_S3STORE_SPIDER : option string
}.

(** [settings.getint(name, default)]. *)
Definition getint (setting : option Z) (default_value : Z) : Z :=
  default default_value setting.

(** An [ImagesPipeline] object: its class attributes and its store.  A
    thumbnail size that is [None] stands for a size that is false in Python. *)
Record ImagesPipeline : Type := mkPipeline {
  MIN_WIDTH : Z;
  MIN_HEIGHT : Z;
  EXPIRES : Z;
  THUMBS : list (string * option (Z * Z));
  pipeline_store : store
}.

(** PIL's registry of file extensions, for the formats that the image
    plugins of a stock installation register. *)
Definition EXTENSION : gmap string string :=
  {[ ".jpg" := "JPEG"; ".jpeg" := "JPEG"; ".jpe" := "JPEG"; ".jfif" := "JPEG";
     ".png" := "PNG"; ".gif" := "GIF"; ".bmp" := "BMP" ]}.

(** [x > y] on numbers. *)
Definition Qgt_bool (x y : Q) : bool := negb (Qle_bool x y).

(** ** Decisions, and the wording of the specification

    The two definitions [spec_freshness] and [spec_success_status] follow the
    words of the specification, not the code; they are what the code is
    compared with. *)

Inductive decision : Type := DOWNLOAD | SKIP.

(** What the media pipeline does with the result of [media_to_download]:
    [None] lets the download go ahead, a result suppresses it. *)
Definition decision_of (result : option (gmap string pyvalue)) : decision :=
  match result with
  | None => DOWNLOAD
  | Some _ => SKIP
  end.

(** The freshness classifier in the words of the specification: metadata that
    does not exist, or has no last-modified timestamp, gives DOWNLOAD;
    otherwise the age in days is [(now - lastModified) / 86400], and the
    image is downloaded exactly when the age exceeds the expiry window. *)
Definition spec_freshness (metadata : option (gmap string pyvalue))
    (now : Q) (expiryWindowDays : Z) : decision :=
  match metadata with
  | None => DOWNLOAD
  | Some d =>
      match d !! "last_modified" with
      | Some (VNum lastModified) =>
          let ageDays := ((now - lastModified) / 86400)%Q in
          if Qgt_bool ageDays (inject_Z expiryWindowDays) then DOWNLOAD else SKIP
      | _ => DOWNLOAD
      end
  end.

(** A success status in the words of the specification: a status that is
    not "non-2xx". *)
Definition spec_success_status (status : Z) : bool :=
  (200 <=? status)%Z && (status <? 300)%Z.

(** The download errors of [media_downloaded]. *)
Definition is_download_error (e : exn) : bool :=
  match e with
  | ImageException (HttpError _ _) | ImageException (EmptyContent _ _) => true
  | _ => false
  end.


(** The work of creating the directory [d]: the calls of [os.path.exists] and
    [os.makedirs] for it. *)
Definition is_dir_work (d : string) (e : event) : bool :=
  match e with
  | OsPathExists p | OsMakedirs p => bool_decide (p = d)
  | _ => false
  end.

Definition dir_work (d : string) (s : state) : nat :=
  length (filter (λ e, is_dir_work d e = true) (events s)).

(** The directory [d] is in the cache of the store under the key [k]. *)
Definition cache_has (s : state) (k : dkey) (d : string) : Prop :=
  ∃ seen, created_directories s !! k = Some seen ∧ d ∈ seen.

(** ** The arithmetic of IEEE 754 doubles

    Python floats are binary64 numbers: 53 bits of precision, exponents of
    the last place from [-1074], magnitudes below [2 ^ 1024].  An operation
    gives the exact result rounded to the nearest double, ties to even; a
    rounded result of magnitude [2 ^ 1024] or more is an infinity. *)

Module Binary64.

Definition prec : Z := 53.
Definition emin : Z := -1074.
Definition emax : Z := 1024.

(** The integer nearest to [q]; of two that are as near, the even one. *)
Definition rne (q : Q) : Z :=
  let f := Qfloor q in
  match (q - inject_Z f ?= 1 # 2)%Q with
  | Lt => f
  | Gt => (f + 1)%Z
  | Eq => if Z.even f then f else (f + 1)%Z
  end.

(** The integer part of the binary logarithm of a positive [q]. *)
Definition ilog2 (q : Q) : Z :=
  let k := (Z.log2 (Qnum q) - Z.log2 (Zpos (Qden q)))%Z in
  if Qle_bool (2 ^ k) q then k else (k - 1)%Z.

(** The exponent of the last place of the doubles next to a positive [q]. *)
Definition exponent (q : Q) : Z := Z.max emin (ilog2 q - (prec - 1)).

(** The double nearest to a positive [q], were there no largest double: the
    nearest multiple of the last place. *)
Definition round_pos (q : Q) : Q :=
  let e := exponent q in (inject_Z (rne (q / 2 ^ e)) * 2 ^ e)%Q.

Definition round (q : Q) : Q :=
  match (q ?= 0)%Q with
  | Eq => 0%Q
  | Gt => round_pos q
  | Lt => (- round_pos (- q))%Q
  end.

(** A double: a finite number or an infinity. *)
Inductive float : Type :=
| Finite (q : Q)
| Infinity (negative : bool).

(** A result too large for the format is an infinity. *)
Definition overflow (r : Q) : float :=
  if Qle_bool (2 ^ emax) r then Infinity false
  else if Qle_bool r (- 2 ^ emax) then Infinity true
  else Finite r.

(** [x - y] for numbers [x] and [y], each converted to a double first. *)
Definition float_sub (x y : Q) : float := overflow (round (round x - round y)).

(** [x / n] for a double [x] and a positive integer [n]. *)
Definition float_div (x : float) (n : positive) : float :=
  match x with
  | Finite q => overflow (round (q / inject_Z (Zpos n)))
  | Infinity negative => Infinity negative
  end.

(** [x > n] for a double [x] and an integer [n]. *)
Definition float_gt (x : float) (n : Z) : bool :=
  match x with
  | Finite q => negb (Qle_bool q (inject_Z n))
  | Infinity negative => negb negative
  end.

(** The order of the doubles. *)
Definition float_le (x y : float) : Prop :=
  match x, y with
  | Infinity true, _ | _, Infinity false => True
  | Finite a, Finite b => (a <= b)%Q
  | _, _ => False
  end.

(** The same operations by the formalisation of IEEE 754 in the Standard
    Library, for comparison. *)
Definition spec_of_Z (z : Z) : SpecFloat.spec_float :=
  SpecFloat.binary_normalize prec emax z 0 false.

Definition spec_of_Q (q : Q) : SpecFloat.spec_float :=
  SpecFloat.SFdiv prec emax (spec_of_Z (Qnum q)) (spec_of_Z (Zpos (Qden q))).

Definition spec_to_float (f : SpecFloat.spec_float) : option float :=
  match f with
  | SpecFloat.S754_zero _ => Some (Finite 0)
  | SpecFloat.S754_finite sign m e =>
      let v := if sign then Zneg m else Zpos m in
      Some (Finite (inject_Z v * 2 ^ e))
  | SpecFloat.S754_infinity sign => Some (Infinity sign)
  | SpecFloat.S754_nan => None
  end.

Definition spec_sub (x y : Q) : option float :=
  spec_to_float (SpecFloat.SFsub prec emax (spec_of_Q x) (spec_of_Q y)).

Definition spec_div (x y : Q) : option float :=
  spec_to_float (SpecFloat.SFdiv prec emax (spec_of_Q x) (spec_of_Q y)).

(** Doubles that denote the same number. *)
Definition float_eqb (x y : float) : bool :=
  match x, y with
  | Finite a, Finite b => Qeq_bool a b
  | Infinity a, Infinity b => bool_decide (a = b)
  | _, _ => false
  end.

End Binary64.

(** ** Sample collaborators and data

    Stand-ins for the image library, the digest, the engine and the date
    parser, on which the module can be run. *)

Module Sample.

(** Three bodies decode: a large colour image, a large grey image and a
    small colour image. *)
Definition Image_open (data : string) : string + image :=
  if bool_decide (data = "large") then inr (mkImage "RGB" (300, 300)%Z [])
  else if bool_decide (data = "grey") then inr (mkImage "L" (300, 300)%Z [])
  else if bool_decide (data = "small") then inr (mkImage "RGB" (50, 50)%Z [])
  else inl "cannot identify image file".

Definition Image_convert (im : image) (mode : string) : string + image :=
  inr (mkImage mode (im_size im) (im_data im)).

Definition Image_thumbnail (im : image) (size : Z * Z) : string + image :=
  inr (mkImage (im_mode im)
               (Z.min (im_size im).1 size.1, Z.min (im_size im).2 size.2)
               (im_data im)).

Definition Image_encode (format : string) (im : image) : string + string :=
  inr (format +:+ ":" +:+ im_mode im +:+ ":"
       +:+ (if (100 <=? (im_size im).1)%Z then "full" else "thumb")).

Definition md5_hexdigest (data : string) : string := "md5:" +:+ data.

Definition engine_outcome (request : Request) (spider : string)
  : deferred Response :=
  inl (EngineFailure "connection refused").

Definition rfc822_stamp (date : string) : option Z := None.

Definition url : string := "http://example.com/a.jpg".

Definition request : Request := mkRequest url "GET" None ∅ 0.

Definition response (status : Z) (body : string) : Response :=
  mkResponse url status body ∅ [].

Definition info : DomainInfo := mkInfo "example.com" "example.com".

Definition pipeline : ImagesPipeline :=
  mkPipeline 100 100 90 [("small", Some (50, 50)%Z)]
             (FSImagesStore "/data/images").

Definition settings (uri : string) : Settings :=
  mkSettings (Some uri) (Some 100%Z) (Some 100%Z) None
             [("small", Some (50, 50)%Z)] None.

(** A store directory that exists and is empty, at a time long after the
    epoch. *)
Definition state0 : state :=
  mkState (mkFS {[ ["data"] := Dir 0; ["data"; "images"] := Dir 0 ]} [])
          1700000000 ∅ [].

(** The path of the primary image of [url] in the store. *)
Definition path : string := os.path_join "/data/images" (image_key url).

(** A state in which the image of [url] was stored at time [mtime]. *)
Definition stored (mtime : Q) (now : Q) : state :=
  mkState (mkFS {[ ["data"] := Dir 0; ["data"; "images"] := Dir 0;
                   ["data"; "images"; "full"] := Dir mtime;
                   os.lex_key [] path := File mtime "JPEG:RGB:full" ]} [])
          now ∅ [].

(** A state in which a directory sits where the image of [url] would be. *)
Definition blocked : state :=
  mkState (mkFS {[ ["data"] := Dir 0; ["data"; "images"] := Dir 0;
                   ["data"; "images"; "full"] := Dir 0;
                   os.lex_key [] path := Dir 0 ]} [])
          1700000000 ∅ [].

End Sample.

(** Further sample data: a remote store whose engine answers the requests
    for metadata, and a store directory in which a file sits where the
    directory of the thumbnails would be. *)
Module Scenario.

Definition quote : string := String "034"%char "".

Definition date : string := "Sat, 04 Nov 2023 22:13:20 GMT".

(** The engine answers a [HEAD] request with the metadata of a stored
    object and fails for every other request. *)
Definition engine_outcome (request : Request) (spider : string)
  : deferred Response :=
  if bool_decide (req_method request = "HEAD") then
    inr (mkResponse (req_url request) 200 ""
           {[ "Etag" := quote +:+ "0cc175b9c0f1b6a8" +:+ quote;
              "Last-Modified" := date ]} [])
  else inl (EngineFailure "connection refused").

Definition rfc822_stamp (d : string) : option Z :=
  if bool_decide (d = date) then Some 1699136000%Z else None.

Definition pipeline : ImagesPipeline :=
  mkPipeline 100 100 90 [("small", Some (50, 50)%Z)]
             (S3ImagesStore "bucket" "images/" None).

Definition thumbs_blocked : state :=
  mkState (mkFS {[ ["data"] := Dir 0; ["data"; "images"] := Dir 0;
                   ["data"; "images"; "thumbs"] := File 0 "" ]} [])
          1700000000 ∅ [].

(** A pipeline with a thumbnail whose name leads from the directory of the
    thumbnails to that of the primary images, and a store directory in which
    the directory of the thumbnails is there. *)
Definition pipeline_dotdot : ImagesPipeline :=
  mkPipeline 100 100 90 [("../full", Some (50, 50)%Z)]
             (FSImagesStore "/data/images").

Definition with_thumbs : state :=
  mkState (mkFS {[ ["data"] := Dir 0; ["data"; "images"] := Dir 0;
                   ["data"; "images"; "thumbs"] := Dir 0 ]} [])
          1700000000 ∅ [].

(** Some URLs of one site: a hundred that differ in a number, and some that
    differ in a character, in case or in the scheme. *)
Definition urls : list string :=
  map (λ n : nat, "http://example.com/" +:+ pretty n +:+ ".jpg") (seq 0 100)
  ++ ["http://example.com/a.jpg"; "http://example.com/a.jpg?"; "http://example.com/A.jpg";
      "http://example.com/a.jpg/"; "https://example.com/a.jpg"; "http://example.com/b.jpg";
      "http://example.com/a.jpeg"; "http://example.com/a.jp"].

Definition primary : image := mkImage "RGB" (300, 300)%Z [].

Definition primary_buf : StringIO := mkStringIO "JPEG:RGB:full" 13.

Definition thumb : image := mkImage "RGB" (50, 50)%Z [].

Definition thumb_buf : StringIO := mkStringIO "JPEG:RGB:thumb" 14.

End Scenario.

(** An equation between closed terms, checked by evaluating both sides. *)
Ltac vm_refl :=
  lazymatch goal with
  | |- ?x = ?y => vm_cast_no_check (@eq_refl _ y)
  end.

(** ** The module *)

Section Images.

(** *** Collaborators outside the module

    The image library, the MD5 helper of [scrapy.utils.misc], the engine and
    the date parser of [rfc822] are taken as they are. *)

(** [Image.open(StringIO(data))]: the decoded image, or the message of the
    [IOError] raised for data that is no image. *)
Variable Image_open : string → string + image.

(** [image.convert(mode)]: the converted image, or the message of the
    [IOError] raised when the data of the image cannot be loaded. *)
Variable Image_convert : image → string → string + image.

(** [image.copy()] followed by [thumbnail(size, Image.ANTIALIAS)] on the
    copy: the image it leaves, or the message of the [IOError] raised. *)
Variable Image_thumbnail : image → Z * Z → string + image.

(** The encoder behind [image.save]: the bytes of [image] in the format,
    or the message of the error raised. *)
Variable Image_encode : string → image → string + string.

(** The MD5 hexadecimal digest of a byte string; [scrapy.utils.misc.md5sum]
    applies it to what is left to read in a file. *)
Variable md5_hexdigest : string → string.

(** The fate of a request handed to the engine for a spider: a failure or
    the response. *)
Variable engine_outcome : Request → string → deferred Response.

(** [int(rfc822.mktime_tz(rfc822.parsedate_tz(s)))], [None] when the date
    cannot be parsed. *)
Variable rfc822_stamp : string → option Z.

(** [md5sum(buf)] for a buffer. *)
Definition md5sum (buf : StringIO) : string :=
  md5_hexdigest (StringIO_read buf).1.

(** [image.save(filename)]: the format comes from the extension, the file
    is opened for writing, the encoder fills it. *)
Definition Image_save_file (im : image) (filename : string) : M unit :=
  emit (ImageSaveFile filename);;
  let ext := Py.lower (os.path_splitext filename).2 in
  match EXTENSION !! ext with
  | None => raise (KeyError ext)
  | Some format =>
      let* fp := os.open_wb filename in
      match Image_encode format im with
      | inl err => raise (IOError err)
      | inr data => os.write_file fp data
      end
  end.

(** [scrapyengine.schedule(request, spider)]. *)
Definition scrapyengine_schedule (request : Request) (spider : string)
  : M (deferred Response) :=
  emit (EngineSchedule request spider);;
  ret (engine_outcome request spider).

(** [scrapyengine.download(request, spider)]. *)
Definition scrapyengine_download (request : Request) (spider : string)
  : M (deferred Response) :=
  emit (EngineDownload request spider);;
  ret (engine_outcome request spider).

(** [log.msg(msg, level=level, domain=domain)]. *)
Definition log_msg (msg : message) (level : log_level) (domain : string) : M unit :=
  emit (LogMsg msg level domain).

(** [stats.inc_value(key, domain=domain)]. *)
Definition stats_inc_value (key : string) (domain : string) : M unit :=
  emit (StatsInc key domain).

(** *** [FSImagesStore] *)

Definition FS_get_filesystem_path (basedir key : string) : string :=
  os.path_join basedir key.

Definition FS_mkdir (dirname : string) (domain : option dkey) : M unit :=
  (* seen = self.created_directories[domain] if domain else set() *)
  let* seen :=
    match domain with
    | Some k =>
        if dkey_truthy domain then
          let* s := get_state in
          match created_directories s !! k with
          | Some seen => ret seen
          | None => modify (set_created_directories (insert k ∅));; ret ∅
          end
        else ret ∅
    | None => ret ∅
    end in
  if bool_decide (dirname ∈ seen) then ret tt
  else
    let* present := os.path_exists dirname in
    (if present then ret tt else os.makedirs dirname);;
    (* seen.add(dirname) *)
    match domain with
    | Some k =>
        if dkey_truthy domain
        then modify (set_created_directories (alter (union {[dirname]}) k))
        else ret tt
    | None => ret tt
    end.

Definition FS_init (basedir : string) : M store :=
  let basedir :=
    if Py.has_substring "://" basedir then
      match Py.split_once "://" basedir with
      | Some (_, rest) => rest
      | None => basedir
      end
    else basedir in
  FS_mkdir basedir None;;
  modify (set_created_directories (λ _, ∅));;
  emit (DispatcherConnect "domain_closed");;
  ret (FSImagesStore basedir).

Definition FS_domain_closed (domain : dkey) : M unit :=
  modify (set_created_directories (delete domain)).

Definition FS_persist_image (basedir : string)
    (key : string) (im : image) (buf : StringIO) (info : DomainInfo) : M unit :=
  let absolute_path := FS_get_filesystem_path basedir key in
  FS_mkdir (os.path_dirname absolute_path) (Some (KInfo info));;
  Image_save_file im absolute_path.

Definition FS_stat_image (basedir : string) (key : string) (info : DomainInfo)
  : M (gmap string pyvalue) :=
  let absolute_path := FS_get_filesystem_path basedir key in
  let* mtime :=
    try_except (let* t := os.path_getmtime absolute_path in ret (Some t))
               (λ _, ret None) in
  match mtime with
  | None => ret ∅
  | Some last_modified =>
      let* data := os.read_file absolute_path in
      let checksum := md5_hexdigest data in
      ret {[ "last_modified" := VNum last_modified;
             "checksum" := VStr checksum ]}
  end.

(** *** [S3ImagesStore] *)

Definition S3_request_priority : Z := 1000.

Definition S3_set_custom_spider (settings : Settings) : option string :=
  match IMAGES_S3STORE_SPIDER settings with
  | Some domain => if bool_decide (domain = "") then None else Some domain
  | None => None
  end.

Definition S3_init (settings : Settings) (uri : string) : M store :=
  if negb (Py.startswith uri "s3://") then raise AssertionError
  else match Py.split_once "/" (Py.slice_from uri 5) with
       | Some (bucket, prefix) =>
           ret (S3ImagesStore bucket prefix (S3_set_custom_spider settings))
       | None => raise (ValueError "need more than 1 value to unpack")
       end.

Definition S3_build_request (bucket prefix : string) (key method : string)
    (body : option string) (headers : gmap string string) : Request :=
  let url := "http://" +:+ bucket +:+ ".s3.amazonaws.com/" +:+ prefix +:+ key in
  mkRequest url method body headers S3_request_priority.

Definition S3_download_request (s3_spider : option string)
    (request : Request) (info : DomainInfo) : M (deferred Response) :=
  match s3_spider with
  | Some spider => scrapyengine_schedule request spider
  | None => scrapyengine_download request (info_spider info)
  end.

Definition S3_stat_onsuccess (response : Response)
  : M (option (gmap string pyvalue)) :=
  if bool_decide (resp_status response = 200%Z) then
    match resp_headers response !! "Etag" with
    | None => raise (KeyError "Etag")
    | Some etag =>
        let checksum := Py.strip "034"%char etag in
        match resp_headers response !! "Last-Modified" with
        | None => raise (KeyError "Last-Modified")
        | Some last_modified =>
            match rfc822_stamp last_modified with
            | None => raise (TypeError "argument must be 9-item sequence, not None")
            | Some modified_stamp =>
                ret (Some {[ "checksum" := VStr checksum;
                             "last_modified" := VNum (inject_Z modified_stamp) ]})
            end
        end
    end
  else ret None.

Definition S3_stat_image (bucket prefix : string) (s3_spider : option string)
    (key : string) (info : DomainInfo)
  : M (deferred (option (gmap string pyvalue))) :=
  let req := S3_build_request bucket prefix key "HEAD" None ∅ in
  let* dfd := S3_download_request s3_spider req info in
  addCallback dfd S3_stat_onsuccess.

(** The buffer is returned as the call leaves it: read to its end. *)
Definition S3_persist_image (bucket prefix : string) (s3_spider : option string)
    (key : string) (im : image) (buf : StringIO) (info : DomainInfo)
  : M (deferred Response * StringIO) :=
  let '(width, height) := im_size im in
  let headers : gmap string string :=
    {[ "Content-Type" := "image/jpeg";
       "X-Amz-Acl" := "public-read";
       "X-Amz-Meta-Width" := Py.str_int width;
       "X-Amz-Meta-Height" := Py.str_int height;
       "Cache-Control" := "max-age=172800" ]} in
  let buf := StringIO_seek buf 0 in
  let '(body, buf) := StringIO_read buf in
  let req := S3_build_request bucket prefix key "PUT" (Some body) headers in
  let* dfd := S3_download_request s3_spider req info in
  ret (dfd, buf).

(** *** Calls through [self.store] *)

(** [self.store.persist_image(key, image, buf, info)] as a statement: what
    the store returns is dropped; the buffer, which the caller still holds,
    is returned as the store leaves it. *)
Definition store_persist_image (st : store)
    (key : string) (im : image) (buf : StringIO) (info : DomainInfo) : M StringIO :=
  match st with
  | FSImagesStore basedir =>
      FS_persist_image basedir key im buf info;; ret buf
  | S3ImagesStore bucket prefix s3_spider =>
      let* r := S3_persist_image bucket prefix s3_spider key im buf info in
      ret r.2
  end.

(** [defer.maybeDeferred(self.store.stat_image, key, info)]. *)
Definition store_stat_image (st : store) (key : string) (info : DomainInfo)
  : M (deferred (option (gmap string pyvalue))) :=
  match st with
  | FSImagesStore basedir =>
      maybeDeferred (let* d := FS_stat_image basedir key info in ret (Some d))
  | S3ImagesStore bucket prefix s3_spider =>
      λ s, match S3_stat_image bucket prefix s3_spider key info s with
           | (inr dfd, s') => (inr dfd, s')
           | (inl e, s') => (inr (inl e), s')
           end
  end.

(** *** [ImagesPipeline] *)

Definition construct_store (cls : store_class) (settings : Settings) (uri : string)
  : M store :=
  match cls with
  | FSImagesStore_class => FS_init uri
  | S3ImagesStore_class => S3_init settings uri
  end.

Definition _get_store (settings : Settings) (uri : string) : M store :=
  let scheme := urlparse_scheme uri in
  match STORE_SCHEMES !! scheme with
  | Some store_cls => construct_store store_cls settings uri
  | None => raise (KeyError scheme)
  end.

(** [ImagesPipeline.__init__], with the class attributes read from the
    settings. *)
Definition ImagesPipeline_init (settings : Settings) : M ImagesPipeline :=
  match IMAGES_STORE settings with
  | None => raise NotConfigured
  | Some store_uri =>
      if bool_decide (store_uri = "") then raise NotConfigured
      else
        let* st := _get_store settings store_uri in
        ret (mkPipeline (getint (IMAGES_MIN_WIDTH settings) 0)
                        (getint (IMAGES_MIN_HEIGHT settings) 0)
                        (getint (IMAGES_EXPIRES settings) 90)
                        (IMAGES_THUMBS settings)
                        st)
  end.

Definition inc_stats (domain status : string) : M unit :=
  stats_inc_value "image_count" domain;;
  stats_inc_value ("image_status_count/" +:+ status) domain.

Definition convert_image (im : image) (size : option (Z * Z))
  : exn + (image * StringIO) :=
  match (if negb (bool_decide (im_mode im = "RGB")) then Image_convert im "RGB"
         else inr im) with
  | inl err => inl (IOError err)
  | inr im =>
      match (match size with
             | Some sz => Image_thumbnail im sz
             | None => inr im
             end) with
      | inl err => inl (IOError err)
      | inr im =>
          let buf := StringIO_new in
          match Image_encode "JPEG" im with
          | inl ex => inl (ImageException (CannotProcess ex))
          | inr data => inr (im, StringIO_write buf data)
          end
      end
  end.

(** A generator that has no effects of its own is the list of what it
    yields, and the exception, if any, that ends it. *)
Definition generator (A : Type) : Type := (list A * option exn)%type.

(** The loop over [self.THUMBS] at the end of [get_images]. *)
Fixpoint get_thumbs (url : string) (im : image)
    (thumbs : list (string * option (Z * Z)))
  : generator (string * image * StringIO) :=
  match thumbs with
  | [] => ([], None)
  | (thumb_id, size) :: rest =>
      let thumb_key := thumb_key url thumb_id in
      match convert_image im size with
      | inl e => ([], Some e)
      | inr (thumb_image, thumb_buf) =>
          let '(items, e) := get_thumbs url im rest in
          ((thumb_key, thumb_image, thumb_buf) :: items, e)
      end
  end.

Definition get_images (self : ImagesPipeline)
    (response : Response) (request : Request) (info : DomainInfo)
  : generator (string * image * StringIO) :=
  let key := image_key (req_url request) in
  match Image_open (resp_body response) with
  | inl err => ([], Some (IOError err))
  | inr orig_image =>
      let '(width, height) := im_size orig_image in
      if (width <? MIN_WIDTH self)%Z || (height <? MIN_HEIGHT self)%Z then
        ([], Some (ImageException
                     (TooSmall width height (MIN_WIDTH self) (MIN_HEIGHT self)
                               (resp_url response))))
      else
        match convert_image orig_image None with
        | inl e => ([], Some e)
        | inr (im, buf) =>
            let '(items, e) := get_thumbs (req_url request) im (THUMBS self) in
            ((key, im, buf) :: items, e)
        end
  end.

(** The body of the loop of [image_downloaded], over what the generator
    yields; [first_buf] is the buffer of the first item. *)
Fixpoint persist_images (self : ImagesPipeline) (info : DomainInfo)
    (items : list (string * image * StringIO)) (first_buf : option StringIO)
  : M (option StringIO) :=
  match items with
  | [] => ret first_buf
  | (key, im, buf) :: rest =>
      let* buf := store_persist_image (pipeline_store self) key im buf info in
      let first_buf :=
        match first_buf with
        | None => Some buf
        | Some b => Some b
        end in
      persist_images self info rest first_buf
  end.

Definition image_downloaded (self : ImagesPipeline)
    (response : Response) (request : Request) (info : DomainInfo) : M string :=
  let '(items, ended) := get_images self response request info in
  let* first_buf := persist_images self info items None in
  match ended with
  | Some e => raise e
  | None =>
      match first_buf with
      | None => raise (AttributeError "'NoneType' object has no attribute 'seek'")
      | Some first_buf =>
          let first_buf := StringIO_seek first_buf 0 in
          ret (md5sum first_buf)
      end
  end.

Definition media_downloaded (self : ImagesPipeline)
    (response : Response) (request : Request) (info : DomainInfo)
  : M (gmap string pyvalue) :=
  let referer := req_headers request !! "Referer" in
  if negb (bool_decide (resp_status response = 200%Z)) then
    let msg := HttpError request referer in
    log_msg (MsgImageError msg) WARNING (info_domain info);;
    raise (ImageException msg)
  else if bool_decide (resp_body response = "") then
    let msg := EmptyContent request referer in
    log_msg (MsgImageError msg) WARNING (info_domain info);;
    raise (ImageException msg)
  else
    let status :=
      if bool_decide ("cached" ∈ resp_flags response) then "cached"
      else "downloaded" in
    log_msg (MsgDownloaded status request referer) DEBUG (info_domain info);;
    inc_stats (info_domain info) status;;
    let* kc :=
      try_except
        (let key := image_key (req_url request) in
         let* checksum := image_downloaded self response request info in
         ret (key, checksum))
        (λ ex, log_msg (MsgException ex) WARNING (info_domain info);; raise ex) in
    let '(key, checksum) := kc in
    ret {[ "url" := VStr (req_url request);
           "path" := VStr key;
           "checksum" := VStr checksum ]}.

Definition media_failed (self : ImagesPipeline)
    (failure : string) (request : Request) (info : DomainInfo)
  : M (gmap string pyvalue) :=
  let referer := req_headers request !! "Referer" in
  let msg := UnknownError request referer failure in
  log_msg (MsgImageError msg) WARNING (info_domain info);;
  raise (ImageException msg).

(** The callback [_onsuccess] of [media_to_download]; [key] is the variable
    of the enclosing call. *)
Definition to_download_onsuccess (self : ImagesPipeline)
    (request : Request) (info : DomainInfo) (key : string)
    (result : option (gmap string pyvalue))
  : M (option (gmap string pyvalue)) :=
  match result with
  | None => ret None
  | Some result =>
      if bool_decide (result = ∅) then ret None
      else
        let last_modified := dict_get result "last_modified" in
        if negb (truthy last_modified) then ret None
        else
          let* s := get_state in
          match last_modified with
          | VNum last_modified =>
              let age_seconds := Binary64.float_sub (clock s) last_modified in
              let age_days :=
                Binary64.float_div
                  (Binary64.float_div (Binary64.float_div age_seconds 60) 60) 24 in
              if Binary64.float_gt age_days (EXPIRES self) then ret None
              else
                let referer := req_headers request !! "Referer" in
                log_msg (MsgUptodate (req_url request) referer) DEBUG
                        (info_domain info);;
                inc_stats (info_domain info) "uptodate";;
                let checksum := dict_get result "checksum" in
                ret (Some {[ "url" := VStr (req_url request);
                             "path" := VStr key;
                             "checksum" := checksum ]})
          | _ => raise (TypeError "unsupported operand type(s) for -")
          end
  end.

Definition media_to_download (self : ImagesPipeline)
    (request : Request) (info : DomainInfo)
  : M (deferred (option (gmap string pyvalue))) :=
  let key := image_key (req_url request) in
  let* dfd := store_stat_image (pipeline_store self) key info in
  let* dfd := addCallbacks dfd (to_download_onsuccess self request info key)
                           (λ _, ret None) in
  let* dfd := addErrback dfd
                (λ failure,
                   emit (LogErr failure "ImagesPipeline.store.stat_image");;
                   ret None) in
  ret dfd.

(** The state after the calls [persist_image(key, image, buf, info)] of one
    session, one after the other; each runs to its end or to its exception. *)
Definition persist_session (basedir : string) (info : DomainInfo)
    (calls : list (string * image * StringIO)) (s : state) : state :=
  fold_left (λ s call, (FS_persist_image basedir call.1.1 call.1.2 call.2 info s).2)
            calls s.

(** *** Relations and predicates of the statements *)

(** An action is [within R] when every run of it, to a result or to an
    exception, takes a state to one related to it by [R]. *)
Definition within {A} (R : relation state) (m : M A) : Prop :=
  ∀ s r s', m s = (r, s') → R s s'.

(** From a state whose working directory is [cw]: the working directory
    stays, every directory stays a directory, and the entry at [k], if there
    is one, is kept. *)
Definition keeps_entry (cw k : list string) (s s' : state) : Prop :=
  cwd (fs s) = cw →
  cwd (fs s') = cw
  ∧ (∀ d, os.search (tree (fs s)) d = None → os.search (tree (fs s')) d = None)
  ∧ (∀ n, tree (fs s) !! k = Some n → tree (fs s') !! k = Some n).

(** One file system holds what the other holds. *)
Definition fs_grows (f f' : filesystem) : Prop :=
  cwd f' = cwd f ∧ ∀ k n, tree f !! k = Some n → tree f' !! k = Some n.

(** The age in days of lines 241 and 242, in the arithmetic of doubles. *)
Definition age_days (now last_modified : Q) : Binary64.float :=
  Binary64.float_div
    (Binary64.float_div
       (Binary64.float_div (Binary64.float_sub now last_modified) 60) 60) 24.

(** A name with no separator in it. *)
Definition no_sep (name : string) : Prop := Py.contains os.sep name = false.

(** A name that names an entry of a directory: not empty, no separator,
    and neither [.] nor [..]. *)
Definition plain_name (name : string) : Prop :=
  no_sep name ∧ name ≠ "" ∧ name ≠ "." ∧ name ≠ "..".

(** Nothing changes but the log of calls, which grows by calls that
    satisfy [Q]. *)
Definition only_calls (Q : event → bool) (s s' : state) : Prop :=
  fs s' = fs s ∧ clock s' = clock s
  ∧ created_directories s' = created_directories s
  ∧ ∃ l, events s' = events s ++ l ∧ forallb Q l = true.

(** The calls that only report: to the log and to the statistics. *)
Definition is_report (e : event) : bool :=
  match e with
  | LogMsg _ _ _ | LogErr _ _ | StatsInc _ _ => true
  | _ => false
  end.

(** The calls for the metadata of a stored object: a [HEAD] request handed
    to the engine. *)
Definition is_head_request (e : event) : bool :=
  match e with
  | EngineSchedule r _ | EngineDownload r _ => bool_decide (req_method r = "HEAD")
  | _ => false
  end.

(** The event [e] of the log of calls, once there, stays. *)
Definition keeps_event (e : event) (s s' : state) : Prop :=
  e ∈ events s → e ∈ events s'.

(** The headers of the upload of an image. *)
Definition S3_put_headers (im : image) : gmap string string :=
  {[ "Content-Type" := "image/jpeg";
     "X-Amz-Acl" := "public-read";
     "X-Amz-Meta-Width" := Py.str_int (im_size im).1;
     "X-Amz-Meta-Height" := Py.str_int (im_size im).2;
     "Cache-Control" := "max-age=172800" ]}.

(** The call by which the remote store hands an upload to the engine. *)
Definition S3_put_event (bucket prefix : string) (s3_spider : option string)
    (key : string) (im : image) (data : string) (info : DomainInfo) : event :=
  let req := S3_build_request bucket prefix key "PUT" (Some data) (S3_put_headers im) in
  match s3_spider with
  | Some spider => EngineSchedule req spider
  | None => EngineDownload req (info_spider info)
  end.

(** The calls that [media_to_download] may make: reports, and requests for
    the metadata of a stored object. *)
Definition is_stat_call (e : event) : bool := is_report e || is_head_request e.

(** An action [raises_only P] when every exception that it raises
    satisfies [P]. *)
Definition raises_only {A} (P : exn → Prop) (m : M A) : Prop :=
  ∀ s e s', m s = (inl e, s') → P e.

Definition not_download_error (e : exn) : Prop := is_download_error e = false.

(** Once [d] is in the cache of the session, it stays there and no work is
    done for it again. *)
Definition settled (k : dkey) (d : string) (s s' : state) : Prop :=
  cache_has s k d → cache_has s' k d ∧ dir_work d s' = dir_work d s.

(** The state [s] at the time [now]. *)
Definition set_clock (now : Q) (s : state) : state :=
  mkState (fs s) now (created_directories s) (events s).

(** The clock is as it was, and the log of calls has grown by calls that
    satisfy [Q]. *)
Definition steady (Q : event → bool) (s s' : state) : Prop :=
  clock s' = clock s ∧ ∃ l, events s' = events s ++ l ∧ forallb Q l = true.

(** The calls to the file system for a directory. *)
Definition is_os_call (e : event) : bool :=
  match e with
  | OsPathExists _ | OsMakedirs _ => true
  | _ => false
  end.

(** The files that [image.save] was called for, in order. *)
Definition saved_paths (l : list event) : list string :=
  omap (λ e, match e with ImageSaveFile p => Some p | _ => None end) l.

(** How often a counter of the statistics was incremented. *)
Definition is_stats_inc (key domain : string) (e : event) : bool :=
  match e with
  | StatsInc k d => bool_decide (k = key) && bool_decide (d = domain)
  | _ => false
  end.

Definition stats_count (key domain : string) (l : list event) : nat :=
  length (filter (λ e, is_stats_inc key domain e = true) l).

(** The keys that [get_images] yields when nothing fails: the primary key,
    then the key of each thumbnail in the order of [THUMBS]. *)
Definition variant_keys (self : ImagesPipeline) (url : string) : list string :=
  image_key url :: map (λ thumb, thumb_key url thumb.1) (THUMBS self).

(** The error of an image below the minimum size. *)
Definition is_too_small (e : exn) : bool :=
  match e with
  | ImageException (TooSmall _ _ _ _ _) => true
  | _ => false
  end.

Definition not_too_small (e : exn) : Prop := is_too_small e = false.

(** The settings with [IMAGES_STORE] set to [uri]. *)
Definition with_store (settings : Settings) (uri : string) : Settings :=
  mkSettings (Some uri) (IMAGES_MIN_WIDTH settings) (IMAGES_MIN_HEIGHT settings)
             (IMAGES_EXPIRES settings) (IMAGES_THUMBS settings)
             (IMAGES_S3STORE_SPIDER settings).

(** What the response and the variants made from it decide, without any
    call: the error of the response, the exception that ends the variants,
    or the result for the primary variant. *)
Definition variants_outcome (self : ImagesPipeline)
    (response : Response) (request : Request) (info : DomainInfo)
  : exn + gmap string pyvalue :=
  let referer := req_headers request !! "Referer" in
  if negb (bool_decide (resp_status response = 200%Z)) then
    inl (ImageException (HttpError request referer))
  else if bool_decide (resp_body response = "") then
    inl (ImageException (EmptyContent request referer))
  else
    match get_images self response request info with
    | (_, Some e) => inl e
    | ([], None) => inl (AttributeError "'NoneType' object has no attribute 'seek'")
    | ((_, _, buf) :: _, None) =>
        inr {[ "url" := VStr (req_url request);
               "path" := VStr (image_key (req_url request));
               "checksum" := VStr (md5_hexdigest (getvalue buf)) ]}
    end.

(** ** Properties *)

(** *** Strings *)

Lemma str_app_cons a (s t : string) : String a s +:+ t = String a (s +:+ t).
Proof. reflexivity. Qed.

Lemma str_app_nil_l (t : string) : "" +:+ t = t.
Proof. reflexivity. Qed.

Lemma str_app_assoc (s t u : string) : (s +:+ t) +:+ u = s +:+ t +:+ u.
Proof. induction s as [|a s IH]; [done|]. by rewrite !str_app_cons, IH. Qed.

Lemma str_length_app (s t : string) :
  String.length (s +:+ t) = String.length s + String.length t.
Proof. induction s as [|a s IH]; [done|]. rewrite str_app_cons. simpl. by rewrite IH. Qed.

Lemma str_take_app_length (s t : string) : Py.take (String.length s) (s +:+ t) = s.
Proof. induction s as [|a s IH]; [by destruct t|]. rewrite str_app_cons. simpl. by rewrite IH. Qed.

Lemma str_take_length (s : string) : Py.take (String.length s) s = s.
Proof. induction s as [|a s IH]; [done|]. simpl. by rewrite IH. Qed.

Lemma str_drop_app_length (s t : string) : Py.drop (String.length s) (s +:+ t) = t.
Proof. induction s as [|a s IH]; [by destruct t|]. rewrite str_app_cons. simpl. by rewrite IH. Qed.

Lemma contains_app c (s t : string) :
  Py.contains c (s +:+ t) = Py.contains c s || Py.contains c t.
Proof.
  induction s as [|a s IH]; [done|]. rewrite str_app_cons. simpl.
  by destruct (decide (a = c)).
Qed.

Lemma all_chars_app p (s t : string) :
  Py.all_chars p (s +:+ t) = Py.all_chars p s && Py.all_chars p t.
Proof.
  induction s as [|a s IH]; [done|]. rewrite str_app_cons. simpl.
  rewrite IH. by rewrite andb_assoc.
Qed.

Lemma rfind_from_app c (s t : string) i last :
  Py.rfind_from c (s +:+ t) i last
  = Py.rfind_from c t (i + Z.of_nat (String.length s)) (Py.rfind_from c s i last).
Proof.
  revert i last. induction s as [|a s IH]; intros i last.
  - rewrite str_app_nil_l. simpl. f_equal. lia.
  - rewrite str_app_cons. simpl. rewrite IH. f_equal. lia.
Qed.

Lemma rfind_from_absent c (s : string) i last :
  Py.contains c s = false → Py.rfind_from c s i last = last.
Proof.
  revert i last. induction s as [|a s IH]; intros i last H; [done|].
  simpl in *. destruct (decide (a = c)); [done|]. by apply IH.
Qed.

(** The last occurrence of [c] in [s c t], when [t] has none. *)
Lemma rfind_last c (s t : string) :
  Py.contains c t = false →
  Py.rfind c (s +:+ String c t) = Z.of_nat (String.length s).
Proof.
  intros H. unfold Py.rfind. rewrite rfind_from_app. simpl.
  rewrite decide_True by done. by rewrite rfind_from_absent.
Qed.

Lemma rstrip_app_keep c (s t : string) :
  Py.rstrip c t ≠ "" → Py.rstrip c (s +:+ t) = s +:+ Py.rstrip c t.
Proof.
  intros H. induction s as [|a s IH]; [done|].
  rewrite !str_app_cons. simpl. rewrite IH.
  destruct (s +:+ Py.rstrip c t) eqn:E; [|done].
  destruct s; [|done]. by rewrite str_app_nil_l in E.
Qed.

Lemma any_char_true p (s : string) :
  s ≠ "" → Py.all_chars p s = true → Py.any_char p s = true.
Proof. destruct s as [|a s]; [done|]. simpl. intros _ [-> _]%andb_true_iff. done. Qed.


(** *** Paths *)

(** The extension of a path whose last component is [h.jpg], for an [h]
    that has no separator and no dot. *)
Lemma splitext_jpg (d h : string) :
  h ≠ "" → Py.contains os.sep h = false → Py.contains os.extsep h = false →
  (os.path_splitext (d +:+ "/" +:+ h +:+ ".jpg")).2 = ".jpg".
Proof.
  unfold os.path_splitext, os.sep, os.extsep. intros Hne Hsep Hdot.
  assert (Hs : Py.rfind "/" (d +:+ "/" +:+ h +:+ ".jpg")
               = Z.of_nat (String.length d)).
  { apply rfind_last. rewrite contains_app, Hsep. done. }
  assert (Hd : Py.rfind "." (d +:+ "/" +:+ h +:+ ".jpg")
               = Z.of_nat (String.length (d +:+ "/" +:+ h))).
  { rewrite <- (str_app_assoc d "/" (h +:+ ".jpg")), <- (str_app_assoc (d +:+ "/") h).
    rewrite (str_app_assoc d "/" h). by apply rfind_last. }
  rewrite Hs, Hd. rewrite !str_length_app. simpl String.length.
  assert (Hlt : (Z.of_nat (String.length d)
                 <? Z.of_nat (String.length d + (1 + String.length h)))%Z = true)
    by (apply Z.ltb_lt; lia).
  rewrite Hlt, andb_true_l.
  assert (Hslice : Py.slice (d +:+ "/" +:+ h +:+ ".jpg")
                     (Z.of_nat (String.length d) + 1)
                     (Z.of_nat (String.length d + (1 + String.length h))) = h).
  { unfold Py.slice.
    replace (Z.to_nat (Z.of_nat (String.length d) + 1))
      with (String.length (d +:+ "/")) by (rewrite str_length_app; simpl; lia).
    rewrite <- (str_app_assoc d "/"), str_drop_app_length.
    replace (Z.to_nat _) with (String.length h) by lia.
    apply str_take_app_length. }
  rewrite Hslice.
  rewrite any_char_true; [|done|].
  - simpl. unfold Py.slice_from.
    replace (Z.to_nat _) with (String.length ((d +:+ "/") +:+ h))
      by (rewrite !str_length_app; simpl; lia).
    rewrite <- (str_app_assoc d "/"), <- (str_app_assoc (d +:+ "/") h).
    apply str_drop_app_length.
  - clear -Hdot. induction h as [|a h IH]; [done|]. simpl in *.
    destruct (decide (a = "."%char)); [done|].
    rewrite bool_decide_eq_false_2 by done. simpl. by apply IH.
Qed.

Lemma path_join_relative (a b : string) :
  Py.startswith b "/" = false →
  ∃ pre, os.path_join a b = pre +:+ b ∧ ∀ b', Py.startswith b' "/" = false →
                                             os.path_join a b' = pre +:+ b'.
Proof.
  intros Hb. unfold os.path_join. rewrite Hb.
  destruct (bool_decide (a = "") || Py.endswith_char a os.sep) eqn:E.
  - exists a. split; [done|]. by intros b' ->.
  - exists (a +:+ "/"). rewrite str_app_assoc. split; [done|].
    intros b' ->. by rewrite str_app_assoc.
Qed.
(** *** Running the monad *)

Lemma bind_inv {A B} (m : M A) (k : A → M B) s r s2 :
  bind m k s = (r, s2) →
  (∃ e, m s = (inl e, s2) ∧ r = inl e)
  ∨ (∃ a s1, m s = (inr a, s1) ∧ k a s1 = (r, s2)).
Proof.
  unfold bind. destruct (m s) as [[e|a] s1]; intros H.
  - left. exists e. by simplify_eq.
  - right. by exists a, s1.
Qed.

Lemma bind_inr {A B} (m : M A) (k : A → M B) s b s2 :
  bind m k s = (inr b, s2) → ∃ a s1, m s = (inr a, s1) ∧ k a s1 = (inr b, s2).
Proof. intros [(e & _ & ?)|H]%bind_inv; [done|exact H]. Qed.

Lemma run_eq {A} (m : M A) s r : (m s).1 = r → m s = (r, (m s).2).
Proof. destruct (m s) as [r' s']. simpl. by intros ->. Qed.

Lemma bind_run {A B} (m : M A) (k : A → M B) s a s1 :
  m s = (inr a, s1) → bind m k s = k a s1.
Proof. unfold bind. by intros ->. Qed.

Section within.
Context (R : relation state) `{!PreOrder R}.

Lemma within_ret {A} (a : A) : within R (ret a).
Proof. intros s r s' [= _ <-]. reflexivity. Qed.

Lemma within_raise {A} e : within R (raise (A:=A) e).
Proof. intros s r s' [= _ <-]. reflexivity. Qed.

Lemma within_get_state : within R get_state.
Proof. intros s r s' [= _ <-]. reflexivity. Qed.

Lemma within_modify f : (∀ s, R s (f s)) → within R (modify f).
Proof. intros H s r s' [= _ <-]. apply H. Qed.

Lemma within_bind {A B} (m : M A) (k : A → M B) :
  within R m → (∀ a, within R (k a)) → within R (bind m k).
Proof.
  intros Hm Hk s r s' [(e & H & _)|(a & s1 & H1 & H2)]%bind_inv.
  - by eapply Hm.
  - etrans; [by eapply Hm|by eapply Hk].
Qed.

Lemma within_try_except {A} (m : M A) h :
  within R m → (∀ e, within R (h e)) → within R (try_except m h).
Proof.
  intros Hm Hh s r s'. unfold try_except.
  destruct (m s) as [[e|a] s1] eqn:E; intros H.
  - etrans; [by eapply Hm|by eapply Hh].
  - simplify_eq. by eapply Hm.
Qed.

Lemma within_maybeDeferred {A} (m : M A) : within R m → within R (maybeDeferred m).
Proof.
  intros Hm s r s'. unfold maybeDeferred.
  destruct (m s) as [r1 s1] eqn:E. intros [= _ <-]. by eapply Hm.
Qed.
End within.

Ltac wbind := first [apply within_bind; [solve [apply _]| |] | apply within_bind].
Ltac wret := first [apply within_ret; solve [apply _] | by apply within_ret].
Ltac wraise := first [apply within_raise; solve [apply _] | by apply within_raise].
Ltac wget := first [apply within_get_state; solve [apply _] | by apply within_get_state].
Ltac wtry :=
  first [apply within_try_except; [solve [apply _]| |] | apply within_try_except].
Ltac wmodify :=
  first [apply within_modify; [solve [apply _]|] | apply within_modify].
Ltac wdefer :=
  first [apply within_maybeDeferred; [solve [apply _]|] | apply within_maybeDeferred].

(** *** What an action leaves alone *)

Global Instance keeps_entry_preorder cw k : PreOrder (keeps_entry cw k).
Proof.
  split; [by intros s Hc|].
  intros s1 s2 s3 H1 H2 Hc. destruct (H1 Hc) as (Hc2 & Hd1 & He1).
  destruct (H2 Hc2) as (Hc3 & Hd2 & He2). split_and!; [done| |].
  - intros d Hd. by apply Hd2, Hd1.
  - intros n Hn. by apply He2, He1.
Qed.

Global Instance only_calls_preorder Q : PreOrder (only_calls Q).
Proof.
  split.
  - intros s. split_and!; try done. exists []. by rewrite app_nil_r.
  - intros s1 s2 s3 (Hf1 & Hc1 & Hd1 & l1 & He1 & Hl1) (Hf2 & Hc2 & Hd2 & l2 & He2 & Hl2).
    split_and!; try congruence. exists (l1 ++ l2).
    rewrite He2, He1, <- app_assoc. split; [done|].
    rewrite forallb_app. by rewrite Hl1, Hl2.
Qed.

Lemma only_calls_emit Q e : Q e = true → within (only_calls Q) (emit e).
Proof.
  intros He. wmodify. intros s. split_and!; try done.
  exists [e]. split; [done|]. simpl. by rewrite He.
Qed.

Lemma keeps_entry_emit cw k e : within (keeps_entry cw k) (emit e).
Proof. wmodify. by intros s Hc. Qed.

Lemma keeps_entry_set_created_directories cw k f :
  within (keeps_entry cw k) (modify (set_created_directories f)).
Proof. wmodify. by intros s Hc. Qed.

Lemma only_calls_weaken (Q Q' : event → bool) s s' :
  (∀ e, Q e = true → Q' e = true) → only_calls Q s s' → only_calls Q' s s'.
Proof.
  intros H (Hf & Hc & Hd & l & He & Hl). split_and!; try done.
  exists l. split; [done|]. rewrite forallb_forall in *. auto.
Qed.

Lemma within_weaken {A} (R R' : relation state) (m : M A) :
  (∀ s s', R s s' → R' s s') → within R m → within R' m.
Proof. intros H Hm s r s' Hr. by eapply H, Hm. Qed.

Lemma only_calls_inc_stats Q domain status :
  (∀ e, is_report e = true → Q e = true) →
  within (only_calls Q) (inc_stats domain status).
Proof.
  intros HQ. unfold inc_stats, stats_inc_value.
  wbind; [by apply only_calls_emit, HQ|]. intros _.
  by apply only_calls_emit, HQ.
Qed.

Lemma only_calls_log_msg Q msg level domain :
  (∀ e, is_report e = true → Q e = true) →
  within (only_calls Q) (log_msg msg level domain).
Proof. intros HQ. by apply only_calls_emit, HQ. Qed.

(** *** The file system *)

Lemma split_char_cons c (s : string) : ∃ h t, Py.split_char c s = h :: t.
Proof.
  induction s as [|a s (h & t & IH)]; simpl; [by eexists _, _|].
  destruct (decide (a = c)); [by eexists _, _|]. rewrite IH. by eexists _, _.
Qed.

(** Splitting at a separator splits the two sides. *)
Lemma split_char_app_sep c (a b : string) :
  Py.split_char c (a +:+ String c b) = Py.split_char c a ++ Py.split_char c b.
Proof.
  induction a as [|x a IH]; simpl.
  - by rewrite decide_True.
  - rewrite IH. destruct (decide (x = c)); [done|].
    by destruct (split_char_cons c a) as (h & t & ->).
Qed.

Lemma split_char_plain c (s : string) :
  Py.contains c s = false → Py.split_char c s = [s].
Proof.
  induction s as [|a s IH]; simpl; [done|].
  destruct (decide (a = c)); [done|]. intros H. by rewrite (IH H).
Qed.

Lemma step_plain cur name :
  name ≠ "" → name ≠ "." → name ≠ ".." → os.step cur name = cur ++ [name].
Proof.
  intros H1 H2 H3. unfold os.step.
  by rewrite !bool_decide_eq_false_2 by done.
Qed.

(** A path that resolves names the entry that its names lead to. *)
Lemma walk_lex t cur names k :
  os.walk t cur names = inr k → k = foldl os.step cur names.
Proof.
  revert cur. induction names as [|name names IH]; intros cur; simpl.
  - by intros [= <-].
  - destruct (os.search t cur); [done|]. apply IH.
Qed.

Lemma walk_app t cur l1 l2 :
  os.walk t cur (l1 ++ l2)
  = match os.walk t cur l1 with
    | inl e => inl e
    | inr k => os.walk t k l2
    end.
Proof.
  revert cur. induction l1 as [|name l1 IH]; intros cur; simpl; [done|].
  destruct (os.search t cur); [done|]. apply IH.
Qed.

Lemma walk_mono t t' cur names k :
  (∀ d, os.search t d = None → os.search t' d = None) →
  os.walk t cur names = inr k → os.walk t' cur names = inr k.
Proof.
  intros Hdirs. revert cur. induction names as [|name names IH]; intros cur; simpl;
    [done|].
  destruct (os.search t cur) as [e|] eqn:E; [done|].
  rewrite (Hdirs _ E). apply IH.
Qed.

Lemma split_char_last c (s : string) :
  Py.split_char c s
  = removelast (Py.split_char c s) ++ [List.last (Py.split_char c s) ""].
Proof.
  apply app_removelast_last. by destruct (split_char_cons c s) as (h & t & ->).
Qed.

(** The last name of a path that does not end in a separator. *)
Lemma split_char_last_nonempty c (s : string) :
  s ≠ "" → Py.endswith_char s c = false → List.last (Py.split_char c s) "" ≠ "".
Proof.
  induction s as [|a s IH]; [done|]. intros _. destruct s as [|b s].
  - simpl. intros Ha%bool_decide_eq_false. by rewrite decide_False.
  - intros Hend. change (Py.endswith_char (String b s) c = false) in Hend.
    specialize (IH ltac:(done) Hend).
    change (Py.split_char c (String a (String b s)))
      with (if decide (a = c) then EmptyString :: Py.split_char c (String b s)
            else match Py.split_char c (String b s) with
                 | h :: t => String a h :: t
                 | [] => [String a EmptyString]
                 end).
    destruct (split_char_cons c (String b s)) as (h & t & E). rewrite E in *.
    destruct (decide (a = c)); [done|]. by destruct t.
Qed.

(** What holds an entry holds the directories. *)
Lemma fs_grows_search f f' d :
  fs_grows f f' → os.search (tree f) d = None → os.search (tree f') d = None.
Proof.
  intros [_ H]. unfold os.search, os.entry. destruct d as [|x d]; [done|].
  destruct (tree f !! (x :: d)) as [[|m]|] eqn:E; try done.
  by rewrite (H _ _ E).
Qed.

Global Instance fs_grows_preorder : PreOrder fs_grows.
Proof.
  split; [by intros f|]. intros f1 f2 f3 [Hc1 H1] [Hc2 H2].
  split; [congruence|]. intros k n Hk. by apply H2, H1.
Qed.

Lemma mkdir_grows name now f r f' : os.mkdir name now f = (r, f') → fs_grows f f'.
Proof.
  unfold os.mkdir. intros H.
  destruct (bool_decide (name = "")); [by simplify_eq|].
  destruct (bool_decide (Py.rstrip os.sep name = "")); [by simplify_eq|].
  destruct (os.parent_of f _) as [e|[d c]]; [by simplify_eq|].
  destruct (_ || _); [by simplify_eq|].
  destruct (tree f !! (d ++ [c])) as [n0|] eqn:E; simplify_eq; [done|].
  split; [done|]. intros k n Hk. simpl.
  rewrite lookup_insert_ne; [done|]. intros <-. congruence.
Qed.

Lemma makedirs_rec_grows fuel name now f r f' :
  os.makedirs_rec fuel name now f = (r, f') → fs_grows f f'.
Proof.
  revert name f f' r. induction fuel as [|fuel IH]; intros name f f' r; simpl;
    intros Hrun; repeat case_match; simplify_eq;
    try done; try (by eapply mkdir_grows); try (by eapply IH);
    (etrans; [by eapply IH|by eapply mkdir_grows]).
Qed.

Lemma fs_grows_keeps_entry cw k s s' :
  fs_grows (fs s) (fs s') → keeps_entry cw k s s'.
Proof.
  intros Hg Hc. destruct Hg as [Hcwd Hk] eqn:E. split_and!; [congruence| |by auto].
  intros d. by apply fs_grows_search.
Qed.

Lemma length_take_le n (s : string) :
  String.length (Py.take n s) ≤ n ∧ String.length (Py.take n s) ≤ String.length s.
Proof.
  revert s. induction n as [|n IH]; intros [|a s]; simpl; try lia.
  destruct (IH s). lia.
Qed.

Lemma length_drop n (s : string) :
  String.length (Py.drop n s) = String.length s - n.
Proof. revert s. induction n as [|n IH]; intros [|a s]; simpl; try lia. apply IH. Qed.

Lemma length_rstrip_le c (s : string) :
  String.length (Py.rstrip c s) ≤ String.length s.
Proof.
  induction s as [|a s IH]; simpl; [lia|].
  destruct (Py.rstrip c s); [destruct (decide (a = c))|]; simpl in *; lia.
Qed.

(** The two parts of a path are together no longer than the path. *)
Lemma length_path_split p :
  String.length (os.path_split p).1 + String.length (os.path_split p).2
  ≤ String.length p.
Proof.
  unfold os.path_split, Py.slice_to, Py.slice_from. simpl.
  set (i := Z.to_nat (Py.rfind os.sep p + 1)).
  pose proof (length_take_le i p) as [H1 H2].
  pose proof (length_drop i p) as H3.
  pose proof (length_rstrip_le os.sep (Py.take i p)) as H4.
  destruct (_ && _); lia.
Qed.

(** [os.makedirs] has fuel enough: the recursion goes to a head that is
    shorter than the path, so the depth never reaches the length of the
    path, and the only exceptions are those of the operating system. *)
Lemma makedirs_rec_fuel fuel name now (m m' : filesystem) e :
  String.length name ≤ fuel →
  os.makedirs_rec fuel name now m = (Some e, m') → ∃ code path, e = OSError code path.
Proof.
  assert (Hmkdir : ∀ name now (m m' : filesystem) e,
            os.mkdir name now m = (Some e, m') → ∃ code path, e = OSError code path).
  { intros name0 now0 m0 m0' e0. unfold os.mkdir.
    intros H. repeat case_match; simplify_eq; by eexists _, _. }
  revert name m m' e. induction fuel as [|fuel IH]; intros name m m' e Hlen;
    cbn [os.makedirs_rec].
  - destruct name; [|simpl in Hlen; lia]. simpl. apply Hmkdir.
  - pose proof (length_path_split name) as Hs.
    destruct (os.path_split name) as [head0 tail0] eqn:E0. simpl in Hs.
    assert (Hrec : ∀ head tail,
              (if bool_decide (tail0 = "") then os.path_split head0 else (head0, tail0))
              = (head, tail) →
              tail ≠ "" → String.length head ≤ fuel).
    { intros head tail Hht Htail. case_bool_decide as Ht0.
      - pose proof (length_path_split head0) as Hs'. rewrite Hht in Hs'. simpl in Hs'.
        destruct tail; [done|]. simpl in Hs'. lia.
      - injection Hht as <- <-. destruct tail0; [done|]. simpl in Hs. lia. }
    destruct (if bool_decide (tail0 = "") then os.path_split head0 else (head0, tail0))
      as [head tail] eqn:E1.
    specialize (Hrec head tail eq_refl).
    destruct (negb (bool_decide (head = "")) && negb (bool_decide (tail = ""))
              && negb (os.exists_at m head)) eqn:Hcond; [|apply Hmkdir].
    assert (Htail : tail ≠ "").
    { intros ->. rewrite (bool_decide_eq_true_2 ("" = "")) in Hcond by done.
      by rewrite andb_false_r in Hcond. }
    specialize (Hrec Htail).
    destruct (os.makedirs_rec fuel head now m) as [[e'|] m1] eqn:Erec.
    + apply IH in Erec as (code & path & ->); [|done].
      intros H. destruct code; destruct (bool_decide (tail = ".")); simplify_eq;
        try (by eexists _, _); by eapply Hmkdir.
    + intros H. destruct (bool_decide (tail = ".")); simplify_eq. by eapply Hmkdir.
Qed.

Lemma keeps_entry_makedirs cw k name : within (keeps_entry cw k) (os.makedirs name).
Proof.
  unfold os.makedirs. wbind; [apply keeps_entry_emit|].
  intros _ s r s' H. apply fs_grows_keeps_entry.
  destruct (os.makedirs_rec _ _ _ _) as [[e|] m'] eqn:E; simplify_eq; simpl;
    by eapply makedirs_rec_grows.
Qed.

Lemma keeps_entry_path_exists cw k p : within (keeps_entry cw k) (os.path_exists p).
Proof.
  unfold os.path_exists. wbind; [apply keeps_entry_emit|].
  intros _. wbind; [by wget|].
  intros s. wret.
Qed.

Lemma keeps_entry_FS_mkdir cw k dirname domain :
  within (keeps_entry cw k) (FS_mkdir dirname domain).
Proof.
  unfold FS_mkdir. wbind; [ |].
  - destruct domain as [d|]; [|wret].
    destruct (dkey_truthy _); [|wret].
    wbind; [wget|]. intros s.
    destruct (_ !! d); [wret|].
    wbind; [apply keeps_entry_set_created_directories|].
    intros _. wret.
  - intros seen. case_bool_decide; [wret|].
    wbind; [apply keeps_entry_path_exists|]. intros present.
    wbind; [ |].
    + destruct present; [wret|apply keeps_entry_makedirs].
    + intros _. destruct domain as [d|]; [|wret].
      destruct (dkey_truthy _); [|wret].
      apply keeps_entry_set_created_directories.
Qed.

(** The name that [parent_of] gives lies in the directory it gives. *)
Lemma parent_of_lex_key f p d c :
  os.parent_of f p = inr (d, c) →
  os.walk (tree f) (os.start (cwd f) p) (removelast (Py.split_char os.sep p)) = inr d
  ∧ os.search (tree f) d = None
  ∧ c = List.last (Py.split_char os.sep p) ""
  ∧ os.lex_key (cwd f) p = os.step d c.
Proof.
  unfold os.parent_of, os.lex_key.
  destruct (os.walk _ _ _) as [e|d'] eqn:Hwalk; [done|].
  destruct (os.search _ d') eqn:Hsearch; [done|]. intros [= <- <-].
  split_and!; try done.
  rewrite (split_char_last os.sep p) at 1. rewrite foldl_app. simpl.
  by rewrite <- (walk_lex _ _ _ _ Hwalk).
Qed.

(** What [open(p, 'wb')] does when it returns: it makes or empties the
    entry that [p] names, which was no directory. *)
Lemma open_wb_inr p s k s' :
  os.open_wb p s = (inr k, s') →
  ∃ d c,
    os.parent_of (fs s) p = inr (d, c)
    ∧ p ≠ ""
    ∧ k = d ++ [c] ∧ k = os.lex_key (cwd (fs s)) p
    ∧ (∀ m, tree (fs s) !! k ≠ Some (Dir m))
    ∧ s' = set_fs (os.add_entry k (File (clock s) "")) s.
Proof.
  unfold os.open_wb. intros Hrun.
  apply bind_inr in Hrun as (s0 & s1 & [= <- <-] & Hrun).
  case_bool_decide as Hp; [done|].
  destruct (Py.endswith_char p os.sep) eqn:Hend.
  { destruct (bool_decide _); [done|]. by destruct (os.parent_of _ _) as [e|[d c]]. }
  destruct (os.parent_of (fs s) p) as [e|[d c]] eqn:Hparent; [done|].
  destruct (bool_decide (c = ".") || bool_decide (c = "..")) eqn:Hdots; [done|].
  apply orb_false_iff in Hdots as [H1%bool_decide_eq_false H2%bool_decide_eq_false].
  exists d, c. split; [done|]. split; [done|].
  destruct (parent_of_lex_key _ _ _ _ Hparent) as (_ & _ & Hc & Hlex).
  assert (Hne : c ≠ "").
  { rewrite Hc. by apply split_char_last_nonempty. }
  rewrite step_plain in Hlex by done.
  destruct (tree (fs s) !! (d ++ [c])) as [[t data|m]|] eqn:E; [|done|].
  - apply bind_inr in Hrun as ([] & s2 & [= <-] & [= <- <-]).
    split_and!; try done. intros m. by rewrite E.
  - apply bind_inr in Hrun as ([] & s2 & [= <-] & [= <- <-]).
    split_and!; try done. intros m. by rewrite E.
Qed.

(** *** Digests and keys *)

Lemma all_chars_of_list p (l : list ascii) :
  (∀ a, In a l → p a = true) → Py.all_chars p (string_of_list_ascii l) = true.
Proof.
  induction l as [|a l IH]; intros H; [done|]. simpl.
  rewrite H by (by left). rewrite IH; [done|]. intros b Hb. apply H. by right.
Qed.

Lemma length_of_list (l : list ascii) :
  String.length (string_of_list_ascii l) = length l.
Proof. induction l as [|a l IH]; [done|]. simpl. by rewrite IH. Qed.

Lemma all_chars_not_contains p c (s : string) :
  p c = false → Py.all_chars p s = true → Py.contains c s = false.
Proof.
  intros Hc. induction s as [|a s IH]; [done|]. simpl.
  intros [Ha Hs]%andb_true_iff. destruct (decide (a = c)) as [->|]; [congruence|].
  by apply IH.
Qed.

Lemma hex_char_lower (n : Z) : is_lower_hex (Sha1.hex_char n) = true.
Proof.
  unfold Sha1.hex_char.
  assert (H : (0 <= Z.land n 15 < 16)%Z).
  { change 15%Z with (Z.ones 4). rewrite Z.land_ones by lia.
    apply Z.mod_pos_bound. lia. }
  assert (Hn : Z.to_nat (Z.land n 15) < 16) by lia.
  revert Hn. generalize (Z.to_nat (Z.land n 15)). intros k Hk.
  do 16 (destruct k as [|k]; [reflexivity|]). lia.
Qed.

Lemma hex8_lower (w : Z) a : In a (Sha1.hex8 w) → is_lower_hex a = true.
Proof.
  unfold Sha1.hex8. rewrite in_map_iff. intros (i & <- & _). apply hex_char_lower.
Qed.

Lemma hexdigest_lower_hex (s : string) :
  Py.all_chars is_lower_hex (Sha1.hexdigest s) = true.
Proof.
  unfold Sha1.hexdigest. destruct (Sha1.digest s) as [[[[h0 h1] h2] h3] h4].
  apply all_chars_of_list. intros a Ha.
  repeat (apply in_app_or in Ha as [Ha|Ha]; [by eapply hex8_lower|]).
  by eapply hex8_lower.
Qed.

Lemma hexdigest_length (s : string) : String.length (Sha1.hexdigest s) = 40.
Proof.
  unfold Sha1.hexdigest. destruct (Sha1.digest s) as [[[[h0 h1] h2] h3] h4].
  by rewrite length_of_list.
Qed.

Lemma hexdigest_nonempty (s : string) : Sha1.hexdigest s ≠ "".
Proof. intros H. pose proof (hexdigest_length s) as Hl. by rewrite H in Hl. Qed.

Lemma hexdigest_no_sep (s : string) : Py.contains os.sep (Sha1.hexdigest s) = false.
Proof. by apply (all_chars_not_contains is_lower_hex), hexdigest_lower_hex. Qed.

Lemma hexdigest_no_dot (s : string) : Py.contains os.extsep (Sha1.hexdigest s) = false.
Proof. by apply (all_chars_not_contains is_lower_hex), hexdigest_lower_hex. Qed.

(** Two strings of the same length followed by the same suffix. *)
Lemma app_inv_tail_same_length (s s' t : string) :
  String.length s = String.length s' → s +:+ t = s' +:+ t → s = s'.
Proof.
  revert s'. induction s as [|a s IH]; intros [|a' s'] Hl H; try done.
  rewrite !str_app_cons in H. injection H as -> H. f_equal. apply IH; [|done].
  simpl in Hl. lia.
Qed.

Lemma image_key_inj (u u' : string) :
  image_key u = image_key u' → Sha1.hexdigest u = Sha1.hexdigest u'.
Proof.
  unfold image_key. intros H. apply (inj (String.app "full/")) in H.
  apply (app_inv_tail_same_length _ _ ".jpg"); [|done].
  by rewrite !hexdigest_length.
Qed.

Lemma thumb_key_inj (u u' t : string) :
  thumb_key u t = thumb_key u' t → Sha1.hexdigest u = Sha1.hexdigest u'.
Proof.
  unfold thumb_key. intros H. apply (inj (String.app "thumbs/")) in H.
  apply (inj (String.app t)) in H. apply (inj (String.app "/")) in H.
  apply (app_inv_tail_same_length _ _ ".jpg"); [|done].
  by rewrite !hexdigest_length.
Qed.

Lemma NoDup_hexdigest_urls : NoDup (map Sha1.hexdigest Scenario.urls).
Proof.
  apply (bool_decide_eq_true_1 (NoDup (map Sha1.hexdigest Scenario.urls))). vm_refl.
Qed.

(** C3.  The primary key of a URL is ["full/"], the SHA-1 digest of the URL
    as 40 lowercase hexadecimal digits, and [".jpg"]; the key of the variant
    [t] is ["thumbs/"], [t], ["/"], the same digest and [".jpg"].  Keys are
    functions of the URL (and of [t]): two URLs have the same key exactly
    when their SHA-1 digests are the same, so that distinct URLs share a key
    only on a collision of SHA-1.  The digest is that of FIPS 180: it gives
    the digests of the standard for the empty message, for [abc] and for the
    message of two blocks; and the sample URLs, which are pairwise distinct,
    have pairwise distinct primary keys and pairwise distinct keys of the
    variant [t]. *)
Theorem key_derivation_content_addressed (u u' t : string) :
  image_key u = "full/" +:+ Sha1.hexdigest u +:+ ".jpg"
  ∧ thumb_key u t = "thumbs/" +:+ t +:+ "/" +:+ Sha1.hexdigest u +:+ ".jpg"
  ∧ String.length (Sha1.hexdigest u) = 40
  ∧ Py.all_chars is_lower_hex (Sha1.hexdigest u) = true
  ∧ (image_key u = image_key u' ↔ Sha1.hexdigest u = Sha1.hexdigest u')
  ∧ (thumb_key u t = thumb_key u' t ↔ Sha1.hexdigest u = Sha1.hexdigest u')
  ∧ image_key "" = "full/da39a3ee5e6b4b0d3255bfef95601890afd80709.jpg"
  ∧ image_key "abc" = "full/a9993e364706816aba3e25717850c26c9cd0d89d.jpg"
  ∧ thumb_key "abcdbcdecdefdefgefghfghighijhijkijkljklmklmnlmnomnopnopq" "small"
    = "thumbs/small/84983e441c3bd26ebaae4aa1f95129e5e54670f1.jpg"
  ∧ NoDup Scenario.urls
  ∧ NoDup (map image_key Scenario.urls)
  ∧ NoDup (map (λ url, thumb_key url t) Scenario.urls).
Proof.
  assert (Hurls : NoDup Scenario.urls).
  { apply (bool_decide_eq_true_1 (NoDup Scenario.urls)). vm_refl. }
  assert (Hkeys : ∀ key : string → string,
            (∀ a b, key a = key b → Sha1.hexdigest a = Sha1.hexdigest b) →
            NoDup (map key Scenario.urls)).
  { intros key Hkey. pose proof NoDup_hexdigest_urls as Hnd. revert Hnd.
    generalize Scenario.urls. intros l.
    induction l as [|a l IH]; simpl; [constructor|].
    rewrite !NoDup_cons. intros [Hnotin Hnd]. split; [|by apply IH].
    change (map key l) with (key <$> l). change (map Sha1.hexdigest l)
      with (Sha1.hexdigest <$> l) in Hnotin.
    intros (b & Hab & Hb)%list_elem_of_fmap. apply Hnotin.
    apply list_elem_of_fmap. exists b. split; [by apply Hkey|done]. }
  split_and!.
  - done.
  - done.
  - apply hexdigest_length.
  - apply hexdigest_lower_hex.
  - split; [apply image_key_inj|]. unfold image_key. by intros ->.
  - split; [apply thumb_key_inj|]. unfold thumb_key. by intros ->.
  - vm_refl.
  - vm_refl.
  - vm_refl.
  - exact Hurls.
  - apply Hkeys. apply image_key_inj.
  - apply Hkeys. intros a b. apply thumb_key_inj.
Qed.

(** *** Persisting the variants *)

Lemma key_path_jpg basedir (key : string) h :
  Py.startswith key "/" = false → (∃ d, key = d +:+ "/" +:+ h +:+ ".jpg") →
  ∃ d, FS_get_filesystem_path basedir key = d +:+ "/" +:+ h +:+ ".jpg".
Proof.
  intros Hrel [d ->]. unfold FS_get_filesystem_path.
  destruct (path_join_relative basedir _ Hrel) as (pre & -> & _).
  exists (pre +:+ d). by rewrite str_app_assoc.
Qed.

Lemma image_key_path basedir url :
  ∃ d, FS_get_filesystem_path basedir (image_key url)
       = d +:+ "/" +:+ Sha1.hexdigest url +:+ ".jpg".
Proof. apply key_path_jpg; [done|]. by exists "full". Qed.

Lemma image_key_path_ext basedir url :
  (os.path_splitext (FS_get_filesystem_path basedir (image_key url))).2 = ".jpg".
Proof.
  destruct (image_key_path basedir url) as [d ->].
  apply splitext_jpg;
    auto using hexdigest_nonempty, hexdigest_no_sep, hexdigest_no_dot.
Qed.

(** **** The entries that the paths of the store name *)

Lemma startswith_nil (s : string) : Py.startswith s "" = true.
Proof. by destruct s. Qed.

Lemma start_app cw (a x : string) : a ≠ "" → os.start cw (a +:+ x) = os.start cw a.
Proof.
  destruct a as [|c a]; [done|]. intros _. unfold os.start. rewrite str_app_cons.
  simpl. destruct (decide (c = "/"%char)); [|done]. by rewrite !startswith_nil.
Qed.

Lemma endswith_char_app c (a : string) :
  Py.endswith_char a c = true → ∃ a', a = a' +:+ String c "".
Proof.
  induction a as [|x a IH]; [done|]. destruct a as [|y a].
  - simpl. intros ->%bool_decide_eq_true. by exists "".
  - intros H. change (Py.endswith_char (String y a) c = true) in H.
    destruct (IH H) as [a' ->]. by exists (String x a').
Qed.

(** The paths of the store go through the base directory: what a key adds
    is added from there. *)
Lemma path_join_names cw basedir :
  ∃ base, ∀ key, Py.startswith key "/" = false →
    os.lex_key cw (FS_get_filesystem_path basedir key)
    = foldl os.step base (Py.split_char os.sep key).
Proof.
  unfold FS_get_filesystem_path, os.path_join, os.lex_key.
  destruct (decide (basedir = "")) as [->|Hne].
  { exists cw. intros key Hrel. rewrite Hrel.
    rewrite (bool_decide_eq_true_2 ("" = "")) by done. rewrite orb_true_l.
    change ("" +:+ key) with key. unfold os.start. by rewrite Hrel. }
  rewrite (bool_decide_eq_false_2 (basedir = "")) by done. simpl.
  destruct (Py.endswith_char basedir os.sep) eqn:Hend.
  - destruct (endswith_char_app _ _ Hend) as [a' Ha].
    exists (foldl os.step (os.start cw basedir) (Py.split_char os.sep a')).
    intros key Hrel. rewrite Hrel, start_app by done.
    rewrite Ha at 2. rewrite str_app_assoc.
    change (String os.sep "" +:+ key) with (String os.sep key).
    by rewrite split_char_app_sep, foldl_app.
  - exists (foldl os.step (os.start cw basedir) (Py.split_char os.sep basedir)).
    intros key Hrel. rewrite Hrel, start_app by done.
    change ("/" +:+ key) with (String os.sep key).
    by rewrite split_char_app_sep, foldl_app.
Qed.

Lemma hexjpg_no_sep url : no_sep (Sha1.hexdigest url +:+ ".jpg").
Proof. unfold no_sep. by rewrite contains_app, hexdigest_no_sep. Qed.

Lemma hexjpg_plain url : plain_name (Sha1.hexdigest url +:+ ".jpg").
Proof.
  split; [apply hexjpg_no_sep|].
  assert (Hlen : String.length (Sha1.hexdigest url +:+ ".jpg") = 44).
  { by rewrite str_length_app, hexdigest_length. }
  split_and!; intros H; by rewrite H in Hlen.
Qed.

Lemma image_key_names url :
  Py.split_char os.sep (image_key url) = ["full"; Sha1.hexdigest url +:+ ".jpg"].
Proof.
  unfold image_key.
  change ("full/" +:+ Sha1.hexdigest url +:+ ".jpg")
    with ("full" +:+ String os.sep (Sha1.hexdigest url +:+ ".jpg")).
  rewrite split_char_app_sep. by rewrite (split_char_plain _ _ (hexjpg_no_sep url)).
Qed.

Lemma thumb_key_names url thumb_id :
  no_sep thumb_id →
  Py.split_char os.sep (thumb_key url thumb_id)
  = ["thumbs"; thumb_id; Sha1.hexdigest url +:+ ".jpg"].
Proof.
  intros Hid. unfold thumb_key.
  change ("thumbs/" +:+ thumb_id +:+ "/" +:+ Sha1.hexdigest url +:+ ".jpg")
    with ("thumbs" +:+ String os.sep
            (thumb_id +:+ String os.sep (Sha1.hexdigest url +:+ ".jpg"))).
  rewrite !split_char_app_sep.
  by rewrite (split_char_plain _ _ (hexjpg_no_sep url)), (split_char_plain _ _ Hid).
Qed.

(** The entries of the primary image and of a thumbnail whose name has no
    separator, from the base directory. *)
Lemma variant_lex_keys cw basedir url :
  ∃ base,
    os.lex_key cw (FS_get_filesystem_path basedir (image_key url))
    = base ++ ["full"; Sha1.hexdigest url +:+ ".jpg"]
    ∧ ∀ thumb_id, no_sep thumb_id →
        os.lex_key cw (FS_get_filesystem_path basedir (thumb_key url thumb_id))
        = os.step (base ++ ["thumbs"]) thumb_id ++ [Sha1.hexdigest url +:+ ".jpg"].
Proof.
  destruct (path_join_names cw basedir) as [base Hbase]. exists base.
  destruct (hexjpg_plain url) as (_ & H1 & H2 & H3). split.
  - rewrite Hbase, image_key_names by done. simpl.
    rewrite !step_plain by done. by rewrite <- (assoc_L (++)).
  - intros thumb_id Hid. rewrite Hbase, thumb_key_names by done. simpl.
    rewrite (step_plain base "thumbs") by done. by rewrite (step_plain _ _ H1 H2 H3).
Qed.

(** A thumbnail whose name has no separator is never stored in the entry of
    the primary image. *)
Lemma thumb_path_not_image_path cw basedir url thumb_id :
  no_sep thumb_id →
  os.lex_key cw (FS_get_filesystem_path basedir (image_key url))
  ≠ os.lex_key cw (FS_get_filesystem_path basedir (thumb_key url thumb_id)).
Proof.
  intros Hid. destruct (variant_lex_keys cw basedir url) as (base & -> & Hthumb).
  rewrite (Hthumb _ Hid). unfold os.step.
  destruct (bool_decide (thumb_id = "") || bool_decide (thumb_id = ".")).
  { rewrite <- (assoc_L (++)). intros H%(inj (app base)). discriminate H. }
  destruct (bool_decide (thumb_id = "..")).
  { rewrite removelast_last. intros H%(inj (app base)). discriminate H. }
  rewrite <- !(assoc_L (++)). intros H%(inj (app base)). discriminate H.
Qed.

Lemma get_thumbs_keys url im thumbs items ended :
  get_thumbs url im thumbs = (items, ended) →
  Forall (λ item, ∃ thumb, thumb ∈ thumbs ∧ item.1.1 = thumb_key url thumb.1) items.
Proof.
  revert items ended. induction thumbs as [|[thumb_id size] thumbs IH];
    intros items ended; simpl.
  - intros [= <- _]. constructor.
  - destruct (convert_image im size) as [e|[timg tbuf]]; [intros [= <- _]; constructor|].
    destruct (get_thumbs url im thumbs) as [items' e'] eqn:E.
    intros [= <- _]. constructor.
    + exists (thumb_id, size). split; [apply list_elem_of_here|done].
    + eapply Forall_impl; [by eapply IH|].
      intros item (thumb & Hin & ->). exists thumb. split; [|done].
      by apply list_elem_of_further.
Qed.

(** **** What [image.save] does to the file system *)

Lemma open_wb_inl p s e s' : os.open_wb p s = (inl e, s') → s' = s.
Proof.
  unfold os.open_wb, bind, get_state, raise, modify, ret. simpl.
  intros H. repeat case_match; simplify_eq; done.
Qed.

Lemma add_entry_twice k n n' f :
  os.add_entry k n' (os.add_entry k n f) = os.add_entry k n' f.
Proof. unfold os.add_entry. simpl. by rewrite insert_insert_eq. Qed.

(** Either [image.save(p)] leaves the file system as it is, or it puts a
    file in the entry that [p] names, which was no directory. *)
Lemma Image_save_file_fs im p s r s' :
  Image_save_file im p s = (r, s') →
  (fs s' = fs s ∧ ∃ e, r = inl e)
  ∨ ∃ d c data,
      os.parent_of (fs s) p = inr (d, c) ∧ p ≠ ""
      ∧ d ++ [c] = os.lex_key (cwd (fs s)) p
      ∧ (∀ m, tree (fs s) !! (d ++ [c]) ≠ Some (Dir m))
      ∧ fs s' = os.add_entry (d ++ [c]) (File (clock s) data) (fs s)
      ∧ (r = inr tt →
         ∃ format, EXTENSION !! Py.lower (os.path_splitext p).2 = Some format
                   ∧ Image_encode format im = inr data).
Proof.
  unfold Image_save_file. intros Hrun.
  apply bind_inv in Hrun as [(e & Hemit & _)|([] & s1 & Hemit & Hrun)]; [done|].
  injection Hemit as <-.
  destruct (EXTENSION !! _) as [format|] eqn:Hext;
    [|left; injection Hrun as <- <-; split; [done|by eexists]].
  apply bind_inv in Hrun as [(e & Hopen & ->)|(k & s2 & Hopen & Hrun)].
  { left. rewrite (open_wb_inl _ _ _ _ Hopen). split; [done|by eexists]. }
  apply open_wb_inr in Hopen as (d & c & Hparent & Hp & -> & Hlex & Hdir & ->).
  right. exists d, c.
  destruct (Image_encode format im) as [err|data] eqn:Henc.
  - exists "". injection Hrun as <- <-. split_and!; try done.
  - exists data. unfold os.write_file, bind, get_state, modify in Hrun.
    injection Hrun as <- <-. split_and!; try done.
    + simpl. by rewrite add_entry_twice.
    + intros _. by exists format.
Qed.

Lemma add_entry_search k n f d :
  (∀ m, tree f !! k ≠ Some (Dir m)) →
  os.search (tree f) d = None → os.search (tree (os.add_entry k n f)) d = None.
Proof.
  intros Hk. unfold os.search, os.entry. destruct d as [|x d]; [done|]. simpl.
  destruct (decide (k = x :: d)) as [->|Hne].
  - destruct (tree f !! (x :: d)) as [[|m]|] eqn:E; try done. by destruct (Hk m).
  - by rewrite lookup_insert_ne.
Qed.

Lemma keeps_entry_Image_save_file cw k im p :
  k ≠ os.lex_key cw p → within (keeps_entry cw k) (Image_save_file im p).
Proof.
  intros Hk s r s' Hrun Hc.
  apply Image_save_file_fs in Hrun
    as [[-> _]|(d & c & data & _ & _ & Hlex & Hdir & -> & _)]; [done|].
  rewrite Hc in Hlex. split_and!; [done| |].
  - intros d0. by apply add_entry_search.
  - intros n Hn. simpl. rewrite lookup_insert_ne; [done|]. congruence.
Qed.

Lemma keeps_entry_FS_persist_image cw k basedir key im buf info :
  k ≠ os.lex_key cw (FS_get_filesystem_path basedir key) →
  within (keeps_entry cw k) (FS_persist_image basedir key im buf info).
Proof.
  intros Hk. unfold FS_persist_image.
  wbind; [apply keeps_entry_FS_mkdir|]. intros _.
  by apply keeps_entry_Image_save_file.
Qed.

Lemma keeps_entry_persist_images cw k self basedir info items first_buf :
  pipeline_store self = FSImagesStore basedir →
  Forall (λ item, k ≠ os.lex_key cw (FS_get_filesystem_path basedir item.1.1)) items →
  within (keeps_entry cw k) (persist_images self info items first_buf).
Proof.
  intros Hstore Hitems. revert first_buf.
  induction Hitems as [|[[key im] buf] items Hk _ IH]; intros first_buf; simpl.
  - wret.
  - wbind; [|intros b; apply IH].
    rewrite Hstore. simpl. wbind; [|intros _; wret].
    by apply keeps_entry_FS_persist_image.
Qed.

(** The entry that was made is found under the path it was made by. *)
Lemma resolve_add_entry f p d c n :
  os.parent_of f p = inr (d, c) → p ≠ "" →
  d ++ [c] = os.lex_key (cwd f) p →
  (∀ m, tree f !! (d ++ [c]) ≠ Some (Dir m)) →
  os.resolve (os.add_entry (d ++ [c]) n f) p = inr (d ++ [c])
  ∧ os.entry (tree (os.add_entry (d ++ [c]) n f)) (d ++ [c]) = Some n.
Proof.
  intros Hparent Hp Hlex Hdir.
  destruct (parent_of_lex_key _ _ _ _ Hparent) as (Hwalk & Hsearch & Hc & Hstep).
  split.
  - unfold os.resolve. rewrite (bool_decide_eq_false_2 (p = "")) by done.
    rewrite (split_char_last os.sep p), walk_app. simpl cwd.
    rewrite (walk_mono _ _ _ _ _ (λ d0, add_entry_search _ n f d0 Hdir) Hwalk).
    cbn [os.walk]. rewrite (add_entry_search _ n f d Hdir Hsearch).
    by rewrite <- Hc, <- Hstep, <- Hlex.
  - unfold os.entry. simpl. rewrite lookup_insert_eq. by destruct d.
Qed.

(** What [image.save(filename)] leaves when it returns. *)
Lemma Image_save_file_inr im p s s' :
  Image_save_file im p s = (inr tt, s') →
  ∃ format data,
    EXTENSION !! Py.lower (os.path_splitext p).2 = Some format
    ∧ Image_encode format im = inr data
    ∧ os.resolve (fs s') p = inr (os.lex_key (cwd (fs s)) p)
    ∧ os.entry (tree (fs s')) (os.lex_key (cwd (fs s)) p)
      = Some (File (clock s) data)
    ∧ cwd (fs s') = cwd (fs s).
Proof.
  intros Hrun.
  apply Image_save_file_fs in Hrun
    as [[_ [e He]]|(d & c & data & Hparent & Hp & Hlex & Hdir & Hfs & Hok)]; [done|].
  destruct (Hok eq_refl) as (format & Hext & Henc).
  exists format, data. rewrite Hfs, <- Hlex.
  destruct (resolve_add_entry _ _ _ _ (File (clock s) data) Hparent Hp Hlex Hdir)
    as [Hres Hent].
  by split_and!.
Qed.

Lemma persist_images_first_buf self info items b s r s' :
  persist_images self info items (Some b) s = (inr r, s') → r = Some b.
Proof.
  revert s. induction items as [|[[key im] buf] items IH]; intros s; simpl.
  - by intros [= <- _].
  - intros (b' & s1 & _ & H)%bind_inr. by eapply IH.
Qed.

Lemma convert_image_encoded im size im' buf :
  convert_image im size = inr (im', buf) →
  Image_encode "JPEG" im' = inr (getvalue buf) ∧ tell buf = String.length (getvalue buf).
Proof.
  unfold convert_image.
  destruct (if negb _ then _ else _) as [err|im0]; [done|].
  destruct (match size with Some _ => _ | None => _ end) as [err|im1]; [done|].
  destruct (Image_encode "JPEG" im1) as [err|data] eqn:E; [done|].
  intros [= <- <-]. by rewrite E.
Qed.

Lemma try_except_reraise_inr {A} (m : M A) (h : exn → M unit) s a s' :
  try_except m (λ ex, h ex;; raise ex) s = (inr a, s') → m s = (inr a, s').
Proof.
  unfold try_except. destruct (m s) as [[e|a'] s1]; [|done].
  intros (? & ? & _ & ?)%bind_inr. done.
Qed.

(** What is kept is found under the path that named it. *)
Lemma keeps_entry_node_at cw k s s' p n :
  keeps_entry cw k s s' → cwd (fs s) = cw →
  os.resolve (fs s) p = inr k → os.entry (tree (fs s)) k = Some n →
  os.node_at (fs s') p = Some n.
Proof.
  intros Hkeep Hc Hres Hent. destruct (Hkeep Hc) as (Hc' & Hdirs & Hk).
  unfold os.node_at. assert (os.resolve (fs s') p = inr k) as ->.
  { revert Hres. unfold os.resolve. destruct (bool_decide _); [done|].
    rewrite Hc', Hc. by apply walk_mono. }
  revert Hent. unfold os.entry. destruct k; [done|]. apply Hk.
Qed.

Lemma node_at_resolve f p n :
  os.node_at f p = Some n ↔ ∃ k, os.resolve f p = inr k ∧ os.entry (tree f) k = Some n.
Proof.
  unfold os.node_at. destruct (os.resolve f p) as [e|k]; split.
  - done.
  - by intros (k & ? & _).
  - intros H. by exists k.
  - by intros (k' & [= <-] & H).
Qed.

(** [stat_image] on a stored file: its time of modification and the digest
    of its contents; the state is not changed. *)
Lemma FS_stat_image_file basedir key info s t data :
  os.node_at (fs s) (FS_get_filesystem_path basedir key) = Some (File t data) →
  FS_stat_image basedir key info s
  = (inr {[ "last_modified" := VNum t; "checksum" := VStr (md5_hexdigest data) ]}, s).
Proof.
  intros (k & Hres & Hent)%node_at_resolve.
  unfold FS_stat_image, try_except, os.path_getmtime, os.read_file,
    bind, get_state, ret. simpl. rewrite Hres, Hent. simpl. by rewrite Hres, Hent.
Qed.

(** The buffer that [persist_image] leaves holds what it held. *)
Lemma store_persist_image_getvalue st key im buf info s buf1 s1 :
  store_persist_image st key im buf info s = (inr buf1, s1) →
  getvalue buf1 = getvalue buf.
Proof.
  destruct st as [basedir|bucket prefix s3_spider]; simpl; intros Hrun.
  - apply bind_inr in Hrun as ([] & s2 & _ & Hret). by injection Hret as <- _.
  - apply bind_inr in Hrun as ([dfd b] & s2 & Hput & Hret). injection Hret as <- _.
    unfold S3_persist_image in Hput. destruct (im_size im) as [width height].
    simpl in Hput. apply bind_inr in Hput as (dfd' & s3 & _ & Hret).
    by injection Hret as _ <- _.
Qed.

Global Instance keeps_event_preorder e : PreOrder (keeps_event e).
Proof. split; [by intros s H|]. intros s1 s2 s3 H1 H2 H. by apply H2, H1. Qed.

Lemma keeps_event_emit e e' : within (keeps_event e) (emit e').
Proof. wmodify. intros s H. simpl. apply elem_of_app. by left. Qed.

Lemma keeps_event_S3_download_request e s3_spider request info :
  within (keeps_event e) (S3_download_request s3_spider request info).
Proof.
  unfold S3_download_request, scrapyengine_schedule, scrapyengine_download.
  destruct s3_spider; (wbind; [apply keeps_event_emit|intros _; wret]).
Qed.

Lemma keeps_event_persist_images_S3 e self bucket prefix s3_spider info items first_buf :
  pipeline_store self = S3ImagesStore bucket prefix s3_spider →
  within (keeps_event e) (persist_images self info items first_buf).
Proof.
  intros Hstore. revert first_buf.
  induction items as [|[[key im] buf] items IH]; intros first_buf; simpl; [wret|].
  wbind; [|intros b; apply IH]. rewrite Hstore. simpl.
  wbind; [|intros ?; wret]. unfold S3_persist_image.
  destruct (im_size im) as [width height]. simpl.
  wbind; [apply keeps_event_S3_download_request|intros ?; wret].
Qed.

Lemma S3_persist_image_event bucket prefix s3_spider key im buf info s r s1 :
  tell buf = String.length (getvalue buf) →
  S3_persist_image bucket prefix s3_spider key im buf info s = (r, s1) →
  S3_put_event bucket prefix s3_spider key im (getvalue buf) info ∈ events s1.
Proof.
  intros Htell. unfold S3_persist_image, S3_put_event, S3_put_headers.
  destruct (im_size im) as [width height]. simpl.
  unfold S3_download_request, scrapyengine_schedule, scrapyengine_download.
  destruct s3_spider as [spider|]; simpl; intros [= _ <-]; simpl;
    apply elem_of_app; right; by apply list_elem_of_singleton.
Qed.

(** What a successful [media_downloaded] has done: the response was decoded
    and converted, the primary image handed to the store, then the
    thumbnails; the checksum is the digest of the primary buffer. *)
Lemma media_downloaded_inr self response request info s r s' :
  media_downloaded self response request info s = (inr r, s') →
  ∃ orig im buf thumbs s1 buf1 s2 first_buf,
    Image_open (resp_body response) = inr orig
    ∧ convert_image orig None = inr (im, buf)
    ∧ get_thumbs (req_url request) im (THUMBS self) = (thumbs, None)
    ∧ store_persist_image (pipeline_store self) (image_key (req_url request))
        im buf info s1 = (inr buf1, s2)
    ∧ persist_images self info thumbs (Some buf1) s2 = (inr first_buf, s')
    ∧ r = {[ "url" := VStr (req_url request);
             "path" := VStr (image_key (req_url request));
             "checksum" := VStr (md5_hexdigest (getvalue buf)) ]}.
Proof.
  intros Hrun. unfold media_downloaded in Hrun.
  destruct (negb (bool_decide (resp_status response = 200%Z))).
  { by apply bind_inr in Hrun as (? & ? & _ & ?). }
  destruct (bool_decide (resp_body response = "")).
  { by apply bind_inr in Hrun as (? & ? & _ & ?). }
  apply bind_inr in Hrun as ([] & s1 & _ & Hrun).
  apply bind_inr in Hrun as ([] & s2 & _ & Hrun).
  apply bind_inr in Hrun as ([key checksum] & s3 & Htry & Hret).
  injection Hret as <- <-.
  apply try_except_reraise_inr in Htry.
  apply bind_inr in Htry as (c & s4 & Himg & Hret). injection Hret as <- <- <-.
  unfold image_downloaded, get_images in Himg.
  destruct (Image_open (resp_body response)) as [err|orig] eqn:Hopen.
  { by apply bind_inr in Himg as (? & ? & _ & ?). }
  destruct (im_size orig) as [width height].
  destruct (_ || _).
  { by apply bind_inr in Himg as (? & ? & _ & ?). }
  destruct (convert_image orig None) as [e|[im buf]] eqn:Hconv.
  { by apply bind_inr in Himg as (? & ? & _ & ?). }
  destruct (get_thumbs (req_url request) im (THUMBS self)) as [items ended] eqn:Hthumbs.
  apply bind_inr in Himg as (first_buf & s5 & Hpersist & Hret).
  destruct ended as [e|]; [done|].
  simpl in Hpersist.
  apply bind_inr in Hpersist as (buf1 & s6 & Hfirst & Hrest).
  apply persist_images_first_buf in Hrest as Hfb. subst first_buf.
  injection Hret as <- <-.
  apply store_persist_image_getvalue in Hfirst as Hval.
  exists orig, im, buf, items, s2, buf1, s6, (Some buf1).
  split_and!; try done. unfold md5sum. simpl. by rewrite Hval.
Qed.

(** The file of the primary image after a thumbnail-safe
    [media_downloaded]: see the theorem below. *)
Lemma thumbs_keep_primary self basedir url im thumbs ended cw :
  get_thumbs url im (THUMBS self) = (thumbs, ended) →
  Forall (λ thumb, no_sep thumb.1) (THUMBS self) →
  Forall (λ item,
            os.lex_key cw (FS_get_filesystem_path basedir (image_key url))
            ≠ os.lex_key cw (FS_get_filesystem_path basedir item.1.1)) thumbs.
Proof.
  intros Hthumbs Hnames. apply get_thumbs_keys in Hthumbs.
  eapply Forall_impl; [exact Hthumbs|].
  intros item (thumb & Hin & ->). apply thumb_path_not_image_path.
  rewrite Forall_forall in Hnames. by apply Hnames.
Qed.

(** C1, amended.  When [media_downloaded] returns a result, the checksum of
    the result is the MD5 digest of the encoded bytes of the primary variant
    (the decoded response, converted and encoded as JPEG) and the path of the
    result is the primary key of the request URL.  On the file system store,
    provided that no name of a thumbnail in [THUMBS] holds a path separator,
    the file stored under that key holds exactly those bytes, and
    [stat_image] of the key then reports the same checksum.  On the remote
    store those bytes are the body of the [PUT] request for that key that
    was handed to the engine. *)
Theorem media_downloaded_checksum_matches_store
    self response request info s r s' :
  media_downloaded self response request info s = (inr r, s') →
  let key := image_key (req_url request) in
  ∃ orig im buf,
    Image_open (resp_body response) = inr orig
    ∧ convert_image orig None = inr (im, buf)
    ∧ Image_encode "JPEG" im = inr (getvalue buf)
    ∧ r !! "path" = Some (VStr key)
    ∧ r !! "checksum" = Some (VStr (md5_hexdigest (getvalue buf)))
    ∧ match pipeline_store self with
      | FSImagesStore basedir =>
          Forall (λ thumb, no_sep thumb.1) (THUMBS self) →
          ∃ t d,
            os.node_at (fs s') (FS_get_filesystem_path basedir key)
            = Some (File t (getvalue buf))
            ∧ FS_stat_image basedir key info s' = (inr d, s')
            ∧ d !! "checksum" = r !! "checksum"
      | S3ImagesStore bucket prefix s3_spider =>
          S3_put_event bucket prefix s3_spider key im (getvalue buf) info ∈ events s'
      end.
Proof.
  intros Hrun key. subst key.
  destruct (media_downloaded_inr _ _ _ _ _ _ _ Hrun)
    as (orig & im & buf & thumbs & s1 & buf1 & s2 & fb
        & Hopen & Hconv & Hthumbs & Hfirst & Hrest & ->).
  apply convert_image_encoded in Hconv as Hbuf. destruct Hbuf as [Henc Htell].
  exists orig, im, buf. split_and!; try done.
  destruct (pipeline_store self) as [basedir|bucket prefix s3_spider] eqn:Hstore.
  - intros Hnames. simpl in Hfirst.
    apply bind_inr in Hfirst as ([] & s3 & Hfs & Hret). injection Hret as <- <-.
    apply bind_inr in Hfs as ([] & s4 & Hmkdir & Hsave).
    apply Image_save_file_inr in Hsave
      as (format & data & Hext & Henc' & Hres & Hent & Hcwd).
    rewrite image_key_path_ext in Hext.
    change (EXTENSION !! Py.lower ".jpg") with (Some "JPEG") in Hext.
    injection Hext as <-. rewrite Henc in Henc'. injection Henc' as <-.
    eapply keeps_entry_persist_images in Hrest;
      [|done|by eapply (thumbs_keep_primary self basedir _ _ _ _ (cwd (fs s4)))].
    pose proof (keeps_entry_node_at _ _ _ _ _ _ Hrest Hcwd Hres Hent) as Hnode.
    eexists _, _. split; [exact Hnode|]. split; [by apply FS_stat_image_file|done].
  - simpl in Hfirst. apply bind_inr in Hfirst as ([dfd b] & s3 & Hput & Hret).
    injection Hret as _ <-.
    apply S3_persist_image_event in Hput; [|done].
    by eapply keeps_event_persist_images_S3 in Hrest; [apply Hrest|].
Qed.

(** *** The check before a fetch *)

(** *** The arithmetic of doubles *)

Section doubles.

Import Binary64.

Lemma rne_mono x y : (x <= y)%Q → (Binary64.rne x <= Binary64.rne y)%Z.
Proof.
  intros Hle. unfold Binary64.rne.
  pose proof (Qfloor_resp_le _ _ Hle) as Hf.
  pose proof (Qfloor_le x) as Hx1. pose proof (Qlt_floor x) as Hx2.
  pose proof (Qfloor_le y) as Hy1. pose proof (Qlt_floor y) as Hy2.
  destruct (Z.eq_dec (Qfloor x) (Qfloor y)) as [Heq|Hne].
  - rewrite <- Heq in *.
    destruct (Qcompare_spec (x - inject_Z (Qfloor x)) (1 # 2)) as [Hx|Hx|Hx];
    destruct (Qcompare_spec (y - inject_Z (Qfloor x)) (1 # 2)) as [Hy|Hy|Hy];
    try (destruct (Z.even (Qfloor x))); try lia.
    all: exfalso; lra.
  - assert (Qfloor x + 1 <= Qfloor y)%Z by lia.
    repeat case_match; lia.
Qed.

Lemma rne_inject_Z z : rne (inject_Z z) = z.
Proof.
  unfold rne. rewrite Qfloor_Z.
  destruct (Qcompare_spec (inject_Z z - inject_Z z) (1 # 2)) as [H|H|H].
  - exfalso. lra.
  - done.
  - exfalso. lra.
Qed.

Lemma two_neq_0 : ¬ (2 == 0)%Q.
Proof. intros H. discriminate H. Qed.

Lemma pow2_pos e : (0 < 2 ^ e)%Q.
Proof. by apply Qpower_0_lt. Qed.

Lemma pow2_le (a b : Z) : (a <= b)%Z → (2 ^ a <= 2 ^ b)%Q.
Proof. intros H. by apply Qpower_le_compat_l. Qed.

Lemma pow2_inject (a : Z) : (0 <= a)%Z → (inject_Z (2 ^ a) == 2 ^ a)%Q.
Proof. intros H. by rewrite Zpower_Qpower. Qed.

Lemma pow2_quot (a b : Z) :
  (0 <= a)%Z → (0 <= b)%Z → (2 ^ (a - b) == (2 ^ a)%Z # Z.to_pos (2 ^ b))%Q.
Proof.
  intros Ha Hb. rewrite Qpower_minus by apply two_neq_0.
  rewrite <- !pow2_inject by done.
  rewrite <- (Z2Pos.id (2 ^ b)) at 1 by lia. symmetry. apply Qmake_Qdiv.
Qed.

Lemma ilog2_spec q : (0 < q)%Q → (2 ^ ilog2 q <= q)%Q ∧ (q < 2 ^ (ilog2 q + 1))%Q.
Proof.
  destruct q as [n d]. intros Hq.
  assert (Hn : (0 < n)%Z) by (revert Hq; unfold Qlt; simpl; lia).
  unfold ilog2. simpl Qnum. simpl Qden.
  pose proof (Z.log2_spec n Hn) as [Hn1 Hn2].
  pose proof (Z.log2_spec (Z.pos d) (Pos2Z.is_pos d)) as [Hd1 Hd2].
  pose proof (Z.log2_nonneg n) as Ha. pose proof (Z.log2_nonneg (Z.pos d)) as Hb.
  set (a := Z.log2 n) in *. set (b := Z.log2 (Z.pos d)) in *.
  assert (Hlow : (2 ^ (a - b - 1) <= n # d)%Q).
  { replace (a - b - 1)%Z with (a - (b + 1))%Z by lia.
    rewrite pow2_quot by lia. unfold Qle. simpl.
    rewrite Z2Pos.id by lia. nia. }
  assert (Hhigh : (n # d < 2 ^ (a - b + 1))%Q).
  { replace (a - b + 1)%Z with (a + 1 - b)%Z by lia.
    rewrite pow2_quot by lia. unfold Qlt. simpl.
    rewrite Z2Pos.id by lia. nia. }
  destruct (Qle_bool (2 ^ (a - b)) (n # d)) eqn:Hk.
  - apply Qle_bool_iff in Hk. done.
  - split; [done|]. replace (a - b - 1 + 1)%Z with (a - b)%Z by lia.
    apply Qnot_le_lt. intros H. apply Qle_bool_iff in H. congruence.
Qed.

Lemma exponent_upper q : (0 < q)%Q → (q < 2 ^ (exponent q + prec))%Q.
Proof.
  intros Hq. destruct (ilog2_spec q Hq) as [_ H].
  eapply Qlt_le_trans; [exact H|]. apply pow2_le. unfold exponent, prec. lia.
Qed.

Lemma exponent_lower q :
  (0 < q)%Q → exponent q ≠ emin → (2 ^ (exponent q + (prec - 1)) <= q)%Q.
Proof.
  intros Hq He. destruct (ilog2_spec q Hq) as [H _].
  eapply Qle_trans; [|exact H]. apply pow2_le. unfold exponent, prec in *. lia.
Qed.

Lemma exponent_min q : (emin <= exponent q)%Z.
Proof. unfold exponent. lia. Qed.

Lemma exponent_mono x y : (0 < x)%Q → (x <= y)%Q → (exponent x <= exponent y)%Z.
Proof.
  intros Hx Hle. assert (Hy : (0 < y)%Q) by (by eapply Qlt_le_trans).
  destruct (Z.le_gt_cases (exponent x) (exponent y)) as [|Hgt]; [done|].
  exfalso. pose proof (exponent_min y).
  assert (Hne : exponent x ≠ emin) by lia.
  pose proof (exponent_lower x Hx Hne) as H1.
  pose proof (exponent_upper y Hy) as H2.
  assert (H3 : (2 ^ (exponent x + (prec - 1)) < 2 ^ (exponent y + prec))%Q).
  { eapply Qle_lt_trans; [exact H1|]. by eapply Qle_lt_trans. }
  apply Qpower_lt_compat_l_inv in H3; [|done]. unfold prec in H3. lia.
Qed.

Lemma scaled_le x y e : (x <= y)%Q → (x / 2 ^ e <= y / 2 ^ e)%Q.
Proof.
  intros H. unfold Qdiv. apply Qmult_le_compat_r; [done|].
  apply Qlt_le_weak, Qinv_lt_0_compat, pow2_pos.
Qed.

Lemma round_pos_nonneg q : (0 < q)%Q → (0 <= round_pos q)%Q.
Proof.
  intros Hq. unfold round_pos. apply Qmult_le_0_compat; [|apply Qlt_le_weak, pow2_pos].
  change 0%Q with (inject_Z 0). rewrite <- Zle_Qle.
  rewrite <- (rne_inject_Z 0). apply rne_mono.
  apply Qle_shift_div_l; [apply pow2_pos|]. rewrite Qmult_0_l. by apply Qlt_le_weak.
Qed.

Lemma round_pos_upper q : (0 < q)%Q → (round_pos q <= 2 ^ (exponent q + prec))%Q.
Proof.
  intros Hq. unfold round_pos.
  replace (exponent q + prec)%Z with (prec + exponent q)%Z by lia.
  rewrite (Qpower_plus 2 prec) by apply two_neq_0.
  apply Qmult_le_compat_r; [|apply Qlt_le_weak, pow2_pos].
  rewrite <- (pow2_inject prec) by done. rewrite <- Zle_Qle.
  rewrite <- (rne_inject_Z (2 ^ prec)). apply rne_mono.
  rewrite (pow2_inject prec) by done.
  apply Qle_shift_div_r; [apply pow2_pos|].
  rewrite <- Qpower_plus by apply two_neq_0.
  apply Qlt_le_weak. replace (prec + exponent q)%Z with (exponent q + prec)%Z by lia.
  by apply exponent_upper.
Qed.

Lemma round_pos_lower q :
  (0 < q)%Q → exponent q ≠ emin → (2 ^ (exponent q + (prec - 1)) <= round_pos q)%Q.
Proof.
  intros Hq He. unfold round_pos.
  replace (exponent q + (prec - 1))%Z with (prec - 1 + exponent q)%Z by lia.
  rewrite (Qpower_plus 2 (prec - 1)) by apply two_neq_0.
  apply Qmult_le_compat_r; [|apply Qlt_le_weak, pow2_pos].
  rewrite <- (pow2_inject (prec - 1)) by done. rewrite <- Zle_Qle.
  rewrite <- (rne_inject_Z (2 ^ (prec - 1))) at 1. apply rne_mono.
  rewrite (pow2_inject (prec - 1)) by done.
  apply Qle_shift_div_l; [apply pow2_pos|].
  rewrite <- Qpower_plus by apply two_neq_0.
  replace (prec - 1 + exponent q)%Z with (exponent q + (prec - 1))%Z by lia.
  by apply exponent_lower.
Qed.

Lemma round_pos_mono x y : (0 < x)%Q → (x <= y)%Q → (round_pos x <= round_pos y)%Q.
Proof.
  intros Hx Hle. assert (Hy : (0 < y)%Q) by (by eapply Qlt_le_trans).
  pose proof (exponent_mono x y Hx Hle) as He.
  destruct (Z.eq_dec (exponent x) (exponent y)) as [Heq|Hne].
  - unfold round_pos. rewrite Heq.
    apply Qmult_le_compat_r; [|apply Qlt_le_weak, pow2_pos].
    rewrite <- Zle_Qle. apply rne_mono. by apply scaled_le.
  - pose proof (exponent_min x).
    eapply Qle_trans; [by apply round_pos_upper|].
    eapply Qle_trans; [|apply round_pos_lower; [done|lia]].
    apply pow2_le. unfold prec. lia.
Qed.

(** Rounding keeps the order. *)
Lemma round_mono x y : (x <= y)%Q → (round x <= round y)%Q.
Proof.
  intros Hle. unfold round.
  destruct (Qcompare_spec x 0) as [Hx|Hx|Hx];
    destruct (Qcompare_spec y 0) as [Hy|Hy|Hy]; try (exfalso; lra).
  - apply Qle_refl.
  - by apply round_pos_nonneg.
  - assert (0 <= round_pos (- x))%Q by (apply round_pos_nonneg; lra). lra.
  - assert (round_pos (- y) <= round_pos (- x))%Q by (apply round_pos_mono; lra). lra.
  - assert (0 <= round_pos (- x))%Q by (apply round_pos_nonneg; lra).
    assert (0 <= round_pos y)%Q by (by apply round_pos_nonneg). lra.
  - by apply round_pos_mono.
Qed.

Lemma overflow_mono x y : (x <= y)%Q → float_le (overflow x) (overflow y).
Proof.
  intros Hle. unfold overflow.
  pose proof (pow2_pos emax) as Hpos.
  destruct (Qle_bool (2 ^ emax) x) eqn:Hx1.
  { apply Qle_bool_iff in Hx1.
    assert (Qle_bool (2 ^ emax) y = true) as -> by (apply Qle_bool_iff; lra). done. }
  destruct (Qle_bool x (- 2 ^ emax)) eqn:Hx2; [done|].
  destruct (Qle_bool (2 ^ emax) y) eqn:Hy1; [done|].
  destruct (Qle_bool y (- 2 ^ emax)) eqn:Hy2; [|done].
  apply Qle_bool_iff in Hy2.
  assert (Qle_bool x (- 2 ^ emax) = true) by (apply Qle_bool_iff; lra). congruence.
Qed.

(** The operations that the age goes through keep the order. *)
Lemma float_sub_mono x x' y : (x' <= x)%Q → float_le (float_sub x' y) (float_sub x y).
Proof.
  intros Hle. unfold float_sub. apply overflow_mono, round_mono.
  apply round_mono in Hle. lra.
Qed.

Lemma float_div_mono x x' n : float_le x' x → float_le (float_div x' n) (float_div x n).
Proof.
  destruct x' as [a|[]], x as [b|[]]; simpl; try done;
    try (intros _; by destruct (overflow _) as [?|[]]).
  intros Hle. apply overflow_mono, round_mono.
  unfold Qdiv. apply Qmult_le_compat_r; [done|].
  apply Qlt_le_weak, Qinv_lt_0_compat. done.
Qed.

Lemma float_gt_mono x x' n :
  float_le x' x → float_gt x n = false → float_gt x' n = false.
Proof.
  destruct x' as [a|[]], x as [b|[]]; simpl; try done.
  rewrite !negb_false_iff, !Qle_bool_iff. intros H1 H2. lra.
Qed.

End doubles.

Lemma Qgt_bool_true (x y : Q) : Qgt_bool x y = true ↔ (y < x)%Q.
Proof.
  unfold Qgt_bool. rewrite negb_true_iff. split.
  - intros H. apply Qnot_le_lt. intros Hle. apply Qle_bool_iff in Hle. congruence.
  - intros H. destruct (Qle_bool x y) eqn:E; [|done].
    apply Qle_bool_iff in E. by apply Qle_not_lt in E.
Qed.

Lemma Qgt_bool_false (x y : Q) : Qgt_bool x y = false ↔ (x <= y)%Q.
Proof. unfold Qgt_bool. rewrite negb_false_iff. apply Qle_bool_iff. Qed.

Lemma truthy_num (q : Q) : truthy (VNum q) = false ↔ (q == 0)%Q.
Proof. simpl. rewrite negb_false_iff. apply Qeq_bool_iff. Qed.

(** [maybeDeferred] of [stat_image] never raises: it returns a deferred. *)
Lemma store_stat_image_deferred st key info s :
  ∃ dfd s1, store_stat_image st key info s = (inr dfd, s1).
Proof.
  destruct st as [basedir|bucket prefix s3_spider]; simpl.
  - unfold maybeDeferred. destruct (bind _ _ s) as [r s1]. by eexists _, _.
  - destruct (S3_stat_image _ _ _ _ _ s) as [[e|dfd] s1]; by eexists _, _.
Qed.

(** [media_to_download] in terms of the deferred of [stat_image]: a
    failure gives [None]; a result goes through [_onsuccess], and an
    exception of [_onsuccess] is logged and gives [None]. *)
Lemma media_to_download_run self request info s dfd s1 :
  store_stat_image (pipeline_store self) (image_key (req_url request)) info s
  = (inr dfd, s1) →
  media_to_download self request info s
  = match dfd with
    | inl _ => (inr (inr None), s1)
    | inr result =>
        match to_download_onsuccess self request info
                (image_key (req_url request)) result s1 with
        | (inr res, s2) => (inr (inr res), s2)
        | (inl e, s2) =>
            (inr (inr None),
             add_event (LogErr e "ImagesPipeline.store.stat_image") s2)
        end
    end.
Proof.
  intros Hstat. unfold media_to_download. rewrite (bind_run _ _ _ _ _ Hstat).
  destruct dfd as [e|result]; [done|].
  unfold addCallbacks, maybeDeferred, bind.
  by destruct (to_download_onsuccess _ _ _ _ _ s1) as [[e|res] s2].
Qed.

Lemma to_download_onsuccess_missing self request info key result s :
  match result with
  | None => True
  | Some d => d = ∅ ∨ truthy (dict_get d "last_modified") = false
  end →
  to_download_onsuccess self request info key result s = (inr None, s).
Proof.
  destruct result as [d|]; [|done]. unfold to_download_onsuccess.
  intros [->|H]; [done|]. rewrite H. simpl. by case_bool_decide.
Qed.

Lemma to_download_onsuccess_timestamp self request info key d lm s :
  d ≠ ∅ → d !! "last_modified" = Some (VNum lm) → ¬ (lm == 0)%Q →
  to_download_onsuccess self request info key (Some d) s
  = if Binary64.float_gt (age_days (clock s) lm) (EXPIRES self)
    then (inr None, s)
    else (inr (Some {[ "url" := VStr (req_url request);
                       "path" := VStr key;
                       "checksum" := dict_get d "checksum" ]}),
          add_event (StatsInc "image_status_count/uptodate" (info_domain info))
            (add_event (StatsInc "image_count" (info_domain info))
               (add_event (LogMsg (MsgUptodate (req_url request)
                                     (req_headers request !! "Referer"))
                                  DEBUG (info_domain info)) s))).
Proof.
  intros Hd Hlm Hnz. unfold to_download_onsuccess.
  rewrite bool_decide_eq_false_2 by done.
  unfold dict_get at 1 2. rewrite Hlm.
  change (default VNone (Some (VNum lm))) with (VNum lm).
  destruct (truthy (VNum lm)) eqn:Ht; [|by apply truthy_num in Ht].
  unfold bind at 1, get_state at 1. change (negb true) with false. cbv beta iota.
  unfold age_days. by destruct (Binary64.float_gt _ _).
Qed.

(** [media_to_download] always returns a deferred that fired with a
    result: it neither raises nor fails. *)
Lemma media_to_download_total self request info s :
  ∃ res s2, media_to_download self request info s = (inr (inr res), s2).
Proof.
  destruct (store_stat_image_deferred (pipeline_store self)
              (image_key (req_url request)) info s) as (dfd & s1 & Hstat).
  rewrite (media_to_download_run _ _ _ _ _ _ Hstat).
  destruct dfd as [e|result]; [by eexists _, _|].
  destruct (to_download_onsuccess _ _ _ _ _ s1) as [[e|res] s2]; by eexists _, _.
Qed.

(** C2, amended.  The decision of [media_to_download] is a function of the
    metadata that [stat_image] delivers and of the current time.  If the
    stat fails, or its result is [None] or empty, or has no last-modified
    timestamp, or has the timestamp 0, the decision is DOWNLOAD.  For a
    timestamp that is not 0, with the age in days as the code computes it,
    [(now - last_modified) / 60 / 60 / 24] in the arithmetic of doubles, the
    decision is DOWNLOAD exactly when the age is greater than the expiry
    window, and SKIP exactly when it is not, that is when it is at most the
    window: the boundary counts as up to date. *)
Theorem freshness_decision self request info s dfd s1 :
  store_stat_image (pipeline_store self) (image_key (req_url request)) info s
  = (inr dfd, s1) →
  ∃ res s2,
    media_to_download self request info s = (inr (inr res), s2)
    ∧ match dfd with
      | inl _ | inr None => decision_of res = DOWNLOAD
      | inr (Some d) =>
          match d !! "last_modified" with
          | Some (VNum last_modified) =>
              let ageDays := age_days (clock s1) last_modified in
              ((last_modified == 0)%Q → decision_of res = DOWNLOAD)
              ∧ (¬ (last_modified == 0)%Q →
                 (decision_of res = DOWNLOAD
                  ↔ Binary64.float_gt ageDays (EXPIRES self) = true)
                 ∧ (decision_of res = SKIP
                    ↔ Binary64.float_gt ageDays (EXPIRES self) = false))
          | Some VNone | None => decision_of res = DOWNLOAD
          | Some (VStr _) => decision_of res = DOWNLOAD
          end
      end.
Proof.
  intros Hstat. rewrite (media_to_download_run _ _ _ _ _ _ Hstat).
  destruct dfd as [e|[d|]]; [by eexists _, _| |by eexists _, _].
  destruct (d !! "last_modified") as [[|lm|str]|] eqn:Hlm.
  - rewrite to_download_onsuccess_missing; [by eexists _, _|].
    right. unfold dict_get. by rewrite Hlm.
  - destruct (Qeq_dec lm 0) as [Hz|Hnz].
    + rewrite to_download_onsuccess_missing.
      * eexists _, _. split; [done|]. split; [done|]. by intros [].
      * right. unfold dict_get. rewrite Hlm. by apply truthy_num.
    + assert (Hd : d ≠ ∅) by (by intros ->).
      rewrite (to_download_onsuccess_timestamp _ _ _ _ d lm) by done.
      cbv zeta. destruct (Binary64.float_gt _ _) eqn:Hgt.
      * eexists _, _. split; [done|]. split; [done|]. intros _. by split; split.
      * eexists _, _. split; [done|]. split; [by intros ?|]. intros _.
        by split; split.
  - assert (Hd : d ≠ ∅) by (by intros ->).
    unfold to_download_onsuccess. rewrite bool_decide_eq_false_2 by done.
    unfold dict_get. rewrite Hlm. simpl.
    destruct (bool_decide (str = "")); simpl; by eexists _, _.
  - rewrite to_download_onsuccess_missing; [by eexists _, _|].
    right. unfold dict_get. by rewrite Hlm.
Qed.

(** C10.  When [stat_image] reports a last-modified timestamp equal to 0,
    [media_to_download] returns [None], which forces the download, whatever
    else the metadata holds and whatever the expiry window is. *)
Theorem epoch_timestamp_forces_download self request info s d last_modified s1 :
  store_stat_image (pipeline_store self) (image_key (req_url request)) info s
  = (inr (inr (Some d)), s1) →
  d !! "last_modified" = Some (VNum last_modified) →
  (last_modified == 0)%Q →
  media_to_download self request info s = (inr (inr None), s1).
Proof.
  intros Hstat Hlm Hz. rewrite (media_to_download_run _ _ _ _ _ _ Hstat).
  rewrite to_download_onsuccess_missing; [done|].
  right. unfold dict_get. rewrite Hlm. by apply truthy_num.
Qed.

Lemma only_calls_getmtime Q p : within (only_calls Q) (os.path_getmtime p).
Proof.
  unfold os.path_getmtime. wbind; [wget|]. intros s.
  destruct (os.resolve _ _); [wraise|].
  destruct (os.entry _ _) as [[]|]; [wret|wret|wraise].
Qed.

Lemma only_calls_read_file Q p : within (only_calls Q) (os.read_file p).
Proof.
  unfold os.read_file. wbind; [wget|]. intros s.
  destruct (os.resolve _ _); [wraise|].
  destruct (os.entry _ _) as [[]|]; [wret|wraise|wraise].
Qed.

Lemma only_calls_FS_stat_image Q basedir key info :
  within (only_calls Q) (FS_stat_image basedir key info).
Proof.
  unfold FS_stat_image. wbind.
  - wtry; [|intros _; wret]. wbind; [apply only_calls_getmtime|]. intros t. wret.
  - intros [t|]; [|wret]. wbind; [apply only_calls_read_file|]. intros data. wret.
Qed.

Lemma only_calls_S3_stat_image bucket prefix s3_spider key info :
  within (only_calls is_stat_call) (S3_stat_image bucket prefix s3_spider key info).
Proof.
  unfold S3_stat_image. wbind.
  - unfold S3_download_request, scrapyengine_schedule, scrapyengine_download.
    destruct s3_spider; (wbind; [by apply only_calls_emit|intros _; wret]).
  - intros [e|response]; simpl; [wret|].
    wdefer. unfold S3_stat_onsuccess.
    repeat case_match; first [wret|wraise].
Qed.

Lemma only_calls_store_stat_image st key info :
  within (only_calls is_stat_call) (store_stat_image st key info).
Proof.
  destruct st as [basedir|bucket prefix s3_spider]; simpl.
  - wdefer.
    wbind; [apply only_calls_FS_stat_image|]. intros d. wret.
  - intros s r s' H.
    destruct (S3_stat_image _ _ _ _ _ s) as [[e|dfd] s1] eqn:E; simplify_eq;
      by eapply only_calls_S3_stat_image.
Qed.

Lemma only_calls_to_download_onsuccess Q self request info key result :
  (∀ e, is_report e = true → Q e = true) →
  within (only_calls Q) (to_download_onsuccess self request info key result).
Proof.
  intros HQ. unfold to_download_onsuccess.
  destruct result as [d|]; [|wret].
  case_bool_decide; [wret|]. destruct (negb _); [wret|].
  wbind; [wget|]. intros s. destruct (dict_get d "last_modified"); try wraise.
  destruct (Binary64.float_gt _ _); [wret|].
  wbind; [by apply only_calls_log_msg|]. intros _.
  wbind; [by apply only_calls_inc_stats|]. intros _. wret.
Qed.

(** [media_to_download] changes nothing: it only reports and, on the remote
    store, asks for metadata. *)
Lemma only_calls_media_to_download self request info :
  within (only_calls is_stat_call) (media_to_download self request info).
Proof.
  unfold media_to_download. wbind; [apply only_calls_store_stat_image|].
  intros dfd. wbind.
  - wdefer. destruct dfd as [e|result]; [wret|].
    apply only_calls_to_download_onsuccess. intros e He.
    unfold is_stat_call. by rewrite He.
  - intros dfd'. wbind; [|intros ?; wret].
    destruct dfd' as [e|res]; simpl; [|wret].
    wdefer.
    wbind; [by apply only_calls_emit|]. intros _. wret.
Qed.

Lemma to_download_onsuccess_some self request info key result s r s2 :
  to_download_onsuccess self request info key result s = (inr (Some r), s2) →
  ∃ d, result = Some d
       ∧ r = {[ "url" := VStr (req_url request);
                "path" := VStr key;
                "checksum" := dict_get d "checksum" ]}.
Proof.
  unfold to_download_onsuccess. destruct result as [d|]; [|done].
  case_bool_decide; [done|]. destruct (negb _); [done|].
  unfold bind at 1, get_state at 1.
  destruct (dict_get d "last_modified"); try done.
  destruct (Binary64.float_gt _ _); [done|]. intros Hrun.
  apply bind_inr in Hrun as ([] & s3 & _ & Hrun).
  apply bind_inr in Hrun as ([] & s4 & _ & Hrun).
  injection Hrun as <- <-. by exists d.
Qed.

(** C4.  When [media_to_download] returns a result, so that the download is
    skipped, the result holds the URL of the request, as path the primary
    key of that URL, and as checksum the checksum of the metadata that
    [stat_image] delivered.  Nothing was stored and nothing fetched: the
    file system and the directory cache are as before, and the calls made
    are reports to the log and the statistics and, on the remote store, the
    [HEAD] request of [stat_image]. *)
Theorem skip_result_from_stat self request info s r s2 :
  media_to_download self request info s = (inr (inr (Some r)), s2) →
  ∃ d s1,
    store_stat_image (pipeline_store self) (image_key (req_url request)) info s
    = (inr (inr (Some d)), s1)
    ∧ r = {[ "url" := VStr (req_url request);
             "path" := VStr (image_key (req_url request));
             "checksum" := dict_get d "checksum" ]}
    ∧ only_calls is_stat_call s s2.
Proof.
  intros Hrun.
  pose proof (only_calls_media_to_download _ _ _ _ _ _ Hrun) as Honly.
  destruct (store_stat_image_deferred (pipeline_store self)
              (image_key (req_url request)) info s) as (dfd & s1 & Hstat).
  rewrite (media_to_download_run _ _ _ _ _ _ Hstat) in Hrun.
  destruct dfd as [e|result]; [done|].
  destruct (to_download_onsuccess _ _ _ _ _ s1) as [[e|res] s3] eqn:Hon; [done|].
  injection Hrun as -> ->.
  apply to_download_onsuccess_some in Hon as (d & -> & ->).
  by exists d, s1.
Qed.

(** C5, amended.  [stat_image] of the file system store returns empty
    metadata when the time of modification of the file cannot be read,
    which is so when the file does not exist.  Whatever [stat_image] does,
    [media_to_download] neither raises nor fails; when [stat_image] raises
    or its deferred fails, or when it delivers [None] or empty metadata,
    [media_to_download] returns [None], which forces the download. *)
Theorem stat_failure_forces_download self request info s :
  (∀ basedir key,
     os.node_at (fs s) (FS_get_filesystem_path basedir key) = None →
     FS_stat_image basedir key info s = (inr ∅, s))
  ∧ (∀ basedir e s1,
       pipeline_store self = FSImagesStore basedir →
       FS_stat_image basedir (image_key (req_url request)) info s = (inl e, s1) →
       media_to_download self request info s = (inr (inr None), s1))
  ∧ ∃ res s2,
      media_to_download self request info s = (inr (inr res), s2)
      ∧ ∀ dfd s1,
          store_stat_image (pipeline_store self) (image_key (req_url request)) info s
          = (inr dfd, s1) →
          match dfd with
          | inl _ | inr None => res = None ∧ s2 = s1
          | inr (Some d) => d = ∅ → res = None ∧ s2 = s1
          end.
Proof.
  split_and!.
  - intros basedir key H. unfold os.node_at in H.
    unfold FS_stat_image, try_except, os.path_getmtime, bind, get_state, raise, ret.
    destruct (os.resolve _ _) as [e|k]; [done|]. by rewrite H.
  - intros basedir e s1 Hstore Hstat.
    assert (Hd : store_stat_image (pipeline_store self)
                   (image_key (req_url request)) info s = (inr (inl e), s1)).
    { rewrite Hstore. simpl. unfold maybeDeferred, bind. by rewrite Hstat. }
    by rewrite (media_to_download_run _ _ _ _ _ _ Hd).
  - destruct (media_to_download_total self request info s) as (res & s2 & Hrun).
    exists res, s2. split; [done|]. intros dfd s1 Hstat.
    rewrite (media_to_download_run _ _ _ _ _ _ Hstat) in Hrun.
    destruct dfd as [e|[d|]].
    + by injection Hrun as <- <-.
    + intros ->. simpl in Hrun. by injection Hrun as <- <-.
    + simpl in Hrun. by injection Hrun as <- <-.
Qed.

(** *** The processing after a fetch *)

Lemma raises_only_ret {A} P (a : A) : raises_only P (ret a).
Proof. by intros s e s'. Qed.

Lemma raises_only_raise {A} (P : exn → Prop) e : P e → raises_only P (raise (A:=A) e).
Proof. intros He s e' s' [= <- _]. done. Qed.

Lemma raises_only_modify P f : raises_only P (modify f).
Proof. by intros s e s'. Qed.

Lemma raises_only_get_state P : raises_only P get_state.
Proof. by intros s e s'. Qed.

Lemma raises_only_bind {A B} P (m : M A) (k : A → M B) :
  raises_only P m → (∀ a, raises_only P (k a)) → raises_only P (bind m k).
Proof.
  intros Hm Hk s e s' [(e' & H & [= ->])|(a & s1 & _ & H)]%bind_inv.
  - by eapply Hm.
  - by eapply Hk.
Qed.

Ltac rstep :=
  first [ apply raises_only_ret | apply raises_only_modify
        | apply raises_only_get_state | by apply raises_only_raise
        | apply raises_only_bind; [|intros ?] ].

Lemma mkdir_error name now (m m' : filesystem) e :
  os.mkdir name now m = (Some e, m') → not_download_error e.
Proof. unfold os.mkdir. intros H. by repeat case_match; simplify_eq. Qed.

Lemma makedirs_rec_error fuel name now (m m' : filesystem) e :
  os.makedirs_rec fuel name now m = (Some e, m') → not_download_error e.
Proof.
  revert name m m' e. induction fuel as [|fuel IH]; intros name m m' e; simpl;
    intros Hrun; repeat case_match; simplify_eq; eauto using mkdir_error; done.
Qed.

Lemma raises_only_FS_mkdir dirname domain :
  raises_only not_download_error (FS_mkdir dirname domain).
Proof.
  unfold FS_mkdir. rstep.
  - destruct domain as [d|]; [|rstep]. destruct (dkey_truthy _); [|rstep].
    rstep; [rstep|]. destruct (_ !! d); [rstep|]. rstep; rstep.
  - case_bool_decide; [rstep|]. rstep.
    + unfold os.path_exists, emit. rstep; [rstep|]. rstep; rstep.
    + rstep.
      * match goal with |- raises_only _ (if ?b then _ else _) => destruct b end;
          [rstep|]. unfold os.makedirs, emit. rstep; [rstep|].
        intros s e s'. destruct (os.makedirs_rec _ _ _ _) as [[e'|] m'] eqn:E;
          intros [= <- _]. by eapply makedirs_rec_error.
      * destruct domain as [d|]; [|rstep]. destruct (dkey_truthy _); rstep.
Qed.

Lemma raises_only_Image_save_file im p :
  raises_only not_download_error (Image_save_file im p).
Proof.
  unfold Image_save_file, emit. rstep; [rstep|].
  destruct (EXTENSION !! _); [|rstep]. rstep.
  - unfold os.open_wb. rstep; [rstep|]. repeat case_match; repeat rstep.
  - destruct (Image_encode _ _); [rstep|]. unfold os.write_file. rstep; rstep.
Qed.

Lemma raises_only_store_persist_image st key im buf info :
  raises_only not_download_error (store_persist_image st key im buf info).
Proof.
  destruct st as [basedir|bucket prefix s3_spider]; simpl.
  - rstep; [|rstep]. unfold FS_persist_image. rstep.
    + apply raises_only_FS_mkdir.
    + apply raises_only_Image_save_file.
  - rstep; [|rstep]. unfold S3_persist_image.
    destruct (im_size im) as [width height]. simpl. rstep; [|rstep].
    unfold S3_download_request, scrapyengine_schedule, scrapyengine_download, emit.
    destruct s3_spider; (rstep; rstep).
Qed.

Lemma raises_only_persist_images self info items first_buf :
  raises_only not_download_error (persist_images self info items first_buf).
Proof.
  revert first_buf. induction items as [|[[key im] buf] items IH];
    intros first_buf; simpl; [rstep|].
  rstep; [apply raises_only_store_persist_image|apply IH].
Qed.

Lemma convert_image_error im size e :
  convert_image im size = inl e → not_download_error e.
Proof.
  unfold convert_image. intros H. by repeat case_match; simplify_eq.
Qed.

Lemma get_thumbs_ended url im thumbs items e :
  get_thumbs url im thumbs = (items, Some e) → not_download_error e.
Proof.
  revert items. induction thumbs as [|[thumb_id size] thumbs IH]; intros items;
    simpl; [done|].
  destruct (convert_image im size) as [e'|[timg tbuf]] eqn:Hc.
  - intros [= _ <-]. by eapply convert_image_error.
  - destruct (get_thumbs url im thumbs) as [items' e'']. intros [= _ ->]. by eapply IH.
Qed.

Lemma get_images_ended self response request info items e :
  get_images self response request info = (items, Some e) → not_download_error e.
Proof.
  unfold get_images. destruct (Image_open _) as [err|orig]; [by intros [= _ <-]|].
  destruct (im_size orig) as [width height].
  destruct (_ || _); [by intros [= _ <-]|].
  destruct (convert_image orig None) as [e'|[im buf]] eqn:Hc.
  - intros [= _ <-]. by eapply convert_image_error.
  - destruct (get_thumbs _ _ _) as [items' e''] eqn:Ht. intros [= _ ->].
    by eapply get_thumbs_ended.
Qed.

Lemma raises_only_image_downloaded self response request info :
  raises_only not_download_error (image_downloaded self response request info).
Proof.
  unfold image_downloaded.
  destruct (get_images self response request info) as [items ended] eqn:Hg.
  rstep; [apply raises_only_persist_images|].
  destruct ended as [e|].
  - apply raises_only_raise. by eapply get_images_ended.
  - match goal with |- raises_only _ (match ?b with _ => _ end) => destruct b end;
      rstep.
Qed.

(** [media_downloaded] on a response with status 200 and a body: two
    reports, then [image_downloaded]; its exception is logged and raised
    again, its checksum goes into the result. *)
Lemma media_downloaded_proceeds self response request info s :
  resp_status response = 200%Z → resp_body response ≠ "" →
  let referer := req_headers request !! "Referer" in
  let status :=
    if bool_decide ("cached" ∈ resp_flags response) then "cached" else "downloaded" in
  let s1 :=
    add_event (StatsInc ("image_status_count/" +:+ status) (info_domain info))
      (add_event (StatsInc "image_count" (info_domain info))
         (add_event (LogMsg (MsgDownloaded status request referer) DEBUG
                            (info_domain info)) s)) in
  media_downloaded self response request info s
  = match image_downloaded self response request info s1 with
    | (inr checksum, s2) =>
        (inr {[ "url" := VStr (req_url request);
                "path" := VStr (image_key (req_url request));
                "checksum" := VStr checksum ]}, s2)
    | (inl e, s2) =>
        (inl e, add_event (LogMsg (MsgException e) WARNING (info_domain info)) s2)
    end.
Proof.
  intros Hstatus Hbody. unfold media_downloaded.
  rewrite (bool_decide_eq_true_2 _ Hstatus), (bool_decide_eq_false_2 _ Hbody).
  simpl. unfold bind, try_except, log_msg, inc_stats, stats_inc_value, emit, modify.
  simpl. by destruct (image_downloaded _ _ _ _ _) as [[e|c] s2].
Qed.

Lemma only_calls_add_event Q e s : Q e = true → only_calls Q s (add_event e s).
Proof.
  intros He. split_and!; try done. exists [e]. split; [done|]. simpl. by rewrite He.
Qed.

(** [media_downloaded] on a response whose status is not 200. *)
Lemma media_downloaded_http_error self response request info s :
  resp_status response ≠ 200%Z →
  let reason := HttpError request (req_headers request !! "Referer") in
  media_downloaded self response request info s
  = (inl (ImageException reason),
     add_event (LogMsg (MsgImageError reason) WARNING (info_domain info)) s).
Proof.
  intros H. unfold media_downloaded. by rewrite (bool_decide_eq_false_2 _ H).
Qed.

(** [media_downloaded] on a response with status 200 and no body. *)
Lemma media_downloaded_empty_content self response request info s :
  resp_status response = 200%Z → resp_body response = "" →
  let reason := EmptyContent request (req_headers request !! "Referer") in
  media_downloaded self response request info s
  = (inl (ImageException reason),
     add_event (LogMsg (MsgImageError reason) WARNING (info_domain info)) s).
Proof.
  intros H1 H2. unfold media_downloaded.
  by rewrite (bool_decide_eq_true_2 _ H1), (bool_decide_eq_true_2 _ H2).
Qed.

(** C7, amended.  [media_downloaded] raises a download error exactly when
    the status of the response is not 200 or its body is empty.  A status
    other than 200 raises the http error and an empty body with status 200
    the empty-content error; in both cases nothing but the report to the
    log is done: nothing is stored and nothing is tried again.  With
    status 200 and a body that is not empty, processing goes on: the
    outcome is that of [image_downloaded], run after the two reports, and
    no exception that it raises is a download error. *)
Theorem download_error_iff_not_200_or_empty self response request info s :
  let referer := req_headers request !! "Referer" in
  let out := media_downloaded self response request info s in
  ((∃ e, out.1 = inl e ∧ is_download_error e = true)
   ↔ resp_status response ≠ 200%Z ∨ resp_body response = "")
  ∧ (resp_status response ≠ 200%Z →
     out.1 = inl (ImageException (HttpError request referer))
     ∧ only_calls is_report s out.2)
  ∧ (resp_status response = 200%Z → resp_body response = "" →
     out.1 = inl (ImageException (EmptyContent request referer))
     ∧ only_calls is_report s out.2)
  ∧ (resp_status response = 200%Z → resp_body response ≠ "" →
     ∃ s1, only_calls is_report s s1
           ∧ match image_downloaded self response request info s1 with
             | (inr checksum, s2) =>
                 out = (inr {[ "url" := VStr (req_url request);
                               "path" := VStr (image_key (req_url request));
                               "checksum" := VStr checksum ]}, s2)
             | (inl e, s2) =>
                 out = (inl e, add_event (LogMsg (MsgException e) WARNING
                                                 (info_domain info)) s2)
             end).
Proof.
  intros referer out.
  pose proof (media_downloaded_http_error self response request info s) as Hhttp.
  pose proof (media_downloaded_empty_content self response request info s) as Hempty.
  simpl in Hhttp, Hempty. fold referer out in Hhttp, Hempty.
  assert (Hgo : resp_status response = 200%Z → resp_body response ≠ "" →
            ∀ e, out.1 = inl e → is_download_error e = false).
  { intros H1 H2 e. unfold out.
    rewrite (media_downloaded_proceeds _ _ _ _ _ H1 H2).
    destruct (image_downloaded _ _ _ _ _) as [[e'|c] s2] eqn:E; [|done].
    intros [= <-]. by eapply raises_only_image_downloaded. }
  split_and!.
  - split.
    + intros (e & He & Hde).
      destruct (decide (resp_status response = 200%Z)) as [H1|H1]; [|by left].
      destruct (decide (resp_body response = "")) as [H2|H2]; [by right|].
      rewrite (Hgo H1 H2 e He) in Hde. done.
    + destruct (decide (resp_status response = 200%Z)) as [H1|H1].
      * intros [?|H2]; [done|]. rewrite (Hempty H1 H2). by eexists.
      * intros _. rewrite (Hhttp H1). by eexists.
  - intros H. rewrite (Hhttp H). split; [done|]. by apply only_calls_add_event.
  - intros H1 H2. rewrite (Hempty H1 H2). split; [done|]. by apply only_calls_add_event.
  - intros H1 H2.
    pose proof (media_downloaded_proceeds self response request info s H1 H2) as Hp.
    simpl in Hp. fold referer in Hp.
    set (status := if bool_decide ("cached" ∈ resp_flags response)
                   then "cached" else "downloaded") in Hp.
    exists (add_event (StatsInc ("image_status_count/" +:+ status) (info_domain info))
              (add_event (StatsInc "image_count" (info_domain info))
                 (add_event (LogMsg (MsgDownloaded status request referer) DEBUG
                                    (info_domain info)) s))).
    split.
    + etrans; [|by apply only_calls_add_event].
      etrans; [|by apply only_calls_add_event].
      by apply only_calls_add_event.
    + unfold out. rewrite Hp. by destruct (image_downloaded _ _ _ _ _) as [[e|c] s2].
Qed.

(** C6.  When the decoded image is narrower than [MIN_WIDTH] or lower than
    [MIN_HEIGHT], the generator of variants ends with the too-small error
    before it yields anything, [image_downloaded] raises that error and
    leaves the state as it found it, and [media_downloaded] fails having
    done nothing but report: no variant is encoded and no store is asked to
    persist, neither the primary image nor a thumbnail. *)
Theorem too_small_image_is_not_persisted self response request info s orig :
  Image_open (resp_body response) = inr orig →
  ((im_size orig).1 < MIN_WIDTH self ∨ (im_size orig).2 < MIN_HEIGHT self)%Z →
  let err :=
    ImageException (TooSmall (im_size orig).1 (im_size orig).2
                             (MIN_WIDTH self) (MIN_HEIGHT self)
                             (resp_url response)) in
  get_images self response request info = ([], Some err)
  ∧ image_downloaded self response request info s = (inl err, s)
  ∧ ∃ e s', media_downloaded self response request info s = (inl e, s')
            ∧ only_calls is_report s s'
            ∧ (resp_status response = 200%Z → resp_body response ≠ "" → e = err).
Proof.
  intros Hopen Hsmall err.
  assert (Hgen : get_images self response request info = ([], Some err)).
  { unfold get_images, err. rewrite Hopen.
    destruct (im_size orig) as [width height]. simpl in *.
    assert ((width <? MIN_WIDTH self)%Z || (height <? MIN_HEIGHT self)%Z = true)
      as ->; [|done].
    apply orb_true_iff. rewrite !Z.ltb_lt. done. }
  assert (Himg : ∀ s0, image_downloaded self response request info s0 = (inl err, s0)).
  { intros s0. unfold image_downloaded. by rewrite Hgen. }
  split_and!; [done|done|].
  destruct (decide (resp_status response = 200%Z)) as [H1|H1];
    [destruct (decide (resp_body response = "")) as [H2|H2]|].
  - rewrite (media_downloaded_empty_content _ _ _ _ _ H1 H2).
    eexists _, _. split; [done|]. split; [by apply only_calls_add_event|done].
  - rewrite (media_downloaded_proceeds _ _ _ _ _ H1 H2), Himg.
    eexists _, _. split; [done|]. split; [|done].
    etrans; [|by apply only_calls_add_event].
    etrans; [|by apply only_calls_add_event].
    etrans; [|by apply only_calls_add_event].
    by apply only_calls_add_event.
  - rewrite (media_downloaded_http_error _ _ _ _ _ H1).
    eexists _, _. split; [done|]. split; [by apply only_calls_add_event|done].
Qed.

(** *** The cache of created directories *)

Global Instance settled_preorder k d : PreOrder (settled k d).
Proof.
  split; [by intros s H|]. intros s1 s2 s3 H1 H2 H.
  destruct (H1 H) as [H' E1]. destruct (H2 H') as [H'' E2].
  split; [done|]. by rewrite E2.
Qed.

Lemma dir_work_add_event d e s :
  dir_work d (add_event e s) = dir_work d s + (if is_dir_work d e then 1 else 0).
Proof.
  unfold dir_work. simpl. rewrite filter_app, length_app. f_equal.
  rewrite filter_cons, filter_nil. by destruct (is_dir_work d e).
Qed.

Lemma settled_emit k d e : is_dir_work d e = false → within (settled k d) (emit e).
Proof.
  intros He. wmodify. intros s H. split; [done|].
  rewrite dir_work_add_event, He. lia.
Qed.

Lemma settled_set_fs k d f : within (settled k d) (modify (set_fs f)).
Proof. wmodify. by intros s H. Qed.

Lemma settled_makedirs k d name : name ≠ d → within (settled k d) (os.makedirs name).
Proof.
  intros Hne. unfold os.makedirs. wbind.
  - apply settled_emit. simpl. by rewrite bool_decide_eq_false_2.
  - intros _ s r s' H Hc.
    destruct (os.makedirs_rec _ _ _ _) as [[e|] m']; by simplify_eq.
Qed.

Lemma settled_FS_mkdir info d dirname :
  within (settled (KInfo info) d) (FS_mkdir dirname (Some (KInfo info))).
Proof.
  intros s r s' Hrun Hc. destruct Hc as (seen & Hseen & Hd).
  unfold FS_mkdir in Hrun. simpl in Hrun.
  unfold bind at 1 2, get_state at 1 in Hrun. rewrite Hseen in Hrun. simpl in Hrun.
  case_bool_decide as Hin.
  { injection Hrun as <- <-. split; [by exists seen|done]. }
  assert (Hne : dirname ≠ d) by (by intros ->).
  assert (Hstep : within (settled (KInfo info) d)
            (let* present := os.path_exists dirname in
             (if present then ret tt else os.makedirs dirname);;
             modify (set_created_directories
                       (alter (union {[dirname]}) (KInfo info))))).
  { wbind.
    - unfold os.path_exists. wbind; [|intros _; wbind; [wget|intros ?; wret]].
      apply settled_emit. simpl. by rewrite bool_decide_eq_false_2.
    - intros present. wbind.
      + destruct present; [wret|by apply settled_makedirs].
      + intros _. wmodify. intros s0 (seen0 & Hseen0 & Hd0).
        split; [|done]. exists ({[dirname]} ∪ seen0). simpl.
        rewrite lookup_alter_eq, Hseen0. split; [done|].
        apply elem_of_union. by right. }
  apply (Hstep _ _ _ Hrun). by exists seen.
Qed.

Lemma settled_Image_save_file k d im p : within (settled k d) (Image_save_file im p).
Proof.
  unfold Image_save_file. wbind; [by apply settled_emit|]. intros _.
  destruct (EXTENSION !! _) as [format|]; [|wraise]. wbind.
  - unfold os.open_wb. wbind; [wget|]. intros s.
    repeat case_match;
      first [wraise | wbind; [apply settled_set_fs | intros _; wret]].
  - intros fp. destruct (Image_encode _ _) as [err|data]; [wraise|].
    unfold os.write_file. wbind; [wget|]. intros s. apply settled_set_fs.
Qed.

Lemma settled_FS_persist_image info d basedir key im buf :
  within (settled (KInfo info) d) (FS_persist_image basedir key im buf info).
Proof.
  unfold FS_persist_image. wbind; [apply settled_FS_mkdir|]. intros _.
  apply settled_Image_save_file.
Qed.

(** A call of [_mkdir] for a session that returns has put the directory in
    the cache of the session. *)
Lemma FS_mkdir_records info dirname s s' :
  FS_mkdir dirname (Some (KInfo info)) s = (inr tt, s') →
  cache_has s' (KInfo info) dirname.
Proof.
  unfold FS_mkdir. simpl. intros Hrun.
  apply bind_inr in Hrun as (seen & s1 & Hseen & Hrun).
  assert (Hs1 : created_directories s1 !! KInfo info = Some seen).
  { apply bind_inr in Hseen as (s0 & s2 & [= <- <-] & Hseen).
    destruct (created_directories s !! KInfo info) as [seen0|] eqn:E.
    - by injection Hseen as <- <-.
    - apply bind_inr in Hseen as ([] & s3 & [= <-] & [= <- <-]).
      simpl. by rewrite lookup_insert_eq. }
  case_bool_decide as Hin.
  { injection Hrun as <-. by exists seen. }
  apply bind_inr in Hrun as (present & s2 & Hex & Hrun).
  apply bind_inr in Hrun as ([] & s3 & Hmk & Hrun).
  injection Hrun as <-.
  assert (Hcd : created_directories s3 = created_directories s1).
  { apply bind_inr in Hex as ([] & s4 & [= <-] & [= _ <-]).
    destruct present; [by injection Hmk as <-|].
    apply bind_inr in Hmk as ([] & s5 & [= <-] & Hmk).
    destruct (os.makedirs_rec _ _ _ _) as [[e|] m']; by simplify_eq. }
  exists ({[dirname]} ∪ seen). simpl.
  rewrite lookup_alter_eq, Hcd, Hs1. split; [done|].
  apply elem_of_union. left. by apply elem_of_singleton.
Qed.

(** In a session, once a call of [_mkdir] for a directory has returned, the later [persist_image] calls of that session
    do no work for that directory: they neither ask whether it exists nor
    try to create it. *)
Lemma directory_created_at_most_once basedir info dirname s0 s calls :
  FS_mkdir dirname (Some (KInfo info)) s0 = (inr tt, s) →
  dir_work dirname (persist_session basedir info calls s) = dir_work dirname s.
Proof.
  intros Hrun. apply FS_mkdir_records in Hrun.
  assert (H : cache_has (persist_session basedir info calls s) (KInfo info) dirname
              ∧ dir_work dirname (persist_session basedir info calls s)
                = dir_work dirname s); [|by destruct H].
  revert s Hrun. unfold persist_session.
  induction calls as [|[[key im] buf] calls IH]; intros s Hc; simpl; [done|].
  destruct (FS_persist_image basedir key im buf info s) as [r s1] eqn:E.
  destruct (settled_FS_persist_image info dirname _ _ _ _ _ _ _ E Hc) as [Hc1 E1].
  simpl. destruct (IH s1 Hc1) as [Hc2 E2]. split; [done|]. by rewrite E2.
Qed.

(** The notification of [domain_closed] for a domain name leaves alone what
    the cache holds under an [info] object. *)
Lemma domain_closed_keeps_info_entries name info s :
  created_directories (FS_domain_closed (KDomain name) s).2 !! KInfo info
  = created_directories s !! KInfo info.
Proof. simpl. by rewrite lookup_delete_ne. Qed.

(** *** Construction *)




(** ** Further properties of the module *)

(** *** Clock and log of calls *)

Global Instance steady_preorder Q : PreOrder (steady Q).
Proof.
  split.
  - intros s. split; [done|]. exists []. by rewrite app_nil_r.
  - intros s1 s2 s3 (Hc1 & l1 & He1 & Hl1) (Hc2 & l2 & He2 & Hl2).
    split; [congruence|]. exists (l1 ++ l2).
    rewrite He2, He1, <- (assoc_L (++)). split; [done|].
    rewrite forallb_app. by rewrite Hl1, Hl2.
Qed.

Lemma steady_emit Q e : Q e = true → within (steady Q) (emit e).
Proof.
  intros He. wmodify. intros s. split; [done|]. exists [e]. split; [done|].
  simpl. by rewrite He.
Qed.

Lemma steady_set_fs Q f : within (steady Q) (modify (set_fs f)).
Proof. wmodify. intros s. split; [done|]. exists []. by rewrite app_nil_r. Qed.

Lemma steady_set_created_directories Q f :
  within (steady Q) (modify (set_created_directories f)).
Proof. wmodify. intros s. split; [done|]. exists []. by rewrite app_nil_r. Qed.

(** Steps through an action built from the operations of the monad; [leaf]
    closes what is left of it. *)
Ltac wgo leaf :=
  repeat first
    [ leaf
    | wret | wraise | wget | wbind | wtry | wdefer
    | lazymatch goal with |- ∀ _, _ => intro end
    | match goal with
      | |- within _ (match ?x with _ => _ end) => destruct x
      end ].

Lemma steady_makedirs Q name :
  Q (OsMakedirs name) = true → within (steady Q) (os.makedirs name).
Proof.
  intros HQ. unfold os.makedirs. wbind; [by apply steady_emit|].
  intros _ s r s' H.
  destruct (os.makedirs_rec _ _ _ _) as [[e|] m']; simplify_eq;
    (split; [done|]; exists []; by rewrite app_nil_r).
Qed.

Lemma steady_path_exists Q p :
  Q (OsPathExists p) = true → within (steady Q) (os.path_exists p).
Proof. intros HQ. unfold os.path_exists. wgo ltac:(by apply steady_emit). Qed.

Lemma steady_FS_mkdir Q dirname domain :
  (∀ e, is_os_call e = true → Q e = true) →
  within (steady Q) (FS_mkdir dirname domain).
Proof.
  intros HQ. unfold FS_mkdir.
  wgo ltac:(first [ apply steady_set_created_directories
                  | apply steady_path_exists; by apply HQ
                  | apply steady_makedirs; by apply HQ ]).
Qed.

Lemma steady_Image_save_file Q im p :
  Q (ImageSaveFile p) = true → within (steady Q) (Image_save_file im p).
Proof.
  intros HQ. unfold Image_save_file, os.open_wb, os.write_file.
  wgo ltac:(first [by apply steady_emit | apply steady_set_fs]).
Qed.

Lemma steady_FS_persist_image Q basedir key im buf info :
  (∀ e, is_report e = false → Q e = true) →
  within (steady Q) (FS_persist_image basedir key im buf info).
Proof.
  intros HQ. unfold FS_persist_image. wbind.
  - apply steady_FS_mkdir. intros [] He; try done; by apply HQ.
  - intros _. apply steady_Image_save_file. by apply HQ.
Qed.

Lemma steady_S3_download_request Q s3_spider request info :
  (∀ e, is_report e = false → Q e = true) →
  within (steady Q) (S3_download_request s3_spider request info).
Proof.
  intros HQ. unfold S3_download_request, scrapyengine_schedule, scrapyengine_download.
  wgo ltac:(apply steady_emit; by apply HQ).
Qed.

Lemma steady_store_persist_image Q st key im buf info :
  (∀ e, is_report e = false → Q e = true) →
  within (steady Q) (store_persist_image st key im buf info).
Proof.
  intros HQ. destruct st as [basedir|bucket prefix s3_spider]; simpl.
  - wbind; [by apply steady_FS_persist_image|]. intros _. wret.
  - unfold S3_persist_image. destruct (im_size im) as [width height]. simpl.
    wgo ltac:(by apply steady_S3_download_request).
Qed.

Lemma steady_persist_images Q self info items first_buf :
  (∀ e, is_report e = false → Q e = true) →
  within (steady Q) (persist_images self info items first_buf).
Proof.
  intros HQ. revert first_buf.
  induction items as [|[[key im] buf] items IH]; intros first_buf; simpl; [wret|].
  wbind; [by apply steady_store_persist_image|]. intros b. apply IH.
Qed.

(** [image_downloaded] reports nothing: its calls are to the file system and
    to the engine. *)
Lemma steady_image_downloaded Q self response request info :
  (∀ e, is_report e = false → Q e = true) →
  within (steady Q) (image_downloaded self response request info).
Proof.
  intros HQ. unfold image_downloaded.
  destruct (get_images self response request info) as [items ended].
  wbind; [by apply steady_persist_images|]. intros first_buf.
  destruct ended; [wraise|]. destruct first_buf; [wret|wraise].
Qed.

Lemma steady_media_downloaded self response request info :
  within (steady (λ _, true)) (media_downloaded self response request info).
Proof.
  unfold media_downloaded, log_msg, inc_stats, stats_inc_value.
  wgo ltac:(first [ by apply steady_emit
                  | by apply steady_image_downloaded ]).
Qed.

(** *** Store and stat on the file system *)

Lemma steady_nil_eq s s' :
  fs s' = fs s → created_directories s' = created_directories s →
  steady (λ _, false) s s' → s' = s.
Proof.
  intros Hf Hd (Hc & l & He & Hl). destruct l as [|e l]; [|done].
  rewrite app_nil_r in He. destruct s, s'. simpl in *. by subst.
Qed.

(** X1.  Round trip on the file system store: after [persist_image] has
    returned for a key, [stat_image] of that key reports as time of
    modification the time of the call and as checksum the digest of the
    bytes of the image encoded in the format of the key's extension.  The
    buffer that [persist_image] is given plays no part. *)
Theorem persist_image_then_stat_image basedir key im buf info s s' :
  FS_persist_image basedir key im buf info s = (inr tt, s') →
  ∃ format data,
    EXTENSION !! Py.lower (os.path_splitext (FS_get_filesystem_path basedir key)).2
    = Some format
    ∧ Image_encode format im = inr data
    ∧ FS_stat_image basedir key info s'
      = (inr {[ "last_modified" := VNum (clock s);
                "checksum" := VStr (md5_hexdigest data) ]}, s').
Proof.
  unfold FS_persist_image. intros Hrun.
  apply bind_inr in Hrun as ([] & s1 & Hmkdir & Hsave).
  assert (Hc : clock s1 = clock s).
  { by destruct (steady_FS_mkdir (λ _, true) _ _ (λ _ _, eq_refl) _ _ _ Hmkdir). }
  apply Image_save_file_inr in Hsave
    as (format & data & Hext & Henc & Hres & Hent & _).
  exists format, data. split; [done|]. split; [done|].
  apply FS_stat_image_file. rewrite <- Hc. apply node_at_resolve. eauto.
Qed.

(** X2.  [stat_image] of the file system store only reads: whatever it
    returns or raises, the state is as before. *)
Theorem stat_image_changes_nothing basedir key info s r s' :
  FS_stat_image basedir key info s = (r, s') → s' = s.
Proof.
  intros Hrun.
  destruct (only_calls_FS_stat_image (λ _, false) _ _ _ _ _ _ Hrun)
    as (Hf & Hc & Hd & l & He & Hl).
  apply steady_nil_eq; [done|done|]. split; [done|]. by exists l.
Qed.

(** X3.  [media_to_download] always returns a deferred that has fired with
    a result; it changes neither the file system nor the cache of
    directories, whatever it decides.  On the file system store its only
    calls are reports; on the remote store there are also the requests for
    metadata. *)
Theorem media_to_download_only_looks self request info s :
  ∃ res s',
    media_to_download self request info s = (inr (inr res), s')
    ∧ only_calls is_stat_call s s'
    ∧ (∀ basedir, pipeline_store self = FSImagesStore basedir →
                  only_calls is_report s s').
Proof.
  destruct (media_to_download_total self request info s) as (res & s' & Hrun).
  exists res, s'. split; [done|]. split.
  { by eapply only_calls_media_to_download. }
  intros basedir Hstore. revert Hrun. unfold media_to_download. rewrite Hstore.
  generalize (inr (A:=exn) (inr (A:=exn) res)). intros r Hrun. revert s r s' Hrun.
  change (within (only_calls is_report)
            (let* dfd := store_stat_image (FSImagesStore basedir)
                           (image_key (req_url request)) info in
             let* dfd := addCallbacks dfd
                           (to_download_onsuccess self request info
                              (image_key (req_url request)))
                           (λ _, ret None) in
             let* dfd := addErrback dfd
                           (λ failure,
                              emit (LogErr failure "ImagesPipeline.store.stat_image");;
                              ret None) in
             ret dfd)).
  wbind.
  - simpl. wdefer. wbind; [apply only_calls_FS_stat_image|]. intros d. wret.
  - intros dfd. wbind.
    + wdefer. destruct dfd as [e|result]; [wret|].
      by apply only_calls_to_download_onsuccess.
    + intros dfd'. wbind; [|intros ?; wret].
      destruct dfd' as [e|res']; simpl; [|wret].
      wdefer. wbind; [by apply only_calls_emit|]. intros _. wret.
Qed.

(** The primary file after [media_downloaded] has returned on the file
    system store, when no name of a thumbnail holds a separator: written at
    the time of the call, with the bytes whose digest is in the result. *)
Lemma media_downloaded_file self basedir response request info s r s' :
  pipeline_store self = FSImagesStore basedir →
  Forall (λ thumb, no_sep thumb.1) (THUMBS self) →
  media_downloaded self response request info s = (inr r, s') →
  ∃ data,
    os.node_at (fs s') (FS_get_filesystem_path basedir (image_key (req_url request)))
    = Some (File (clock s) data)
    ∧ r = {[ "url" := VStr (req_url request);
             "path" := VStr (image_key (req_url request));
             "checksum" := VStr (md5_hexdigest data) ]}.
Proof.
  intros Hstore Hnames Hrun.
  destruct (steady_media_downloaded _ _ _ _ _ _ _ Hrun) as [Hclock _].
  destruct (media_downloaded_inr _ _ _ _ _ _ _ Hrun)
    as (orig & im & buf & thumbs & s1 & buf1 & s2 & fb
        & Hopen & Hconv & Hthumbs & Hfirst & Hrest & ->).
  apply convert_image_encoded in Hconv as [Henc Htell].
  exists (getvalue buf). split; [|done].
  rewrite Hstore in Hfirst. simpl in Hfirst.
  apply bind_inr in Hfirst as ([] & s3 & Hfs & Hret). injection Hret as <- <-.
  apply bind_inr in Hfs as ([] & s4 & Hmkdir & Hsave).
  destruct (steady_Image_save_file (λ _, true) _ _ eq_refl _ _ _ Hsave) as [Hc1 _].
  destruct (steady_persist_images (λ _, true) _ _ _ _ (λ _ _, eq_refl) _ _ _ Hrest)
    as [Hc2 _].
  apply Image_save_file_inr in Hsave
    as (format & data & Hext & Henc' & Hres & Hent & Hcwd).
  rewrite image_key_path_ext in Hext.
  change (EXTENSION !! Py.lower ".jpg") with (Some "JPEG") in Hext.
  injection Hext as <-. rewrite Henc in Henc'. injection Henc' as <-.
  eapply keeps_entry_persist_images in Hrest;
    [|done|by eapply (thumbs_keep_primary self basedir _ _ _ _ (cwd (fs s4)))].
  rewrite (keeps_entry_node_at _ _ _ _ _ _ Hrest Hcwd Hres Hent).
  do 2 f_equal. congruence.
Qed.

(** X4.  A download followed by a later check, on the file system store
    with thumbnail names that hold no path separator: after
    [media_downloaded] has returned a result at a time other than 0,
    [media_to_download] for the same request at the time [now] returns that
    same result while the age in days, [(now - then) / 60 / 60 / 24] in the
    arithmetic of doubles, is not greater than [EXPIRES], and returns [None]
    once the age is greater.  An image stored at the time 0 is always
    fetched again. *)
Theorem stored_image_uptodate_within_window
    self basedir response request info s r s' now :
  pipeline_store self = FSImagesStore basedir →
  Forall (λ thumb, no_sep thumb.1) (THUMBS self) →
  media_downloaded self response request info s = (inr r, s') →
  let age := age_days now (clock s) in
  ∃ res s'',
    media_to_download self request info (set_clock now s') = (inr (inr res), s'')
    ∧ ((clock s == 0)%Q → res = None)
    ∧ (¬ (clock s == 0)%Q →
       Binary64.float_gt age (EXPIRES self) = false → res = Some r)
    ∧ (¬ (clock s == 0)%Q →
       Binary64.float_gt age (EXPIRES self) = true → res = None).
Proof.
  intros Hstore Hnames Hrun age.
  destruct (media_downloaded_file _ _ _ _ _ _ _ _ Hstore Hnames Hrun)
    as (data & Hnode & ->).
  assert (Hstat :
    store_stat_image (pipeline_store self) (image_key (req_url request)) info
      (set_clock now s')
    = (inr (inr (Some {[ "last_modified" := VNum (clock s);
                         "checksum" := VStr (md5_hexdigest data) ]})),
       set_clock now s')).
  { rewrite Hstore. simpl. unfold maybeDeferred.
    by rewrite (bind_run _ _ _ _ _
                  (FS_stat_image_file basedir _ info (set_clock now s') _ _ Hnode)). }
  rewrite (media_to_download_run _ _ _ _ _ _ Hstat).
  destruct (Qeq_dec (clock s) 0) as [Hz|Hnz].
  - rewrite to_download_onsuccess_missing.
    + eexists _, _. split; [done|]. split_and!; [done|by intros []|by intros []].
    + right. unfold dict_get. rewrite lookup_insert_eq. by apply truthy_num.
  - rewrite (to_download_onsuccess_timestamp _ _ _ _ _ (clock s));
      [|by apply insert_non_empty|by rewrite lookup_insert_eq|done].
    change (clock (set_clock now s')) with now.
    fold age. destruct (Binary64.float_gt age _) eqn:Hgt.
    + eexists _, _. split; [done|]. by split_and!.
    + eexists _, _. split; [done|]. split_and!; [by intros ?| |done].
      intros _ _. unfold dict_get.
      rewrite lookup_insert_ne by done. by rewrite lookup_singleton_eq.
Qed.

(** *** The variants and the order in which they are stored *)

Lemma get_thumbs_variants url im thumbs items ended :
  get_thumbs url im thumbs = (items, ended) →
  map (λ item, item.1.1) items
  = take (length items) (map (λ thumb, thumb_key url thumb.1) thumbs)
  ∧ (ended = None → length items = length thumbs)
  ∧ Forall (λ item, Image_encode "JPEG" item.1.2 = inr (getvalue item.2)) items.
Proof.
  revert items ended. induction thumbs as [|[thumb_id size] thumbs IH];
    intros items ended; simpl.
  - intros [= <- <-]. by split_and!.
  - destruct (convert_image im size) as [e|[timg tbuf]] eqn:Hconv.
    { intros [= <- <-]. by split_and!. }
    destruct (get_thumbs url im thumbs) as [items' e'] eqn:E.
    intros [= <- <-]. destruct (IH _ _ eq_refl) as (Hkeys & Hlen & Hbufs).
    apply convert_image_encoded in Hconv as [Henc _]. simpl. split_and!.
    + by rewrite Hkeys at 1.
    + intros He. by rewrite Hlen.
    + by constructor.
Qed.

Lemma get_images_keys self response request info items ended :
  get_images self response request info = (items, ended) →
  map (λ item, item.1.1) items
  = take (length items) (variant_keys self (req_url request))
  ∧ (ended = None → length items = length (variant_keys self (req_url request))).
Proof.
  unfold get_images, variant_keys.
  destruct (Image_open _) as [err|orig]; [by intros [= <- <-]|].
  destruct (im_size orig) as [width height].
  destruct (_ || _); [by intros [= <- <-]|].
  destruct (convert_image orig None) as [e|[im buf]]; [by intros [= <- <-]|].
  destruct (get_thumbs _ _ _) as [items' e'] eqn:Hthumbs. intros [= <- <-].
  apply get_thumbs_variants in Hthumbs as (Hkeys & Hlen & _). simpl. split.
  - by rewrite Hkeys at 1.
  - intros He. by rewrite Hlen, length_map.
Qed.

(** X5.  The variants that [get_images] yields: their keys are an initial
    part of the primary key followed by the thumbnail keys in the order of
    [THUMBS]; all of them when the generator does not end in an exception;
    and the buffer of each variant holds the JPEG encoding of the image
    yielded beside it. *)
Theorem get_images_variants_in_order self response request info items ended :
  get_images self response request info = (items, ended) →
  map (λ item, item.1.1) items
  = take (length items) (variant_keys self (req_url request))
  ∧ (ended = None →
     map (λ item, item.1.1) items = variant_keys self (req_url request))
  ∧ Forall (λ item, Image_encode "JPEG" item.1.2 = inr (getvalue item.2)) items.
Proof.
  intros Hgen. destruct (get_images_keys _ _ _ _ _ _ Hgen) as [Hkeys Hall].
  split_and!; [done| |].
  - intros He. by rewrite Hkeys, (Hall He), firstn_all.
  - revert Hgen. unfold get_images.
    destruct (Image_open _) as [err|orig]; [by intros [= <- _]|].
    destruct (im_size orig) as [width height].
    destruct (_ || _); [by intros [= <- _]|].
    destruct (convert_image orig None) as [e|[im buf]] eqn:Hconv;
      [by intros [= <- _]|].
    destruct (get_thumbs _ _ _) as [items' e'] eqn:Hthumbs. intros [= <- _].
    apply get_thumbs_variants in Hthumbs as (_ & _ & Hbufs).
    apply convert_image_encoded in Hconv as [Henc _]. by constructor.
Qed.

Lemma saved_paths_app l1 l2 : saved_paths (l1 ++ l2) = saved_paths l1 ++ saved_paths l2.
Proof. apply omap_app. Qed.

Lemma saved_paths_os_calls s s' :
  steady is_os_call s s' → saved_paths (events s') = saved_paths (events s).
Proof.
  intros (_ & l & -> & Hl). rewrite saved_paths_app.
  assert (saved_paths l = []) as ->; [|by rewrite app_nil_r].
  induction l as [|e l IH]; [done|]. simpl in Hl.
  apply andb_true_iff in Hl as [He Hl]. specialize (IH Hl).
  unfold saved_paths in *. destruct e; try done; simpl; by rewrite IH.
Qed.

Lemma Image_save_file_events im p s r s' :
  Image_save_file im p s = (r, s') → events s' = events s ++ [ImageSaveFile p].
Proof.
  unfold Image_save_file. intros Hrun.
  apply bind_inv in Hrun as [(e & Hemit & _)|([] & s1 & Hemit & Hrun)]; [done|].
  injection Hemit as <-.
  change (events s ++ [ImageSaveFile p]) with (events (add_event (ImageSaveFile p) s)).
  generalize dependent (add_event (ImageSaveFile p) s). intros s1 Hrun.
  assert (Hw : within (λ a b, events b = events a)
                 (match EXTENSION !! Py.lower (os.path_splitext p).2 with
                  | Some format =>
                      let* fp := os.open_wb p in
                      match Image_encode format im with
                      | inl err => raise (IOError err)
                      | inr data => os.write_file fp data
                      end
                  | None => raise (KeyError (Py.lower (os.path_splitext p).2))
                  end)).
  { assert (PreOrder (λ a b : state, events b = events a)).
    { split; [done|]. intros a b c Hab Hbc. congruence. }
    unfold os.open_wb, os.write_file.
    wgo ltac:(wmodify; by intros []). }
  by eapply Hw.
Qed.

Lemma FS_persist_image_saved_paths basedir key im buf info s r s' :
  FS_persist_image basedir key im buf info s = (r, s') →
  ∃ n, saved_paths (events s')
       = saved_paths (events s) ++ take n [FS_get_filesystem_path basedir key]
       ∧ (r = inr tt → n = 1).
Proof.
  unfold FS_persist_image. intros Hrun.
  apply bind_inv in Hrun as [(e & Hmkdir & ->)|([] & s1 & Hmkdir & Hsave)].
  - exists 0. split; [|done]. rewrite app_nil_r. apply saved_paths_os_calls.
    by eapply (steady_FS_mkdir is_os_call).
  - exists 1. split; [|done].
    rewrite (Image_save_file_events _ _ _ _ _ Hsave), saved_paths_app.
    f_equal. apply saved_paths_os_calls. by eapply (steady_FS_mkdir is_os_call).
Qed.

Lemma persist_images_saved_paths self basedir info items first_buf s r s' :
  pipeline_store self = FSImagesStore basedir →
  persist_images self info items first_buf s = (r, s') →
  let paths := map (λ item, FS_get_filesystem_path basedir item.1.1) items in
  ∃ n, saved_paths (events s') = saved_paths (events s) ++ take n paths
       ∧ (∀ b, r = inr b → n = length items).
Proof.
  intros Hstore. revert first_buf s r s'.
  induction items as [|[[key im] buf] items IH]; intros first_buf s r s'; simpl.
  - intros [= <- <-]. exists 0. by rewrite app_nil_r.
  - rewrite Hstore. simpl. intros Hrun.
    apply bind_inv in Hrun as [(e & Hfirst & ->)|(b & s1 & Hfirst & Hrest)].
    + apply bind_inv in Hfirst as [(e' & Hfirst & _)|([] & s1 & _ & ?)]; [|done].
      apply FS_persist_image_saved_paths in Hfirst as (n & Hn & _).
      exists (n `min` 1). split; [|done]. rewrite Hn. by destruct n as [|[|n]].
    + apply bind_inr in Hfirst as ([] & s2 & Hfirst & Hret). injection Hret as _ <-.
      apply FS_persist_image_saved_paths in Hfirst as (n & Hn & Hone).
      rewrite (Hone eq_refl) in Hn. apply IH in Hrest as (k & Hk & Hall).
      exists (S k). split.
      * rewrite Hk, Hn. simpl. by rewrite <- (assoc_L (++)).
      * intros b' Hb'. by rewrite (Hall _ Hb').
Qed.

(** X6.  On the file system store, the files that [image_downloaded] hands
    to [image.save] are an initial part of the primary path followed by the
    thumbnail paths in the order of [THUMBS], whatever its outcome; when it
    returns a checksum they are all of them, each once. *)
Theorem image_downloaded_saves_variants_in_order
    self basedir response request info s r s' :
  pipeline_store self = FSImagesStore basedir →
  image_downloaded self response request info s = (r, s') →
  let paths :=
    map (FS_get_filesystem_path basedir) (variant_keys self (req_url request)) in
  ∃ n, saved_paths (events s') = saved_paths (events s) ++ take n paths
       ∧ (∀ checksum, r = inr checksum → n = length paths).
Proof.
  intros Hstore Hrun paths. unfold image_downloaded in Hrun.
  destruct (get_images self response request info) as [items ended] eqn:Hgen.
  destruct (get_images_keys _ _ _ _ _ _ Hgen) as [Hkeys Hall].
  assert (Hpaths : map (λ item, FS_get_filesystem_path basedir item.1.1) items
                   = take (length items) paths).
  { unfold paths. rewrite firstn_map, <- Hkeys. by rewrite map_map. }
  apply bind_inv in Hrun as [(e & Hrest & ->)|(fb & s1 & Hrest & Hend)].
  - destruct (persist_images_saved_paths _ _ _ _ _ _ _ _ Hstore Hrest)
      as (n & Hn & _).
    exists (n `min` length items). split; [|done].
    by rewrite Hn, Hpaths, take_take.
  - destruct (persist_images_saved_paths _ _ _ _ _ _ _ _ Hstore Hrest)
      as (n & Hn & Hlen).
    rewrite (Hlen _ eq_refl) in Hn.
    assert (Hs : s' = s1).
    { destruct ended; [by injection Hend|]. destruct fb; by injection Hend. }
    subst s1. exists (length items). split.
    + by rewrite Hn, Hpaths, take_take, Nat.min_id.
    + intros checksum ->. destruct ended; [done|].
      unfold paths. by rewrite length_map, (Hall eq_refl).
Qed.

(** X7.  Nothing is rolled back: when no name of a thumbnail holds a path
    separator, once [persist_image] has written the primary image to the
    file system, the file stays as written, with the JPEG bytes of the
    primary variant and the time of the call, whatever happens to the
    thumbnails afterwards and whether [image_downloaded] then returns or
    raises. *)
Theorem primary_image_is_not_rolled_back
    self basedir response request info s key im buf items ended s1 r s' :
  pipeline_store self = FSImagesStore basedir →
  Forall (λ thumb, no_sep thumb.1) (THUMBS self) →
  get_images self response request info = ((key, im, buf) :: items, ended) →
  FS_persist_image basedir key im buf info s = (inr tt, s1) →
  image_downloaded self response request info s = (r, s') →
  key = image_key (req_url request)
  ∧ os.node_at (fs s') (FS_get_filesystem_path basedir key)
    = Some (File (clock s) (getvalue buf)).
Proof.
  intros Hstore Hnames Hgen Hfirst Hrun.
  assert (Hparts : key = image_key (req_url request)
                   ∧ Image_encode "JPEG" im = inr (getvalue buf)
                   ∧ get_thumbs (req_url request) im (THUMBS self) = (items, ended)).
  { revert Hgen. unfold get_images.
    destruct (Image_open _) as [err|orig]; [done|].
    destruct (im_size orig) as [width height]. destruct (_ || _); [done|].
    destruct (convert_image orig None) as [e|[im' buf']] eqn:Hconv; [done|].
    destruct (get_thumbs _ _ _) as [items' e'] eqn:Hthumbs.
    intros [= <- <- <- <- <-].
    apply convert_image_encoded in Hconv as [Henc _]. by rewrite Hthumbs. }
  destruct Hparts as (-> & Henc & Hthumbs). split; [done|].
  unfold image_downloaded in Hrun. rewrite Hgen in Hrun. simpl in Hrun.
  rewrite Hstore in Hrun. simpl in Hrun.
  unfold bind at 1 2 3 in Hrun. rewrite Hfirst in Hrun.
  cbv beta iota delta [ret] in Hrun.
  apply bind_inr in Hfirst as ([] & s2 & Hmkdir & Hsave).
  destruct (steady_FS_mkdir (λ _, true) _ _ (λ _ _, eq_refl) _ _ _ Hmkdir) as [Hc _].
  apply Image_save_file_inr in Hsave
    as (format & data & Hext & Henc' & Hres & Hent & Hcwd).
  rewrite image_key_path_ext in Hext.
  change (EXTENSION !! Py.lower ".jpg") with (Some "JPEG") in Hext.
  injection Hext as <-. rewrite Henc in Henc'. injection Henc' as <-.
  rewrite Hc in Hent.
  pose proof (thumbs_keep_primary self basedir _ _ _ _ (cwd (fs s2)) Hthumbs Hnames)
    as Hitems.
  pose proof (keeps_entry_persist_images _ _ self basedir info items (Some buf)
                Hstore Hitems) as Hkeep.
  destruct (persist_images self info items (Some buf) s1) as [[e|fb] s3] eqn:Hrest.
  - injection Hrun as _ <-.
    eapply keeps_entry_node_at; [by eapply Hkeep|done..].
  - assert (s' = s3) as ->.
    { destruct ended; [by injection Hrun|]. destruct fb; by injection Hrun. }
    eapply keeps_entry_node_at; [by eapply Hkeep|done..].
Qed.

(** *** The exceptions of [media_downloaded] *)

Lemma not_too_small_mkdir name now (m m' : filesystem) e :
  os.mkdir name now m = (Some e, m') → not_too_small e.
Proof. unfold os.mkdir. intros H. by repeat case_match; simplify_eq. Qed.

Lemma not_too_small_makedirs_rec fuel name now (m m' : filesystem) e :
  os.makedirs_rec fuel name now m = (Some e, m') → not_too_small e.
Proof.
  revert name m m' e. induction fuel as [|fuel IH]; intros name m m' e; simpl;
    intros Hrun; repeat case_match; simplify_eq; eauto using not_too_small_mkdir; done.
Qed.

Lemma not_too_small_FS_mkdir dirname domain :
  raises_only not_too_small (FS_mkdir dirname domain).
Proof.
  unfold FS_mkdir. rstep.
  - destruct domain as [d|]; [|rstep]. destruct (dkey_truthy _); [|rstep].
    rstep; [rstep|]. destruct (_ !! d); [rstep|]. rstep; rstep.
  - case_bool_decide; [rstep|]. rstep.
    + unfold os.path_exists, emit. rstep; [rstep|]. rstep; rstep.
    + rstep.
      * match goal with |- raises_only _ (if ?b then _ else _) => destruct b end;
          [rstep|]. unfold os.makedirs, emit. rstep; [rstep|].
        intros s e s'. destruct (os.makedirs_rec _ _ _ _) as [[e'|] m'] eqn:E;
          intros [= <- _]. by eapply not_too_small_makedirs_rec.
      * destruct domain as [d|]; [|rstep]. destruct (dkey_truthy _); rstep.
Qed.

Lemma not_too_small_Image_save_file im p :
  raises_only not_too_small (Image_save_file im p).
Proof.
  unfold Image_save_file, emit. rstep; [rstep|].
  destruct (EXTENSION !! _); [|rstep]. rstep.
  - unfold os.open_wb. rstep; [rstep|]. repeat case_match; repeat rstep.
  - destruct (Image_encode _ _); [rstep|]. unfold os.write_file. rstep; rstep.
Qed.

Lemma not_too_small_store_persist_image st key im buf info :
  raises_only not_too_small (store_persist_image st key im buf info).
Proof.
  destruct st as [basedir|bucket prefix s3_spider]; simpl.
  - rstep; [|rstep]. unfold FS_persist_image. rstep.
    + apply not_too_small_FS_mkdir.
    + apply not_too_small_Image_save_file.
  - rstep; [|rstep]. unfold S3_persist_image.
    destruct (im_size im) as [width height]. simpl. rstep; [|rstep].
    unfold S3_download_request, scrapyengine_schedule, scrapyengine_download, emit.
    destruct s3_spider; (rstep; rstep).
Qed.

Lemma not_too_small_persist_images self info items first_buf :
  raises_only not_too_small (persist_images self info items first_buf).
Proof.
  revert first_buf. induction items as [|[[key im] buf] items IH];
    intros first_buf; simpl; [rstep|].
  rstep; [apply not_too_small_store_persist_image|apply IH].
Qed.

Lemma not_too_small_convert_image im size e :
  convert_image im size = inl e → not_too_small e.
Proof.
  unfold convert_image. intros H. by repeat case_match; simplify_eq.
Qed.

Lemma not_too_small_get_thumbs url im thumbs items e :
  get_thumbs url im thumbs = (items, Some e) → not_too_small e.
Proof.
  revert items. induction thumbs as [|[thumb_id size] thumbs IH]; intros items;
    simpl; [done|].
  destruct (convert_image im size) as [e'|[timg tbuf]] eqn:Hc.
  - intros [= _ <-]. by eapply not_too_small_convert_image.
  - destruct (get_thumbs url im thumbs) as [items' e'']. intros [= _ ->]. by eapply IH.
Qed.

Lemma not_too_small_image_downloaded self response request info orig :
  Image_open (resp_body response) = inr orig →
  (MIN_WIDTH self ≤ (im_size orig).1)%Z → (MIN_HEIGHT self ≤ (im_size orig).2)%Z →
  raises_only not_too_small (image_downloaded self response request info).
Proof.
  intros Hopen Hw Hh. unfold image_downloaded, get_images. rewrite Hopen.
  destruct (im_size orig) as [width height]. simpl in Hw, Hh.
  assert ((width <? MIN_WIDTH self)%Z || (height <? MIN_HEIGHT self)%Z = false) as ->.
  { apply orb_false_iff. by rewrite !Z.ltb_ge. }
  destruct (convert_image orig None) as [e'|[im buf]] eqn:Hconv.
  - rstep; [rstep|]. apply raises_only_raise.
    by eapply not_too_small_convert_image.
  - destruct (get_thumbs _ _ _) as [items ended] eqn:Hthumbs.
    rstep; [apply not_too_small_persist_images|].
    destruct ended as [e'|].
    + apply raises_only_raise. by eapply not_too_small_get_thumbs.
    + match goal with |- raises_only _ (match ?b with _ => _ end) => destruct b end;
        rstep.
Qed.

(** X8.  The too-small error is exact.  For a response with status 200 and
    a body that decodes, [media_downloaded] fails with the too-small error
    exactly when the width of the decoded image is less than [MIN_WIDTH] or
    its height less than [MIN_HEIGHT]; an image whose sizes equal the
    minimums is accepted, and no failure of conversion or of the store is
    reported as too small. *)
Theorem too_small_exactly_below_minimum self response request info s orig r s' :
  resp_status response = 200%Z → resp_body response ≠ "" →
  Image_open (resp_body response) = inr orig →
  media_downloaded self response request info s = (r, s') →
  (∃ e, r = inl e ∧ is_too_small e = true)
  ↔ ((im_size orig).1 < MIN_WIDTH self ∨ (im_size orig).2 < MIN_HEIGHT self)%Z.
Proof.
  intros Hstatus Hbody Hopen.
  rewrite (media_downloaded_proceeds _ _ _ _ _ Hstatus Hbody). cbv zeta.
  match goal with |- context [image_downloaded _ _ _ _ ?s0] => generalize s0 end.
  intros s0.
  destruct (decide ((im_size orig).1 < MIN_WIDTH self
                    ∨ (im_size orig).2 < MIN_HEIGHT self)%Z) as [Hsmall|Hfits].
  - assert (Himg : image_downloaded self response request info s0
                   = (inl (ImageException
                             (TooSmall (im_size orig).1 (im_size orig).2
                                (MIN_WIDTH self) (MIN_HEIGHT self)
                                (resp_url response))), s0)).
    { unfold image_downloaded, get_images. rewrite Hopen.
      destruct (im_size orig) as [width height]. simpl in *.
      assert ((width <? MIN_WIDTH self)%Z || (height <? MIN_HEIGHT self)%Z = true)
        as ->; [|done].
      apply orb_true_iff. by rewrite !Z.ltb_lt. }
    rewrite Himg. intros [= <- _]. split; [done|]. intros _. by eexists.
  - destruct (image_downloaded self response request info s0) as [[e|c] s2] eqn:Himg.
    + intros [= <- _]. split; [|done]. intros (e' & [= <-] & He). exfalso.
      apply not_too_small_image_downloaded with (orig := orig) in Himg;
        [|done|lia|lia]. unfold not_too_small in Himg. congruence.
    + intros [= <- _]. split; [|done]. by intros (e' & ? & _).
Qed.

(** *** The counters of the statistics *)

Lemma stats_count_app key domain l1 l2 :
  stats_count key domain (l1 ++ l2)
  = stats_count key domain l1 + stats_count key domain l2.
Proof. unfold stats_count. by rewrite filter_app, length_app. Qed.

Lemma stats_count_no_report key domain l :
  forallb (λ e, negb (is_report e)) l = true → stats_count key domain l = 0.
Proof.
  unfold stats_count. induction l as [|e l IH]; [done|]. simpl.
  intros [He Hl]%andb_true_iff. rewrite filter_cons_False; [by apply IH|].
  by destruct e.
Qed.

Lemma stats_count_add_event key domain e s :
  stats_count key domain (events (add_event e s))
  = stats_count key domain (events s) + (if is_stats_inc key domain e then 1 else 0).
Proof.
  simpl. rewrite stats_count_app. f_equal. unfold stats_count.
  destruct (is_stats_inc key domain e) eqn:He.
  - by rewrite filter_cons_True.
  - rewrite filter_cons_False; [done|]. by rewrite He.
Qed.

(** X9.  What the counters count.  [media_downloaded] increments
    [image_count] and [image_status_count/<status>] of the domain, each
    exactly once, when the response has status 200 and a body, and not at
    all otherwise; [<status>] is [cached] when the response carries the
    flag of that name and [downloaded] when it does not.  The increment
    comes before the image is decoded, so it is made whether or not the
    image is then accepted and stored. *)
Theorem image_count_once_per_usable_response self response request info s r s' :
  media_downloaded self response request info s = (r, s') →
  let usable :=
    bool_decide (resp_status response = 200%Z)
    && negb (bool_decide (resp_body response = "")) in
  let status :=
    if bool_decide ("cached" ∈ resp_flags response) then "cached" else "downloaded" in
  let domain := info_domain info in
  stats_count "image_count" domain (events s')
  = stats_count "image_count" domain (events s) + (if usable then 1 else 0)
  ∧ stats_count ("image_status_count/" +:+ status) domain (events s')
    = stats_count ("image_status_count/" +:+ status) domain (events s)
      + (if usable then 1 else 0).
Proof.
  intros Hrun usable status domain. subst usable.
  destruct (decide (resp_status response = 200%Z)) as [H1|H1];
    [destruct (decide (resp_body response = "")) as [H2|H2]|].
  - rewrite (media_downloaded_empty_content _ _ _ _ _ H1 H2) in Hrun.
    injection Hrun as _ <-.
    rewrite (bool_decide_eq_true_2 _ H1), (bool_decide_eq_true_2 _ H2).
    by rewrite !stats_count_add_event.
  - rewrite (media_downloaded_proceeds _ _ _ _ _ H1 H2) in Hrun. cbv zeta in Hrun.
    rewrite (bool_decide_eq_true_2 _ H1), (bool_decide_eq_false_2 _ H2).
    fold status domain in Hrun.
    match type of Hrun with context [image_downloaded _ _ _ _ ?s0] =>
      set (s1 := s0) in * end.
    assert (Hs1 : ∀ key,
              stats_count key domain (events s1)
              = stats_count key domain (events s)
                + (if is_stats_inc key domain (StatsInc "image_count" domain)
                   then 1 else 0)
                + (if is_stats_inc key domain
                        (StatsInc ("image_status_count/" +:+ status) domain)
                   then 1 else 0)).
    { intros key. unfold s1. by rewrite !stats_count_add_event, Nat.add_0_r. }
    assert (HQ : ∀ e, is_report e = false → negb (is_report e) = true)
      by (by intros e ->).
    destruct (image_downloaded self response request info s1) as [[e|c] s2] eqn:Himg.
    all: destruct (steady_image_downloaded (λ e, negb (is_report e)) _ _ _ _
                     HQ _ _ _ Himg) as (_ & l & Hl & Hno).
    all: injection Hrun as _ <-.
    all: rewrite ?stats_count_add_event, Hl, !stats_count_app,
           !(stats_count_no_report _ _ l Hno), !Hs1.
    all: unfold is_stats_inc; rewrite !bool_decide_eq_true_2 by done.
    all: destruct (bool_decide ("cached" ∈ resp_flags response)); simpl; lia.
  - rewrite (media_downloaded_http_error _ _ _ _ _ H1) in Hrun.
    injection Hrun as _ <-. rewrite (bool_decide_eq_false_2 _ H1).
    by rewrite !stats_count_add_event.
Qed.

(** X10.  A body that cannot be decoded: for a response with status 200
    and a body for which [Image.open] fails, [media_downloaded] raises the
    decoder's [IOError] as it is, having only reported to the log and the
    statistics; nothing is stored. *)
Theorem undecodable_body_raises_decoder_error self response request info s msg :
  resp_status response = 200%Z → resp_body response ≠ "" →
  Image_open (resp_body response) = inl msg →
  ∃ s', media_downloaded self response request info s = (inl (IOError msg), s')
        ∧ only_calls is_report s s'
        ∧ get_images self response request info = ([], Some (IOError msg)).
Proof.
  intros Hstatus Hbody Hopen.
  assert (Hgen : get_images self response request info = ([], Some (IOError msg))).
  { unfold get_images. by rewrite Hopen. }
  rewrite (media_downloaded_proceeds _ _ _ _ _ Hstatus Hbody).
  unfold image_downloaded. rewrite Hgen. simpl.
  eexists. split; [done|]. split; [|done].
  etrans; [|by apply only_calls_add_event].
  etrans; [|by apply only_calls_add_event].
  etrans; [|by apply only_calls_add_event].
  by apply only_calls_add_event.
Qed.

(** *** The URI of the store *)


(** X11.  A [file://] URI and its path configure the same store: for a
    path [p] that has no scheme of its own, [IMAGES_STORE = "file://" + p]
    and [IMAGES_STORE = p] make [ImagesPipeline()] do the same and return
    the same; a pipeline that is returned has the file system store with
    base directory [p], whose cache of created directories is empty. *)
Theorem file_uri_names_its_path settings p s :
  p ≠ "" → urlparse_scheme p = "" → Py.has_substring "://" p = false →
  ImagesPipeline_init (with_store settings ("file://" +:+ p)) s
  = ImagesPipeline_init (with_store settings p) s
  ∧ ∀ self s',
      ImagesPipeline_init (with_store settings p) s = (inr self, s') →
      pipeline_store self = FSImagesStore p ∧ created_directories s' = ∅.
Proof.
  intros Hp Hscheme Hsub.
  assert (Hfile : _get_store (with_store settings ("file://" +:+ p)) ("file://" +:+ p)
                  = FS_init p).
  { unfold _get_store.
    assert (urlparse_scheme ("file://" +:+ p) = "file") as -> by reflexivity.
    assert (STORE_SCHEMES !! "file" = Some FSImagesStore_class) as -> by reflexivity.
    unfold construct_store, FS_init.
    assert (Py.has_substring "://" ("file://" +:+ p) = true) as -> by (by destruct p).
    assert (Py.split_once "://" ("file://" +:+ p) = Some ("file", p)) as ->
      by (by destruct p).
    by rewrite Hsub. }
  assert (Hpath : _get_store (with_store settings p) p = FS_init p).
  { unfold _get_store. rewrite Hscheme.
    assert (STORE_SCHEMES !! "" = Some FSImagesStore_class) as -> by reflexivity.
    done. }
  unfold ImagesPipeline_init. simpl. rewrite Hfile, Hpath.
  rewrite (bool_decide_eq_false_2 (p = "")) by done. split; [done|].
  intros self s' Hrun. apply bind_inr in Hrun as (st & s1 & Hinit & Hret).
  injection Hret as <- <-. simpl. unfold FS_init in Hinit. rewrite Hsub in Hinit.
  apply bind_inr in Hinit as ([] & s2 & _ & Hinit).
  apply bind_inr in Hinit as ([] & s3 & [= <-] & Hinit).
  apply bind_inr in Hinit as ([] & s4 & [= <-] & Hinit).
  by injection Hinit as <- <-.
Qed.


(** *** The check before a fetch on the remote store *)

Lemma inject_Z_zero (z : Z) : (inject_Z z == 0)%Q ↔ z = 0%Z.
Proof. unfold Qeq, inject_Z. simpl. lia. Qed.

(** The event by which a request is handed to the engine, and the spider it
    is handed for. *)
Lemma S3_download_request_run s3_spider request info s :
  ∃ e, S3_download_request s3_spider request info s
       = (inr (engine_outcome request (default (info_spider info) s3_spider)),
          add_event e s)
       ∧ e = match s3_spider with
             | Some spider => EngineSchedule request spider
             | None => EngineDownload request (info_spider info)
             end.
Proof. destruct s3_spider; by eexists. Qed.

(** X13.  The check before a fetch on the remote store is decided by the
    answer of the engine to the [HEAD] request for the key.  The result is
    [None], which forces the download, when the request fails, when the
    status of the response is not 200, when the response lacks the [Etag]
    or the [Last-Modified] header or the date cannot be parsed, when the
    date is the epoch, and when the age in days, computed in the arithmetic
    of doubles, exceeds [EXPIRES]; otherwise it is the URL, the key and, as
    checksum, the [Etag] without its quotes.  No failure of the request or
    of reading the response is raised or reported as a failure of the
    check. *)
Theorem remote_check_follows_head_response
    self bucket prefix s3_spider request info s :
  pipeline_store self = S3ImagesStore bucket prefix s3_spider →
  let key := image_key (req_url request) in
  let req := S3_build_request bucket prefix key "HEAD" None ∅ in
  let spider := default (info_spider info) s3_spider in
  ∃ s',
    media_to_download self request info s
    = (inr (inr
         match engine_outcome req spider with
         | inl _ => None
         | inr response =>
             if bool_decide (resp_status response = 200%Z) then
               match resp_headers response !! "Etag",
                     resp_headers response !! "Last-Modified" ≫= rfc822_stamp with
               | Some etag, Some stamp =>
                   if bool_decide (stamp = 0%Z) then None
                   else if Binary64.float_gt (age_days (clock s) (inject_Z stamp))
                                             (EXPIRES self)
                   then None
                   else Some {[ "url" := VStr (req_url request);
                                "path" := VStr key;
                                "checksum" := VStr (Py.strip "034"%char etag) ]}
               | _, _ => None
               end
             else None
         end), s')
    ∧ clock s' = clock s.
Proof.
  intros Hstore key req spider.
  destruct (S3_download_request_run s3_spider req info s) as (ev & Hreq & _).
  fold spider in Hreq.
  assert (Hstat :
    store_stat_image (pipeline_store self) key info s
    = match engine_outcome req spider with
      | inl e => (inr (inl e), add_event ev s)
      | inr response =>
          let '(r, s2) := S3_stat_onsuccess response (add_event ev s) in (inr r, s2)
      end).
  { rewrite Hstore. simpl. unfold S3_stat_image.
    fold key req. rewrite (bind_run _ _ _ _ _ Hreq). unfold addCallback.
    destruct (engine_outcome req spider) as [e|response]; [done|].
    unfold maybeDeferred.
    by destruct (S3_stat_onsuccess response (add_event ev s)) as [[e|d] s2]. }
  revert Hstat. unfold S3_stat_onsuccess.
  destruct (engine_outcome req spider) as [e|response].
  { intros Hstat. rewrite (media_to_download_run _ _ _ _ _ _ Hstat). by eexists. }
  destruct (bool_decide (resp_status response = 200%Z)).
  2:{ intros Hstat. rewrite (media_to_download_run _ _ _ _ _ _ Hstat). by eexists. }
  destruct (resp_headers response !! "Etag") as [etag|].
  2:{ intros Hstat. rewrite (media_to_download_run _ _ _ _ _ _ Hstat). by eexists. }
  destruct (resp_headers response !! "Last-Modified") as [last_modified|]; simpl.
  2:{ intros Hstat. rewrite (media_to_download_run _ _ _ _ _ _ Hstat). by eexists. }
  destruct (rfc822_stamp last_modified) as [stamp|].
  2:{ intros Hstat. rewrite (media_to_download_run _ _ _ _ _ _ Hstat). by eexists. }
  intros Hstat. rewrite (media_to_download_run _ _ _ _ _ _ Hstat).
  case_bool_decide as Hstamp.
  - rewrite to_download_onsuccess_missing; [by eexists|].
    right. unfold dict_get. rewrite lookup_insert_ne by done.
    rewrite lookup_singleton_eq. apply truthy_num. by apply inject_Z_zero.
  - rewrite (to_download_onsuccess_timestamp _ _ _ _ _ (inject_Z stamp));
      [|by apply insert_non_empty
       |by rewrite lookup_insert_ne, lookup_singleton_eq
       |by rewrite inject_Z_zero].
    change (clock (add_event ev s)) with (clock s).
    destruct (Binary64.float_gt _ _); [by eexists|].
    unfold dict_get. rewrite lookup_insert_eq. by eexists.
Qed.

(** *** The files of the variants *)

Lemma str_app_inv_tail (s t x : string) : s +:+ x = t +:+ x → s = t.
Proof.
  revert t. induction s as [|a s IH]; intros [|b t] H.
  - done.
  - apply (f_equal String.length) in H. rewrite !str_length_app in H.
    simpl in H. lia.
  - apply (f_equal String.length) in H. rewrite !str_length_app in H.
    simpl in H. lia.
  - rewrite !str_app_cons in H. injection H as -> H. f_equal. by apply IH.
Qed.

Lemma thumb_key_inj_name url (t1 t2 : string) :
  thumb_key url t1 = thumb_key url t2 → t1 = t2.
Proof.
  unfold thumb_key. intros H%(inj (String.app "thumbs/")).
  by apply str_app_inv_tail in H.
Qed.

(** X14.  Each variant has a file of its own exactly when the thumbnails
    have names of their own: when the names in [THUMBS] are plain (no
    separator in them, and none of them empty, [.] or [..]), the entries of
    the file system to which the variants of one image are written are
    pairwise distinct if and only if no two entries of [THUMBS] have the
    same name.  The primary image then shares its entry with no
    thumbnail. *)
Theorem variants_have_files_of_their_own self basedir url cw :
  Forall plain_name (map fst (THUMBS self)) →
  NoDup (map (λ key, os.lex_key cw (FS_get_filesystem_path basedir key))
             (variant_keys self url))
  ↔ NoDup (map fst (THUMBS self)).
Proof.
  intros Hplain. unfold variant_keys.
  destruct (variant_lex_keys cw basedir url) as (base & Himg & Hthumb).
  simpl. rewrite Himg, map_map.
  set (file := λ t : string, base ++ ["thumbs"; t; Sha1.hexdigest url +:+ ".jpg"]).
  assert (Hmap : map (λ thumb : string * option (Z * Z),
                        os.lex_key cw (FS_get_filesystem_path basedir
                                         (thumb_key url thumb.1)))
                     (THUMBS self)
                 = map file (map fst (THUMBS self))).
  { rewrite map_map. revert Hplain. generalize (THUMBS self). intros thumbs.
    induction thumbs as [|thumb thumbs IH]; simpl; [done|].
    intros [(Hsep & H1 & H2 & H3) Hrest]%Forall_cons. rewrite (IH Hrest). f_equal.
    rewrite (Hthumb _ Hsep), (step_plain _ _ H1 H2 H3). unfold file.
    by rewrite <- !(assoc_L (++)). }
  rewrite Hmap. generalize (map fst (THUMBS self)). intros ids.
  change (map file ids) with (file <$> ids).
  assert (Hinj : Inj (=) (=) file).
  { intros t1 t2 Heq%(inj (app base)). by injection Heq. }
  rewrite NoDup_cons, NoDup_fmap by done. split; [by intros [_ ?]|].
  intros Hnodup. split; [|done].
  intros (t & Heq & _)%list_elem_of_fmap.
  apply (inj (app base)) in Heq. discriminate Heq.
Qed.

(** *** Expiry over time *)

Lemma FS_stat_image_cases basedir key info s :
  FS_stat_image basedir key info s
  = (match os.node_at (fs s) (FS_get_filesystem_path basedir key) with
     | None => inr ∅
     | Some (File t data) =>
         inr {[ "last_modified" := VNum t; "checksum" := VStr (md5_hexdigest data) ]}
     | Some (Dir _) => inl (IOError "Is a directory")
     end, s).
Proof.
  unfold FS_stat_image, try_except, os.path_getmtime, os.read_file, os.node_at,
    bind, get_state, raise, ret. simpl.
  destruct (os.resolve (fs s) (FS_get_filesystem_path basedir key)) as [e|k] eqn:R;
    [done|].
  destruct (os.entry (tree (fs s)) k) as [[t data|t]|] eqn:E; simpl; rewrite ?R, ?E; done.
Qed.

(** What [stat_image] delivers does not depend on the time. *)
Lemma store_stat_image_set_clock st key info s now :
  store_stat_image st key info (set_clock now s)
  = ((store_stat_image st key info s).1,
     set_clock now (store_stat_image st key info s).2).
Proof.
  destruct st as [basedir|bucket prefix s3_spider]; simpl.
  - unfold maybeDeferred, bind. rewrite !FS_stat_image_cases. simpl.
    by destruct (os.node_at (fs s) _) as [[t data|t]|].
  - unfold S3_stat_image.
    destruct (S3_download_request_run s3_spider
                (S3_build_request bucket prefix key "HEAD" None ∅) info s)
      as (ev & Hreq & Hev).
    destruct (S3_download_request_run s3_spider
                (S3_build_request bucket prefix key "HEAD" None ∅) info
                (set_clock now s)) as (ev' & Hreq' & Hev').
    assert (ev' = ev) as -> by congruence.
    rewrite (bind_run _ _ _ _ _ Hreq), (bind_run _ _ _ _ _ Hreq').
    destruct (engine_outcome _ _) as [e|response]; [reflexivity|].
    unfold addCallback, maybeDeferred, S3_stat_onsuccess.
    destruct (bool_decide _); [|reflexivity].
    destruct (_ !! "Etag"); [|reflexivity].
    destruct (_ !! "Last-Modified"); [|reflexivity].
    destruct (rfc822_stamp _); reflexivity.
Qed.

Lemma to_download_onsuccess_earlier self request info key result s now now' r s1 :
  (now' <= now)%Q →
  to_download_onsuccess self request info key result (set_clock now s)
  = (inr (Some r), s1) →
  ∃ s2, to_download_onsuccess self request info key result (set_clock now' s)
        = (inr (Some r), s2).
Proof.
  intros Hle. destruct result as [d|]; [|done].
  destruct (decide (d = ∅)) as [->|Hd].
  { by rewrite to_download_onsuccess_missing by (by left). }
  destruct (d !! "last_modified") as [[|lm|str]|] eqn:Hlm.
  - by rewrite to_download_onsuccess_missing
      by (right; unfold dict_get; by rewrite Hlm).
  - destruct (Qeq_dec lm 0) as [Hz|Hnz].
    { by rewrite to_download_onsuccess_missing
        by (right; unfold dict_get; rewrite Hlm; by apply truthy_num). }
    rewrite !(to_download_onsuccess_timestamp _ _ _ _ d lm) by done.
    change (clock (set_clock now s)) with now.
    change (clock (set_clock now' s)) with now'.
    destruct (Binary64.float_gt (age_days now lm) _) eqn:Hnow; [done|].
    assert (Binary64.float_gt (age_days now' lm) (EXPIRES self) = false) as ->.
    { eapply float_gt_mono; [|exact Hnow]. unfold age_days.
      do 3 apply float_div_mono. by apply float_sub_mono. }
    intros [= <- _]. by eexists.
  - unfold to_download_onsuccess. rewrite bool_decide_eq_false_2 by done.
    unfold dict_get. rewrite Hlm. simpl. by destruct (bool_decide (str = "")).
  - by rewrite to_download_onsuccess_missing
      by (right; unfold dict_get; by rewrite Hlm).
Qed.

(** X15.  Expiry is monotone in time, on either store: if the check at
    the time [now] finds the stored image up to date, then the check of the
    same state at any earlier time finds it up to date as well, with the
    same result.  So an image that is found expired is found expired at
    every later time, as long as it is not stored again. *)
Theorem uptodate_at_earlier_times self request info s now now' r s1 :
  (now' <= now)%Q →
  media_to_download self request info (set_clock now s) = (inr (inr (Some r)), s1) →
  ∃ s2, media_to_download self request info (set_clock now' s)
        = (inr (inr (Some r)), s2).
Proof.
  intros Hle Hrun.
  pose proof (store_stat_image_set_clock (pipeline_store self)
                (image_key (req_url request)) info s now) as Hnow.
  pose proof (store_stat_image_set_clock (pipeline_store self)
                (image_key (req_url request)) info s now') as Hnow'.
  destruct (store_stat_image_deferred (pipeline_store self)
              (image_key (req_url request)) info s) as (dfd & s0 & Hstat).
  rewrite Hstat in Hnow, Hnow'. simpl in Hnow, Hnow'.
  rewrite (media_to_download_run _ _ _ _ _ _ Hnow) in Hrun.
  rewrite (media_to_download_run _ _ _ _ _ _ Hnow').
  destruct dfd as [e|result]; [done|].
  destruct (to_download_onsuccess self request info _ result (set_clock now s0))
    as [[e|res] s2] eqn:Hdecide; [done|].
  injection Hrun as -> <-.
  destruct (to_download_onsuccess_earlier _ _ _ _ _ _ _ _ _ _ Hle Hdecide)
    as (s3 & ->).
  by eexists.
Qed.

(** *** The cache of directories and the end of a session *)

Lemma dir_work_set_fs d f s : dir_work d (set_fs f s) = dir_work d s.
Proof. reflexivity. Qed.

Lemma dir_work_set_created_directories d f s :
  dir_work d (set_created_directories f s) = dir_work d s.
Proof. reflexivity. Qed.

(** [_mkdir] for a directory that the cache of the key does not hold. *)
Lemma FS_mkdir_uncached dirname k s :
  dkey_truthy (Some k) = true →
  (∀ seen, created_directories s !! k = Some seen → dirname ∉ seen) →
  let cache :=
    match created_directories s !! k with
    | Some _ => created_directories s
    | None => <[k := ∅]> (created_directories s)
    end in
  let s1 := add_event (OsPathExists dirname) (set_created_directories (λ _, cache) s) in
  let record := set_created_directories (alter (union {[dirname]}) k) in
  FS_mkdir dirname (Some k) s
  = if os.exists_at (fs s) dirname then (inr tt, record s1)
    else match os.makedirs_rec (String.length dirname) dirname (clock s) (fs s) with
         | (Some e, fs') =>
             (inl e, set_fs (λ _, fs') (add_event (OsMakedirs dirname) s1))
         | (None, fs') =>
             (inr tt, record (set_fs (λ _, fs') (add_event (OsMakedirs dirname) s1)))
         end.
Proof.
  intros Hk Hnew. unfold FS_mkdir. rewrite Hk.
  unfold bind at 1. unfold bind at 1. unfold get_state at 1.
  destruct (created_directories s !! k) as [seen|] eqn:Hseen.
  - simpl. rewrite bool_decide_eq_false_2 by (by apply Hnew).
    assert (set_created_directories (λ _, created_directories s) s = s) as ->
      by (by destruct s).
    unfold os.path_exists, os.makedirs, emit, modify, bind, get_state, ret. simpl.
    destruct (os.exists_at (fs s) dirname); [done|].
    by destruct (os.makedirs_rec _ _ _ _) as [[e|] fs'].
  - simpl. rewrite bool_decide_eq_false_2 by apply not_elem_of_empty.
    unfold os.path_exists, os.makedirs, emit, modify, bind, get_state, ret. simpl.
    destruct (os.exists_at (fs s) dirname); [done|].
    by destruct (os.makedirs_rec _ _ _ _) as [[e|] fs'].
Qed.

(** X16.  The end of a session resets the cache for its key: after
    [domain_closed(k)], the next [_mkdir] of a directory for the key [k]
    does the work again, whatever the cache held before: it asks whether
    the directory exists and, if it does not, tries to create it.  If the
    call returns, the directory is in the cache of [k] again; if it fails,
    it is not. *)
Theorem domain_closed_resets_cache_of_its_key k dirname s r s' :
  dkey_truthy (Some k) = true →
  FS_mkdir dirname (Some k) (FS_domain_closed k s).2 = (r, s') →
  dir_work dirname s'
  = dir_work dirname s + (if os.exists_at (fs s) dirname then 1 else 2)
  ∧ (r = inr tt → cache_has s' k dirname)
  ∧ (r ≠ inr tt → ¬ cache_has s' k dirname).
Proof.
  intros Hk. rewrite FS_mkdir_uncached; [|done|].
  2:{ intros seen. simpl. by rewrite lookup_delete_eq. }
  cbv zeta. change (fs (FS_domain_closed k s).2) with (fs s).
  change (clock (FS_domain_closed k s).2) with (clock s).
  change (created_directories (FS_domain_closed k s).2)
    with (delete k (created_directories s)).
  rewrite lookup_delete_eq.
  assert (Hexists : is_dir_work dirname (OsPathExists dirname) = true)
    by (by apply bool_decide_eq_true_2).
  assert (Hmakedirs : is_dir_work dirname (OsMakedirs dirname) = true)
    by (by apply bool_decide_eq_true_2).
  assert (Hcached : ∀ s0,
            cache_has
              (set_created_directories (alter (union {[dirname]}) k)
                 (set_created_directories
                    (λ _, <[k:=∅]> (delete k (created_directories s))) s0))
              k dirname).
  { intros s0. exists ({[dirname]} ∪ ∅). simpl.
    rewrite lookup_alter_eq, lookup_insert_eq. split; [done|].
    apply elem_of_union. left. by apply elem_of_singleton. }
  destruct (os.exists_at (fs s) dirname).
  - intros [= <- <-]. split_and!; [|intros _|done].
    + by rewrite dir_work_set_created_directories, dir_work_add_event,
        dir_work_set_created_directories, Hexists.
    + apply (Hcached (add_event (OsPathExists dirname) (FS_domain_closed k s).2)).
  - destruct (os.makedirs_rec _ _ _ _) as [[e|] fs']; intros [= <- <-];
      (split_and!; [|intros ?|intros ?]); try done.
    + rewrite dir_work_set_fs, !dir_work_add_event,
        dir_work_set_created_directories, Hexists, Hmakedirs.
      unfold dir_work. simpl. lia.
    + intros (seen & Hseen & Hin). simpl in Hseen.
      rewrite lookup_insert_eq in Hseen. injection Hseen as <-.
      by apply not_elem_of_empty in Hin.
    + rewrite dir_work_set_created_directories, dir_work_set_fs,
        !dir_work_add_event, dir_work_set_created_directories, Hexists, Hmakedirs.
      unfold dir_work. simpl. lia.
    + apply (Hcached (set_fs (λ _, fs')
                        (add_event (OsMakedirs dirname)
                           (add_event (OsPathExists dirname)
                              (FS_domain_closed k s).2)))).
Qed.

(** X17.  A failure is not remembered: when [_mkdir] raises, the
    directory is not in the cache of the key afterwards, and no directory
    has been added to the cache of any key; so the next call for it tries
    again. *)
Theorem failed_mkdir_is_not_cached k dirname s e s' :
  dkey_truthy (Some k) = true →
  FS_mkdir dirname (Some k) s = (inl e, s') →
  ¬ cache_has s' k dirname
  ∧ (∀ k' d, cache_has s' k' d → cache_has s k' d)
  ∧ ∃ r s'', FS_mkdir dirname (Some k) s' = (r, s'')
             ∧ dir_work dirname s' < dir_work dirname s''.
Proof.
  intros Hk Hrun.
  assert (Hnew' : ∀ seen, created_directories s !! k = Some seen → dirname ∉ seen).
  { intros seen Hseen Hin. revert Hrun. unfold FS_mkdir. rewrite Hk.
    unfold bind at 1. unfold bind at 1. unfold get_state at 1. rewrite Hseen.
    simpl. by rewrite bool_decide_eq_true_2. }
  assert (Hnew : ¬ cache_has s k dirname).
  { intros (seen & Hseen & Hin). by eapply Hnew'. }
  rewrite (FS_mkdir_uncached _ _ _ Hk Hnew') in Hrun. cbv zeta in Hrun.
  destruct (os.exists_at (fs s) dirname); [done|].
  destruct (os.makedirs_rec _ _ _ _) as [[e'|] fs'] eqn:Hmk; [|done].
  injection Hrun as <- <-.
  assert (Hcache : ∀ k' d,
            cache_has (set_fs (λ _, fs')
                         (add_event (OsMakedirs dirname)
                            (add_event (OsPathExists dirname)
                               (set_created_directories
                                  (λ _, match created_directories s !! k with
                                        | Some _ => created_directories s
                                        | None => <[k:=∅]> (created_directories s)
                                        end) s)))) k' d →
            cache_has s k' d).
  { intros k' d (seen & Hseen & Hin). simpl in Hseen.
    destruct (created_directories s !! k) eqn:Hk0; [by exists seen|].
    destruct (decide (k' = k)) as [->|Hne].
    - rewrite lookup_insert_eq in Hseen. injection Hseen as <-.
      by apply not_elem_of_empty in Hin.
    - rewrite lookup_insert_ne in Hseen by done. by exists seen. }
  split_and!.
  - intros Hc. by apply Hnew, Hcache.
  - exact Hcache.
  - match goal with |- context [FS_mkdir _ _ ?s0] => set (s1 := s0) end.
    assert (Hnew1 : ∀ seen, created_directories s1 !! k = Some seen → dirname ∉ seen).
    { intros seen Hseen Hin. apply Hnew, (Hcache k dirname). by exists seen. }
    rewrite (FS_mkdir_uncached _ _ _ Hk Hnew1). cbv zeta.
    assert (Hself : is_dir_work dirname (OsPathExists dirname) = true)
      by (by apply bool_decide_eq_true_2).
    destruct (os.exists_at (fs s1) dirname);
      [|destruct (os.makedirs_rec _ _ _ (fs s1)) as [[e''|] fs'']];
      eexists _, _; (split; [done|]).
    all: rewrite ?dir_work_set_created_directories, ?dir_work_set_fs,
           !dir_work_add_event, ?dir_work_set_created_directories, Hself.
    all: lia.
Qed.

(** *** Uploads to the remote store *)

Lemma persist_images_S3_returns self bucket prefix s3_spider info items fb s :
  pipeline_store self = S3ImagesStore bucket prefix s3_spider →
  ∃ fb' s',
    persist_images self info items fb s = (inr fb', s')
    ∧ match fb, items with
      | Some b, _ => fb' = Some b
      | None, [] => fb' = None
      | None, (_, _, buf) :: _ => ∃ b, fb' = Some b ∧ getvalue b = getvalue buf
      end.
Proof.
  intros Hstore. revert fb s.
  induction items as [|[[key im] buf] items IH]; intros fb s; simpl.
  - exists fb, s. split; [done|]. by destruct fb.
  - rewrite Hstore. simpl. unfold S3_persist_image.
    destruct (im_size im) as [width height]. simpl.
    match goal with
    | |- context [S3_download_request s3_spider ?req info] =>
        destruct (S3_download_request_run s3_spider req info s) as (ev & Hreq & _)
    end.
    unfold bind at 1 2 3. rewrite Hreq. cbv beta iota delta [ret snd].
    match goal with
    | |- context [persist_images self info items ?fb0 ?s0] =>
        destruct (IH fb0 s0) as (fb' & s' & Hrun & Hfb)
    end.
    exists fb', s'. split; [done|]. destruct fb as [b|]; [done|].
    simpl in Hfb. by eexists.
Qed.

(** On the remote store the outcome of [media_downloaded] is decided by the
    response and the variants alone. *)
Lemma media_downloaded_S3_outcome
    self bucket prefix s3_spider response request info s :
  pipeline_store self = S3ImagesStore bucket prefix s3_spider →
  (media_downloaded self response request info s).1
  = variants_outcome self response request info.
Proof.
  intros Hstore. unfold variants_outcome.
  destruct (decide (resp_status response = 200%Z)) as [H1|H1];
    [destruct (decide (resp_body response = "")) as [H2|H2]|].
  - rewrite (media_downloaded_empty_content _ _ _ _ _ H1 H2).
    by rewrite (bool_decide_eq_true_2 _ H1), (bool_decide_eq_true_2 _ H2).
  - rewrite (media_downloaded_proceeds _ _ _ _ _ H1 H2). cbv zeta.
    rewrite (bool_decide_eq_true_2 _ H1), (bool_decide_eq_false_2 _ H2). simpl.
    match goal with |- context [image_downloaded _ _ _ _ ?s0] => generalize s0 end.
    intros s0. unfold image_downloaded.
    destruct (get_images self response request info) as [items ended].
    destruct (persist_images_S3_returns self _ _ _ info items None s0 Hstore)
      as (fb & s1 & Hrun & Hfb).
    unfold bind. rewrite Hrun.
    destruct ended as [e|]; [by destruct items as [|[[? ?] ?] ?]|].
    destruct items as [|[[key im] buf] items].
    + by rewrite Hfb.
    + destruct Hfb as (b & -> & Hb). simpl. unfold md5sum. simpl.
      rewrite Hb. by destruct (getvalue buf).
  - rewrite (media_downloaded_http_error _ _ _ _ _ H1).
    by rewrite (bool_decide_eq_false_2 _ H1).
Qed.

End Images.

(** ** Runs on the sample collaborators *)

Abbreviation sample_media_downloaded :=
  (media_downloaded Sample.Image_open Sample.Image_convert Sample.Image_thumbnail
                    Sample.Image_encode Sample.md5_hexdigest Sample.engine_outcome).

Abbreviation sample_media_to_download :=
  (media_to_download Sample.md5_hexdigest Sample.engine_outcome Sample.rfc822_stamp).

Abbreviation sample_store_stat_image :=
  (store_stat_image Sample.md5_hexdigest Sample.engine_outcome Sample.rfc822_stamp).

Example sha1_empty : Sha1.hexdigest "" = "da39a3ee5e6b4b0d3255bfef95601890afd80709".
Proof. vm_refl. Qed.

Example sha1_abc : Sha1.hexdigest "abc" = "a9993e364706816aba3e25717850c26c9cd0d89d".
Proof. vm_refl. Qed.

Example image_key_example :
  image_key "http://example.com/a.jpg"
  = "full/99e087d9e04c1527ebd8026fd3cc31035e6c7210.jpg".
Proof. vm_refl. Qed.

Example thumb_key_example :
  thumb_key "http://example.com/a.jpg" "small"
  = "thumbs/small/99e087d9e04c1527ebd8026fd3cc31035e6c7210.jpg".
Proof. vm_refl. Qed.

Example dirname_example : os.path_dirname "/data/images/full/ab.jpg" = "/data/images/full".
Proof. reflexivity. Qed.

Example splitext_example :
  os.path_splitext "/data/images.d/full/ab.jpg" = ("/data/images.d/full/ab", ".jpg").
Proof. reflexivity. Qed.

Example splitext_dotfile : os.path_splitext "/data/full/.jpg" = ("/data/full/.jpg", "").
Proof. reflexivity. Qed.

Example join_example : os.path_join "/data/images" "full/ab.jpg" = "/data/images/full/ab.jpg".
Proof. reflexivity. Qed.

Example join_slash_example : os.path_join "/data/images/" "full/ab.jpg" = "/data/images/full/ab.jpg".
Proof. reflexivity. Qed.

Example makedirs_example :
  let '(r, fs') := os.makedirs_rec 20 "/data/images/full" 5 (mkFS ∅ []) in
  r = None
  ∧ tree fs' = {[ ["data"] := Dir 5; ["data"; "images"] := Dir 5;
                  ["data"; "images"; "full"] := Dir 5 ]}.
Proof. split; vm_refl. Qed.

(** A path is resolved through [.] and [..] and doubled separators, from
    the working directory when it does not start at the root. *)
Example resolve_example :
  let fs := mkFS {[ ["srv"] := Dir 0; ["srv"; "images"] := Dir 0;
                    ["srv"; "images"; "full"] := Dir 0;
                    ["srv"; "images"; "thumbs"] := Dir 0;
                    ["srv"; "images"; "full"; "ab.jpg"] := File 7 "x" ]} ["srv"] in
  os.resolve fs "images/thumbs/../full//./ab.jpg" = inr ["srv"; "images"; "full"; "ab.jpg"]
  ∧ os.resolve fs "/srv/images/small/../full/ab.jpg" = inl ENOENT
  ∧ os.resolve fs "images/full/ab.jpg/" = inl ENOTDIR
  ∧ os.resolve fs "/.." = inr []
  ∧ os.node_at fs "images/full/ab.jpg" = Some (File 7 "x").
Proof. split_and!; vm_refl. Qed.

(** [os.makedirs] of a directory that is there under another name raises
    the error of [os.mkdir], and has made the directories on the way. *)
Example makedirs_dotdot_example :
  let fs := mkFS {[ ["data"] := Dir 0; ["data"; "full"] := Dir 0 ]} [] in
  let '(r, fs') := os.makedirs_rec 20 "/data/thumbs/../full" 5 fs in
  r = Some (OSError EEXIST "/data/thumbs/../full")
  ∧ tree fs' = {[ ["data"] := Dir 0; ["data"; "full"] := Dir 0;
                  ["data"; "thumbs"] := Dir 5 ]}.
Proof. split; vm_refl. Qed.

(** A file cannot be opened for writing where a name on the way is a file
    or is missing, nor where a directory is. *)
Example open_wb_example :
  let s := Scenario.thumbs_blocked in
  (os.open_wb "/data/images/thumbs/a.jpg" s).1 = inl (IOError "Not a directory")
  ∧ (os.open_wb "/data/images/full/a.jpg" s).1 = inl (IOError "No such file or directory")
  ∧ (os.open_wb "/data/images" s).1 = inl (IOError "Is a directory")
  ∧ (os.open_wb "/data/images/a.jpg" s).1 = inr ["data"; "images"; "a.jpg"].
Proof. split_and!; vm_refl. Qed.

Example scheme_of_path : urlparse_scheme "/var/lib/images" = "".
Proof. reflexivity. Qed.

Example scheme_of_file_uri : urlparse_scheme "file:///var/lib/images" = "file".
Proof. reflexivity. Qed.

Example scheme_of_s3_uri : urlparse_scheme "S3://bucket/prefix/" = "s3".
Proof. reflexivity. Qed.

Example scheme_of_ftp_uri : urlparse_scheme "ftp://host/images" = "ftp".
Proof. reflexivity. Qed.

Abbreviation sample_FS_stat_image := (FS_stat_image Sample.md5_hexdigest).

Abbreviation sample_FS_persist_image := (FS_persist_image Sample.Image_encode).

Abbreviation sample_convert_image :=
  (convert_image Sample.Image_convert Sample.Image_thumbnail Sample.Image_encode).

(** The first scenario of the specification: a URL never seen before is to be
    downloaded; the fetched image is stored with one thumbnail, and the
    result holds the primary key and the digest of the primary bytes. *)
Example first_download :
  let out := sample_media_downloaded Sample.pipeline (Sample.response 200 "large")
               Sample.request Sample.info Sample.state0 in
  (sample_media_to_download Sample.pipeline Sample.request Sample.info Sample.state0).1
  = inr (inr None)
  ∧ out.1 = inr {[ "url" := VStr Sample.url;
                   "path" := VStr "full/99e087d9e04c1527ebd8026fd3cc31035e6c7210.jpg";
                   "checksum" := VStr "md5:JPEG:RGB:full" ]}
  ∧ os.node_at (fs out.2)
      "/data/images/full/99e087d9e04c1527ebd8026fd3cc31035e6c7210.jpg"
    = Some (File 1700000000 "JPEG:RGB:full")
  ∧ os.node_at (fs out.2)
      "/data/images/thumbs/small/99e087d9e04c1527ebd8026fd3cc31035e6c7210.jpg"
    = Some (File 1700000000 "JPEG:RGB:thumb").
Proof. split_and!; vm_refl. Qed.

(** The second scenario: ten days later, with an expiry window of 90 days,
    the stored image is up to date and its checksum is handed back. *)
Example second_check_skips :
  (sample_media_to_download Sample.pipeline Sample.request Sample.info
     (Sample.stored 1699136000 1700000000)).1
  = inr (inr (Some {[ "url" := VStr Sample.url;
                      "path" := VStr "full/99e087d9e04c1527ebd8026fd3cc31035e6c7210.jpg";
                      "checksum" := VStr "md5:JPEG:RGB:full" ]})).
Proof. vm_refl. Qed.

(** The boundary of the expiry window: an image exactly 90 days old is up to
    date, one that is a second older is expired. *)
Example expiry_boundary :
  (sample_media_to_download Sample.pipeline Sample.request Sample.info
     (Sample.stored 1692224000 1700000000)).1
  = inr (inr (Some {[ "url" := VStr Sample.url;
                      "path" := VStr "full/99e087d9e04c1527ebd8026fd3cc31035e6c7210.jpg";
                      "checksum" := VStr "md5:JPEG:RGB:full" ]}))
  ∧ (sample_media_to_download Sample.pipeline Sample.request Sample.info
       (Sample.stored 1692223999 1700000000)).1 = inr (inr None).
Proof. split; vm_refl. Qed.

(** The arithmetic of doubles at the boundary.  An image stored at the time
    [3 * 2^-32] and checked at the time [7776000 + 2^-30] is older than 90
    days by a fraction that the subtraction rounds away: the age that the
    code computes is 90.0, and with a window of 90 days the image is up to
    date. *)
Example age_at_boundary :
  let last_modified := (3 # 4294967296)%Q in
  let now := (7776000 + (1 # 1073741824))%Q in
  Binary64.float_eqb (Binary64.float_sub now last_modified) (Binary64.Finite 7776000)
  = true
  ∧ Binary64.float_eqb (age_days now last_modified) (Binary64.Finite 90) = true
  ∧ (90 < (now - last_modified) / 86400)%Q
  ∧ (sample_media_to_download Sample.pipeline Sample.request Sample.info
       (Sample.stored last_modified now)).1
    = inr (inr (Some {[ "url" := VStr Sample.url;
                        "path" := VStr (image_key Sample.url);
                        "checksum" := VStr "md5:JPEG:RGB:full" ]})).
Proof. split_and!; [vm_refl|vm_refl|reflexivity|vm_refl]. Qed.

(** The same on the remote store: an object last modified at the stamp
    [-892000000] and checked at the time [1700000000 + 2^-22] has the
    computed age 30000.0, and with a window of 30000 days it is up to
    date. *)
Example remote_age_at_boundary :
  let now := (1700000000 + (1 # 4194304))%Q in
  let self := mkPipeline 100 100 30000 [] (S3ImagesStore "bucket" "images/" None) in
  let stamp (date : string) : option Z := Some (-892000000)%Z in
  Binary64.float_eqb (age_days now (inject_Z (-892000000))) (Binary64.Finite 30000)
  = true
  ∧ (30000 < (now - inject_Z (-892000000)) / 86400)%Q
  ∧ (media_to_download Sample.md5_hexdigest Scenario.engine_outcome stamp self
       Sample.request Sample.info (set_clock now Sample.state0)).1
    = inr (inr (Some {[ "url" := VStr Sample.url;
                        "path" := VStr (image_key Sample.url);
                        "checksum" := VStr "0cc175b9c0f1b6a8" ]})).
Proof. split_and!; [vm_refl|reflexivity|vm_refl]. Qed.

(** The operations of [Binary64] give what the operations of the Standard
    Library's IEEE 754 give, here on the numbers of the examples. *)
Example doubles_agree_with_SpecFloat :
  let agree (x y : option Binary64.float) :=
    match x, y with
    | Some a, Some b => Binary64.float_eqb a b
    | _, _ => false
    end in
  let subs : list (Q * Q) :=
    [ (7776000 + (1 # 1073741824), 3 # 4294967296);
      (1700000000 + (1 # 4194304), inject_Z (-892000000));
      (1700000000, 1692223999); (1700000000, 1699136000 + (1 # 3));
      (1 # 3, 1 # 7); (0, 1700000000) ]%Q in
  let divs : list (Q * positive) :=
    [ (7776000%Q, 60%positive); (7776001%Q, 60%positive); (129600%Q, 60%positive);
      (2160%Q, 24%positive); ((1 # 3)%Q, 24%positive);
      ((2592000000 + (1 # 4194304))%Q, 60%positive);
      ((- (1 # 1024))%Q, 60%positive) ] in
  forallb (λ '(x, y), agree (Some (Binary64.float_sub x y)) (Binary64.spec_sub x y)) subs
  = true
  ∧ forallb (λ '(x, n),
               agree (Some (Binary64.float_div (Binary64.float_sub x 0) n))
                     (Binary64.spec_div x (inject_Z (Zpos n)))) divs
    = true.
Proof. split; vm_refl. Qed.

(** A difference too large for a double is an infinity, which is greater
    than every integer. *)
Example age_overflows :
  let now := inject_Z (2 ^ 1023) in
  age_days now (- now) = Binary64.Infinity false
  ∧ Binary64.float_gt (age_days now (- now)) (2 ^ 2000) = true.
Proof. split; vm_refl. Qed.

(** A grey image is converted before it is encoded. *)
Example grey_image_converted :
  (sample_media_downloaded Sample.pipeline (Sample.response 200 "grey")
     Sample.request Sample.info Sample.state0).1
  = inr {[ "url" := VStr Sample.url;
           "path" := VStr "full/99e087d9e04c1527ebd8026fd3cc31035e6c7210.jpg";
           "checksum" := VStr "md5:JPEG:RGB:full" ]}.
Proof. vm_refl. Qed.

(** *** A stored image and its checksum *)

(** A thumbnail named [../full] is written to the path
    [thumbs/../full/<digest>.jpg], which is the file of the primary image:
    [media_downloaded] returns the checksum of the primary bytes, and the
    file under the primary key holds the bytes of the thumbnail, whose
    checksum [stat_image] reports. *)
Lemma checksum_counterexample_thumbnail_name :
  let s := Scenario.with_thumbs in
  let out := sample_media_downloaded Scenario.pipeline_dotdot
               (Sample.response 200 "large") Sample.request Sample.info s in
  let key := image_key Sample.url in
  out.1 = inr {[ "url" := VStr Sample.url;
                 "path" := VStr key;
                 "checksum" := VStr (Sample.md5_hexdigest "JPEG:RGB:full") ]}
  ∧ sample_convert_image (mkImage "RGB" (300, 300)%Z []) None
    = inr (mkImage "RGB" (300, 300)%Z [], mkStringIO "JPEG:RGB:full" 13)
  ∧ saved_paths (events out.2)
    = [ "/data/images/full/99e087d9e04c1527ebd8026fd3cc31035e6c7210.jpg";
        "/data/images/thumbs/../full/99e087d9e04c1527ebd8026fd3cc31035e6c7210.jpg" ]
  ∧ os.node_at (fs out.2) (FS_get_filesystem_path "/data/images" key)
    = Some (File 1700000000 "JPEG:RGB:thumb")
  ∧ (sample_FS_stat_image "/data/images" key Sample.info out.2).1
    = inr {[ "last_modified" := VNum 1700000000;
             "checksum" := VStr (Sample.md5_hexdigest "JPEG:RGB:thumb") ]}
  ∧ Sample.md5_hexdigest "JPEG:RGB:thumb" ≠ Sample.md5_hexdigest "JPEG:RGB:full".
Proof.
  split_and!; [vm_refl|vm_refl|vm_refl|vm_refl|vm_refl|].
  intros H. discriminate H.
Qed.

Lemma media_downloaded_checksum_matches_store_witness :
  let out := sample_media_downloaded Sample.pipeline (Sample.response 200 "large")
               Sample.request Sample.info Sample.state0 in
  let r := {[ "url" := VStr Sample.url;
              "path" := VStr (image_key Sample.url);
              "checksum" := VStr "md5:JPEG:RGB:full" ]} in
  out = (inr r, out.2)
  ∧ ∃ t data d,
      r !! "checksum" = Some (VStr (Sample.md5_hexdigest data))
      ∧ os.node_at (fs out.2) Sample.path = Some (File t data)
      ∧ sample_FS_stat_image "/data/images" (image_key Sample.url) Sample.info out.2
        = (inr d, out.2)
      ∧ d !! "checksum" = r !! "checksum".
Proof.
  intros out r.
  assert (Hrun : out = (inr r, out.2)) by (apply run_eq; vm_refl).
  split; [exact Hrun|].
  assert (Hnames : Forall (λ thumb : string * option (Z * Z), no_sep thumb.1)
                      (THUMBS Sample.pipeline)).
  { constructor; [reflexivity|constructor]. }
  destruct (media_downloaded_checksum_matches_store _ _ _ _ _ _
              Sample.pipeline _ _ _ _ _ _ Hrun)
    as (orig & im & buf & _ & _ & _ & _ & Hsum & Hfile).
  destruct (Hfile Hnames) as (t & d & Hnode & Hstat & Hd).
  exists t, (getvalue buf), d. split; [exact Hsum|]. split; [exact Hnode|].
  split; [exact Hstat|exact Hd].
Defined.

(** *** The freshness decision *)

(** The specification's classifier and the code disagree on a timestamp of
    0: with an expiry window of 100 years, an image last modified at the
    epoch is up to date for the classifier, and is downloaded by the code. *)
Lemma freshness_counterexample_epoch :
  let self := mkPipeline 100 100 36500 [] (FSImagesStore "/data/images") in
  let s := Sample.stored 0 1700000000 in
  let metadata : option (gmap string pyvalue) :=
    Some {[ "last_modified" := VNum 0; "checksum" := VStr "md5:JPEG:RGB:full" ]} in
  sample_store_stat_image (pipeline_store self) (image_key Sample.url) Sample.info s
  = (inr (inr metadata), s)
  ∧ spec_freshness metadata (clock s) (EXPIRES self) = SKIP
  ∧ (sample_media_to_download self Sample.request Sample.info s).1 = inr (inr None)
  ∧ decision_of None = DOWNLOAD.
Proof. split_and!; vm_refl. Qed.

Lemma freshness_decision_witness :
  let s := Sample.stored 1699136000 1700000000 in
  let d : gmap string pyvalue :=
    {[ "last_modified" := VNum 1699136000; "checksum" := VStr "md5:JPEG:RGB:full" ]} in
  sample_store_stat_image (pipeline_store Sample.pipeline) (image_key Sample.url)
    Sample.info s = (inr (inr (Some d)), s)
  ∧ ∃ res s2,
      sample_media_to_download Sample.pipeline Sample.request Sample.info s
      = (inr (inr res), s2)
      ∧ decision_of res = SKIP.
Proof.
  intros s d.
  assert (Hstat : sample_store_stat_image (pipeline_store Sample.pipeline)
                    (image_key Sample.url) Sample.info s = (inr (inr (Some d)), s))
    by (vm_refl).
  split; [exact Hstat|].
  destruct (freshness_decision _ _ _ Sample.pipeline Sample.request _ _ _ _ Hstat)
    as (res & s2 & Hrun & Hdec).
  exists res, s2. split; [exact Hrun|].
  change (d !! "last_modified") with (Some (VNum 1699136000)) in Hdec.
  destruct Hdec as [_ Hdec]. destruct Hdec as [_ Hskip].
  - intros H. vm_compute in H. discriminate H.
  - apply Hskip. vm_refl.
Defined.

(** *** A timestamp at the epoch *)

Lemma epoch_timestamp_forces_download_witness :
  let s := Sample.stored 0 1700000000 in
  let d : gmap string pyvalue :=
    {[ "last_modified" := VNum 0; "checksum" := VStr "md5:JPEG:RGB:full" ]} in
  sample_store_stat_image (pipeline_store Sample.pipeline) (image_key Sample.url)
    Sample.info s = (inr (inr (Some d)), s)
  ∧ d !! "last_modified" = Some (VNum 0)
  ∧ (0 == 0)%Q
  ∧ sample_media_to_download Sample.pipeline Sample.request Sample.info s
    = (inr (inr None), s).
Proof.
  intros s d.
  assert (Hstat : sample_store_stat_image (pipeline_store Sample.pipeline)
                    (image_key Sample.url) Sample.info s = (inr (inr (Some d)), s))
    by (vm_refl).
  assert (Hlm : d !! "last_modified" = Some (VNum 0)) by reflexivity.
  assert (Hz : (0 == 0)%Q) by reflexivity.
  split; [exact Hstat|]. split; [exact Hlm|]. split; [exact Hz|].
  exact (epoch_timestamp_forces_download _ _ _ Sample.pipeline Sample.request
           _ _ _ _ _ Hstat Hlm Hz).
Defined.

(** *** The result of a skipped download *)

Lemma skip_result_from_stat_witness :
  let s := Sample.stored 1699136000 1700000000 in
  let out := sample_media_to_download Sample.pipeline Sample.request Sample.info s in
  let r : gmap string pyvalue :=
    {[ "url" := VStr Sample.url;
       "path" := VStr (image_key Sample.url);
       "checksum" := VStr "md5:JPEG:RGB:full" ]} in
  out = (inr (inr (Some r)), out.2)
  ∧ ∃ d s1,
      sample_store_stat_image (pipeline_store Sample.pipeline) (image_key Sample.url)
        Sample.info s = (inr (inr (Some d)), s1)
      ∧ r = {[ "url" := VStr Sample.url;
               "path" := VStr (image_key Sample.url);
               "checksum" := dict_get d "checksum" ]}
      ∧ only_calls is_stat_call s out.2.
Proof.
  intros s out r.
  assert (Hrun : out = (inr (inr (Some r)), out.2)) by (apply run_eq; vm_refl).
  split; [exact Hrun|].
  exact (skip_result_from_stat _ _ _ Sample.pipeline Sample.request _ _ _ _ Hrun).
Defined.

(** *** Failures of [stat_image] *)

(** [stat_image] of the file system store raises when the time of
    modification can be read and the file cannot be opened: here a directory
    sits at the path of the image. *)
Lemma stat_image_raises_on_directory :
  let out := sample_FS_stat_image "/data/images" (image_key Sample.url) Sample.info
               Sample.blocked in
  os.node_at (fs Sample.blocked) Sample.path = Some (Dir 0)
  ∧ out = (inl (IOError "Is a directory"), Sample.blocked)
  ∧ out.1 ≠ inr ∅.
Proof. split_and!; [vm_refl|vm_refl|]. vm_compute. intros H. discriminate H. Qed.

Lemma stat_failure_forces_download_witness :
  sample_FS_stat_image "/data/images" (image_key Sample.url) Sample.info Sample.state0
  = (inr ∅, Sample.state0)
  ∧ sample_media_to_download Sample.pipeline Sample.request Sample.info Sample.blocked
    = (inr (inr None), Sample.blocked).
Proof.
  split.
  - apply (stat_failure_forces_download Sample.md5_hexdigest Sample.engine_outcome
             Sample.rfc822_stamp Sample.pipeline Sample.request Sample.info
             Sample.state0).
    vm_refl.
  - apply (stat_failure_forces_download Sample.md5_hexdigest Sample.engine_outcome
             Sample.rfc822_stamp Sample.pipeline Sample.request Sample.info
             Sample.blocked)
      with (basedir := "/data/images") (e := IOError "Is a directory");
      [reflexivity|vm_refl].
Defined.

(** *** An image below the minimum size *)

Lemma too_small_image_is_not_persisted_witness :
  let response := Sample.response 200 "small" in
  let orig := mkImage "RGB" (50, 50)%Z [] in
  let err := ImageException (TooSmall 50 50 100 100 Sample.url) in
  Sample.Image_open (resp_body response) = inr orig
  ∧ ((im_size orig).1 < MIN_WIDTH Sample.pipeline
     ∨ (im_size orig).2 < MIN_HEIGHT Sample.pipeline)%Z
  ∧ image_downloaded Sample.Image_open Sample.Image_convert Sample.Image_thumbnail
      Sample.Image_encode Sample.md5_hexdigest Sample.engine_outcome
      Sample.pipeline response Sample.request Sample.info Sample.state0
    = (inl err, Sample.state0)
  ∧ ∃ e s', sample_media_downloaded Sample.pipeline response Sample.request
              Sample.info Sample.state0 = (inl e, s')
            ∧ only_calls is_report Sample.state0 s'
            ∧ e = err.
Proof.
  intros response orig err.
  assert (Hopen : Sample.Image_open (resp_body response) = inr orig) by reflexivity.
  assert (Hsmall : ((im_size orig).1 < MIN_WIDTH Sample.pipeline
                    ∨ (im_size orig).2 < MIN_HEIGHT Sample.pipeline)%Z)
    by (left; reflexivity).
  split; [exact Hopen|]. split; [exact Hsmall|].
  destruct (too_small_image_is_not_persisted Sample.Image_open Sample.Image_convert
              Sample.Image_thumbnail Sample.Image_encode Sample.md5_hexdigest
              Sample.engine_outcome Sample.pipeline response Sample.request
              Sample.info Sample.state0 orig Hopen Hsmall)
    as (_ & Himg & e & s' & Hrun & Hcalls & He).
  split; [exact Himg|]. exists e, s'. split; [exact Hrun|]. split; [exact Hcalls|].
  apply He; [reflexivity|]. intros H. discriminate H.
Defined.

(** *** Download errors *)

(** A response with status 206 and a body: a success status in the words of
    the specification, and a download error for the code. *)
Lemma partial_content_is_download_error :
  let response := Sample.response 206 "large" in
  let out := sample_media_downloaded Sample.pipeline response Sample.request
               Sample.info Sample.state0 in
  spec_success_status (resp_status response) = true
  ∧ resp_body response ≠ ""
  ∧ out.1 = inl (ImageException (HttpError Sample.request None))
  ∧ is_download_error (ImageException (HttpError Sample.request None)) = true.
Proof. split_and!; [reflexivity| |vm_refl|reflexivity]. intros H. discriminate H. Qed.

Lemma download_error_iff_not_200_or_empty_witness :
  let out404 := sample_media_downloaded Sample.pipeline (Sample.response 404 "large")
                  Sample.request Sample.info Sample.state0 in
  let out_empty := sample_media_downloaded Sample.pipeline (Sample.response 200 "")
                     Sample.request Sample.info Sample.state0 in
  (out404.1 = inl (ImageException (HttpError Sample.request None))
   ∧ only_calls is_report Sample.state0 out404.2)
  ∧ (out_empty.1 = inl (ImageException (EmptyContent Sample.request None))
     ∧ only_calls is_report Sample.state0 out_empty.2).
Proof.
  split.
  - apply (download_error_iff_not_200_or_empty Sample.Image_open Sample.Image_convert
             Sample.Image_thumbnail Sample.Image_encode Sample.md5_hexdigest
             Sample.engine_outcome Sample.pipeline (Sample.response 404 "large")
             Sample.request Sample.info Sample.state0).
    intros H. discriminate H.
  - apply (download_error_iff_not_200_or_empty Sample.Image_open Sample.Image_convert
             Sample.Image_thumbnail Sample.Image_encode Sample.md5_hexdigest
             Sample.engine_outcome Sample.pipeline (Sample.response 200 "")
             Sample.request Sample.info Sample.state0); reflexivity.
Defined.

(** *** The end of a session *)

(** C8, at the input on which the code departs from it.  A session stores
    an image and is closed.  [persist_image] recorded the directory under
    the [info] object of the session; the notification of the end of the
    session names the domain, so the record is still in the cache after
    it. *)
Theorem closed_session_keeps_directory_cache :
  let buf := mkStringIO "JPEG:RGB:full" 13 in
  let im := mkImage "RGB" (300, 300)%Z [] in
  let s1 := (sample_FS_persist_image "/data/images" (image_key Sample.url) im buf
               Sample.info Sample.state0).2 in
  let s2 := (FS_domain_closed (KDomain (info_domain Sample.info)) s1).2 in
  created_directories s1 !! KInfo Sample.info = Some {[ "/data/images/full" ]}
  ∧ created_directories s1 !! KDomain "example.com" = None
  ∧ created_directories s2 !! KInfo Sample.info = Some {[ "/data/images/full" ]}
  ∧ cache_has s2 (KInfo Sample.info) "/data/images/full".
Proof.
  split_and!; [vm_refl|vm_refl|vm_refl|].
  eexists. split; [vm_refl|]. by apply elem_of_singleton.
Qed.

(** *** A location with an unknown scheme *)


(** A pipeline on a path or a [file] location stores in the file system; one
    on an [s3] location stores remotely. *)
Example stores_by_scheme :
  let store_of uri :=
    match (ImagesPipeline_init (Sample.settings uri) Sample.state0).1 with
    | inr self => Some (pipeline_store self)
    | inl _ => None
    end in
  store_of "/data/images" = Some (FSImagesStore "/data/images")
  ∧ store_of "file:///data/images" = Some (FSImagesStore "/data/images")
  ∧ store_of "s3://bucket/images/" = Some (S3ImagesStore "bucket" "images/" None)
  ∧ store_of "S3://bucket/images/" = None.
Proof. split_and!; vm_refl. Qed.

(** The text of the too-small message. *)
Example too_small_text :
  image_error_text (λ r, "<" +:+ req_url r +:+ ">")
    (TooSmall 50 50 100 100 Sample.url)
  = "Image too small (50x50 < 100x100): http://example.com/a.jpg".
Proof. vm_refl. Qed.

(** A message that spans two blocks of SHA-1. *)
Example sha1_two_blocks :
  Sha1.hexdigest "aaaaaaaaaaaaaaaaaaaaaaaaaaaaaaaaaaaaaaaaaaaaaaaaaaaaaaaaaaaaaaaaa"
  = "11655326c708d70319be2610e8a57d9a5b959d3b".
Proof. vm_refl. Qed.

(** On the remote store the upload is handed to the engine and not waited
    for: the result is returned although the engine reports a failure. *)
Example remote_upload_not_awaited :
  let self := mkPipeline 100 100 90 [] (S3ImagesStore "bucket" "images/" None) in
  let out := sample_media_downloaded self (Sample.response 200 "large")
               Sample.request Sample.info Sample.state0 in
  Sample.engine_outcome Sample.request "example.com"
  = inl (EngineFailure "connection refused")
  ∧ out.1 = inr {[ "url" := VStr Sample.url;
                   "path" := VStr (image_key Sample.url);
                   "checksum" := VStr "md5:JPEG:RGB:full" ]}
  ∧ last (events out.2)
    = Some (EngineDownload
              (mkRequest
                 "http://bucket.s3.amazonaws.com/images/full/99e087d9e04c1527ebd8026fd3cc31035e6c7210.jpg"
                 "PUT" (Some "JPEG:RGB:full")
                 {[ "Content-Type" := "image/jpeg";
                    "X-Amz-Acl" := "public-read";
                    "X-Amz-Meta-Width" := "300";
                    "X-Amz-Meta-Height" := "300";
                    "Cache-Control" := "max-age=172800" ]}
                 1000)
              "example.com").
Proof. split_and!; vm_refl. Qed.

(** ** Further runs on the sample collaborators *)

Abbreviation sample_image_downloaded :=
  (image_downloaded Sample.Image_open Sample.Image_convert Sample.Image_thumbnail
                    Sample.Image_encode Sample.md5_hexdigest Sample.engine_outcome).

Abbreviation sample_get_images :=
  (get_images Sample.Image_open Sample.Image_convert Sample.Image_thumbnail
              Sample.Image_encode).

(** X18.  An upload is not waited for: on the remote store the outcome of
    [media_downloaded], result or exception, is decided by the response and
    by the variants made from it, and is the same whatever the engine
    answers to the requests it is handed; a failed upload is not seen in
    it. *)
Theorem remote_upload_outcome_is_ignored
    Image_open Image_convert Image_thumbnail Image_encode md5_hexdigest
    (engine engine' : Request → string → deferred Response)
    self bucket prefix s3_spider response request info s :
  pipeline_store self = S3ImagesStore bucket prefix s3_spider →
  (media_downloaded Image_open Image_convert Image_thumbnail Image_encode
     md5_hexdigest engine self response request info s).1
  = (media_downloaded Image_open Image_convert Image_thumbnail Image_encode
       md5_hexdigest engine' self response request info s).1
  ∧ (media_downloaded Image_open Image_convert Image_thumbnail Image_encode
       md5_hexdigest engine self response request info s).1
    = variants_outcome Image_open Image_convert Image_thumbnail Image_encode
        md5_hexdigest self response request info.
Proof.
  intros Hstore.
  rewrite (media_downloaded_S3_outcome _ _ _ _ _ engine _ _ _ _ _ _ _ _ Hstore).
  by rewrite (media_downloaded_S3_outcome _ _ _ _ _ engine' _ _ _ _ _ _ _ _ Hstore).
Qed.

(** *** Store and stat *)

Lemma persist_image_then_stat_image_witness :
  let key := image_key Sample.url in
  let out := sample_FS_persist_image "/data/images" key Scenario.primary
               Scenario.primary_buf Sample.info Sample.state0 in
  out = (inr tt, out.2)
  ∧ ∃ format data,
      EXTENSION !! Py.lower (os.path_splitext
                               (FS_get_filesystem_path "/data/images" key)).2
      = Some format
      ∧ Sample.Image_encode format Scenario.primary = inr data
      ∧ sample_FS_stat_image "/data/images" key Sample.info out.2
        = (inr {[ "last_modified" := VNum (clock Sample.state0);
                  "checksum" := VStr (Sample.md5_hexdigest data) ]}, out.2).
Proof.
  intros key out.
  assert (Hrun : out = (inr tt, out.2)) by (apply run_eq; vm_refl).
  split; [exact Hrun|].
  exact (persist_image_then_stat_image Sample.Image_encode Sample.md5_hexdigest
           "/data/images" key Scenario.primary Scenario.primary_buf Sample.info
           Sample.state0 out.2 Hrun).
Defined.

Lemma stat_image_changes_nothing_witness :
  let s := Sample.blocked in
  let out := sample_FS_stat_image "/data/images" (image_key Sample.url) Sample.info s in
  out = (inl (IOError "Is a directory"), out.2) ∧ out.2 = s.
Proof.
  intros s out.
  assert (Hrun : out = (inl (IOError "Is a directory"), out.2))
    by (apply run_eq; vm_refl).
  split; [exact Hrun|].
  exact (stat_image_changes_nothing Sample.md5_hexdigest "/data/images"
           (image_key Sample.url) Sample.info s _ out.2 Hrun).
Defined.

Lemma media_to_download_only_looks_witness :
  ∃ res s',
    sample_media_to_download Sample.pipeline Sample.request Sample.info
      (Sample.stored 1699136000 1700000000) = (inr (inr res), s')
    ∧ only_calls is_report (Sample.stored 1699136000 1700000000) s'.
Proof.
  destruct (media_to_download_only_looks Sample.md5_hexdigest Sample.engine_outcome
              Sample.rfc822_stamp Sample.pipeline Sample.request Sample.info
              (Sample.stored 1699136000 1700000000))
    as (res & s' & Hrun & _ & Hreport).
  exists res, s'. split; [exact Hrun|].
  exact (Hreport "/data/images" eq_refl).
Defined.

Lemma stored_image_uptodate_within_window_witness :
  let out := sample_media_downloaded Sample.pipeline (Sample.response 200 "large")
               Sample.request Sample.info Sample.state0 in
  let r : gmap string pyvalue :=
    {[ "url" := VStr Sample.url;
       "path" := VStr (image_key Sample.url);
       "checksum" := VStr "md5:JPEG:RGB:full" ]} in
  let now := 1700864000%Q in
  let age := age_days now (clock Sample.state0) in
  Forall (λ thumb : string * option (Z * Z), no_sep thumb.1) (THUMBS Sample.pipeline)
  ∧ out = (inr r, out.2)
  ∧ ¬ (clock Sample.state0 == 0)%Q
  ∧ Binary64.float_gt age (EXPIRES Sample.pipeline) = false
  ∧ ∃ s'', sample_media_to_download Sample.pipeline Sample.request Sample.info
             (set_clock now out.2) = (inr (inr (Some r)), s'').
Proof.
  intros out r now age.
  assert (Hnames : Forall (λ thumb : string * option (Z * Z), no_sep thumb.1)
                      (THUMBS Sample.pipeline)).
  { constructor; [reflexivity|constructor]. }
  assert (Hrun : out = (inr r, out.2)) by (apply run_eq; vm_refl).
  assert (Hnz : ¬ (clock Sample.state0 == 0)%Q)
    by (intros H; vm_compute in H; discriminate H).
  assert (Hage : Binary64.float_gt age (EXPIRES Sample.pipeline) = false) by vm_refl.
  split; [exact Hnames|]. split; [exact Hrun|]. split; [exact Hnz|].
  split; [exact Hage|].
  destruct (stored_image_uptodate_within_window Sample.Image_open Sample.Image_convert
              Sample.Image_thumbnail Sample.Image_encode Sample.md5_hexdigest
              Sample.engine_outcome Sample.rfc822_stamp Sample.pipeline "/data/images"
              (Sample.response 200 "large") Sample.request Sample.info Sample.state0
              r out.2 now eq_refl Hnames Hrun)
    as (res & s'' & Hcheck & _ & Hfresh & _).
  exists s''. rewrite Hcheck. by rewrite (Hfresh Hnz Hage).
Defined.

(** *** The variants *)

Lemma get_images_variants_in_order_witness :
  let items := [ (image_key Sample.url, Scenario.primary, Scenario.primary_buf);
                 (thumb_key Sample.url "small", Scenario.thumb, Scenario.thumb_buf) ] in
  sample_get_images Sample.pipeline (Sample.response 200 "large") Sample.request
    Sample.info = (items, None)
  ∧ map (λ item, item.1.1) items = variant_keys Sample.pipeline Sample.url
  ∧ Forall (λ item, Sample.Image_encode "JPEG" item.1.2 = inr (getvalue item.2)) items.
Proof.
  intros items.
  assert (Hgen : sample_get_images Sample.pipeline (Sample.response 200 "large")
                   Sample.request Sample.info = (items, None)) by vm_refl.
  split; [exact Hgen|].
  destruct (get_images_variants_in_order Sample.Image_open Sample.Image_convert
              Sample.Image_thumbnail Sample.Image_encode Sample.pipeline
              (Sample.response 200 "large") Sample.request Sample.info items None Hgen)
    as (_ & Hall & Hbufs).
  split; [exact (Hall eq_refl)|exact Hbufs].
Defined.

Lemma image_downloaded_saves_variants_in_order_witness :
  let out := sample_image_downloaded Sample.pipeline (Sample.response 200 "large")
               Sample.request Sample.info Sample.state0 in
  out = (inr "md5:JPEG:RGB:full", out.2)
  ∧ saved_paths (events out.2)
    = [ "/data/images/full/99e087d9e04c1527ebd8026fd3cc31035e6c7210.jpg";
        "/data/images/thumbs/small/99e087d9e04c1527ebd8026fd3cc31035e6c7210.jpg" ].
Proof.
  intros out.
  assert (Hrun : out = (inr "md5:JPEG:RGB:full", out.2)) by (apply run_eq; vm_refl).
  split; [exact Hrun|].
  destruct (image_downloaded_saves_variants_in_order Sample.Image_open
              Sample.Image_convert Sample.Image_thumbnail Sample.Image_encode
              Sample.md5_hexdigest Sample.engine_outcome Sample.pipeline "/data/images"
              (Sample.response 200 "large") Sample.request Sample.info Sample.state0
              _ out.2 eq_refl Hrun) as (n & Hsaved & Hlen).
  rewrite Hsaved, (Hlen _ eq_refl). vm_refl.
Defined.

Lemma primary_image_is_not_rolled_back_witness :
  let s := Scenario.thumbs_blocked in
  let key := image_key Sample.url in
  let first := sample_FS_persist_image "/data/images" key Scenario.primary
                 Scenario.primary_buf Sample.info s in
  let out := sample_image_downloaded Sample.pipeline (Sample.response 200 "large")
               Sample.request Sample.info s in
  Forall (λ thumb : string * option (Z * Z), no_sep thumb.1) (THUMBS Sample.pipeline)
  ∧ sample_get_images Sample.pipeline (Sample.response 200 "large") Sample.request
      Sample.info
    = ([ (key, Scenario.primary, Scenario.primary_buf);
         (thumb_key Sample.url "small", Scenario.thumb, Scenario.thumb_buf) ], None)
  ∧ first = (inr tt, first.2)
  ∧ out = (inl (OSError ENOTDIR "/data/images/thumbs/small"), out.2)
  ∧ os.node_at (fs out.2) (FS_get_filesystem_path "/data/images" key)
    = Some (File (clock s) (getvalue Scenario.primary_buf)).
Proof.
  intros s key first out.
  assert (Hnames : Forall (λ thumb : string * option (Z * Z), no_sep thumb.1)
                      (THUMBS Sample.pipeline)).
  { constructor; [reflexivity|constructor]. }
  assert (Hgen : sample_get_images Sample.pipeline (Sample.response 200 "large")
                   Sample.request Sample.info
                 = ([ (key, Scenario.primary, Scenario.primary_buf);
                      (thumb_key Sample.url "small", Scenario.thumb,
                       Scenario.thumb_buf) ], None)) by vm_refl.
  assert (Hfirst : first = (inr tt, first.2)) by (apply run_eq; vm_refl).
  assert (Hrun : out = (inl (OSError ENOTDIR "/data/images/thumbs/small"), out.2))
    by (apply run_eq; vm_refl).
  split; [exact Hnames|]. split; [exact Hgen|]. split; [exact Hfirst|].
  split; [exact Hrun|].
  exact (proj2 (primary_image_is_not_rolled_back Sample.Image_open
                  Sample.Image_convert Sample.Image_thumbnail Sample.Image_encode
                  Sample.md5_hexdigest Sample.engine_outcome Sample.pipeline
                  "/data/images" (Sample.response 200 "large") Sample.request
                  Sample.info s key Scenario.primary Scenario.primary_buf _ None
                  first.2 _ out.2 eq_refl Hnames Hgen Hfirst Hrun)).
Defined.

Lemma variants_have_files_of_their_own_witness :
  Forall plain_name (map fst (THUMBS Sample.pipeline))
  ∧ NoDup (map fst (THUMBS Sample.pipeline))
  ∧ NoDup (map (λ key, os.lex_key [] (FS_get_filesystem_path "/data/images" key))
               (variant_keys Sample.pipeline Sample.url)).
Proof.
  assert (Hplain : Forall plain_name (map fst (THUMBS Sample.pipeline))).
  { constructor; [|constructor].
    split; [reflexivity|]. split_and!; intros H; discriminate H. }
  assert (Hids : NoDup (map fst (THUMBS Sample.pipeline))) by apply NoDup_singleton.
  split; [exact Hplain|]. split; [exact Hids|].
  exact (proj2 (variants_have_files_of_their_own Sample.pipeline "/data/images"
                  Sample.url [] Hplain) Hids).
Defined.

(** *** Exceptions and counters *)

Lemma too_small_exactly_below_minimum_witness :
  let response := Sample.response 200 "small" in
  let orig := mkImage "RGB" (50, 50)%Z [] in
  let out := sample_media_downloaded Sample.pipeline response Sample.request
               Sample.info Sample.state0 in
  let r := inl (ImageException (TooSmall 50 50 100 100 Sample.url)) in
  resp_status response = 200%Z
  ∧ resp_body response ≠ ""
  ∧ Sample.Image_open (resp_body response) = inr orig
  ∧ out = (r, out.2)
  ∧ ((∃ e, r = inl e ∧ is_too_small e = true)
     ↔ ((im_size orig).1 < MIN_WIDTH Sample.pipeline
        ∨ (im_size orig).2 < MIN_HEIGHT Sample.pipeline)%Z).
Proof.
  intros response orig out r.
  assert (Hstatus : resp_status response = 200%Z) by reflexivity.
  assert (Hbody : resp_body response ≠ "") by (intros H; discriminate H).
  assert (Hopen : Sample.Image_open (resp_body response) = inr orig) by reflexivity.
  assert (Hrun : out = (r, out.2)) by (apply run_eq; vm_refl).
  split; [exact Hstatus|]. split; [exact Hbody|]. split; [exact Hopen|].
  split; [exact Hrun|].
  exact (too_small_exactly_below_minimum Sample.Image_open Sample.Image_convert
           Sample.Image_thumbnail Sample.Image_encode Sample.md5_hexdigest
           Sample.engine_outcome Sample.pipeline response Sample.request Sample.info
           Sample.state0 orig r out.2 Hstatus Hbody Hopen Hrun).
Defined.

Lemma image_count_once_per_usable_response_witness :
  let out := sample_media_downloaded Sample.pipeline (Sample.response 200 "small")
               Sample.request Sample.info Sample.state0 in
  out = (inl (ImageException (TooSmall 50 50 100 100 Sample.url)), out.2)
  ∧ stats_count "image_count" "example.com" (events out.2) = 1
  ∧ stats_count "image_status_count/downloaded" "example.com" (events out.2) = 1.
Proof.
  intros out.
  assert (Hrun : out = (inl (ImageException (TooSmall 50 50 100 100 Sample.url)),
                        out.2)) by (apply run_eq; vm_refl).
  split; [exact Hrun|].
  exact (image_count_once_per_usable_response Sample.Image_open Sample.Image_convert
           Sample.Image_thumbnail Sample.Image_encode Sample.md5_hexdigest
           Sample.engine_outcome Sample.pipeline (Sample.response 200 "small")
           Sample.request Sample.info Sample.state0 _ out.2 Hrun).
Defined.

Lemma undecodable_body_raises_decoder_error_witness :
  let response := Sample.response 200 "<html>" in
  resp_status response = 200%Z
  ∧ resp_body response ≠ ""
  ∧ Sample.Image_open (resp_body response) = inl "cannot identify image file"
  ∧ ∃ s', sample_media_downloaded Sample.pipeline response Sample.request Sample.info
            Sample.state0 = (inl (IOError "cannot identify image file"), s')
          ∧ only_calls is_report Sample.state0 s'
          ∧ sample_get_images Sample.pipeline response Sample.request Sample.info
            = ([], Some (IOError "cannot identify image file")).
Proof.
  intros response.
  assert (Hstatus : resp_status response = 200%Z) by reflexivity.
  assert (Hbody : resp_body response ≠ "") by (intros H; discriminate H).
  assert (Hopen : Sample.Image_open (resp_body response)
                  = inl "cannot identify image file") by reflexivity.
  split; [exact Hstatus|]. split; [exact Hbody|]. split; [exact Hopen|].
  exact (undecodable_body_raises_decoder_error Sample.Image_open Sample.Image_convert
           Sample.Image_thumbnail Sample.Image_encode Sample.md5_hexdigest
           Sample.engine_outcome Sample.pipeline response Sample.request Sample.info
           Sample.state0 _ Hstatus Hbody Hopen).
Defined.

(** *** The URI of the store *)

Lemma file_uri_names_its_path_witness :
  let settings := Sample.settings "unused" in
  let p := "/data/images" in
  p ≠ ""
  ∧ urlparse_scheme p = ""
  ∧ Py.has_substring "://" p = false
  ∧ ImagesPipeline_init (with_store settings ("file://" +:+ p)) Sample.state0
    = ImagesPipeline_init (with_store settings p) Sample.state0
  ∧ ∀ self s',
      ImagesPipeline_init (with_store settings p) Sample.state0 = (inr self, s') →
      pipeline_store self = FSImagesStore p ∧ created_directories s' = ∅.
Proof.
  intros settings p.
  assert (Hp : p ≠ "") by (intros H; discriminate H).
  assert (Hscheme : urlparse_scheme p = "") by reflexivity.
  assert (Hsub : Py.has_substring "://" p = false) by reflexivity.
  split; [exact Hp|]. split; [exact Hscheme|]. split; [exact Hsub|].
  exact (file_uri_names_its_path settings p Sample.state0 Hp Hscheme Hsub).
Defined.


(** *** The check on the remote store *)

Lemma remote_check_follows_head_response_witness :
  pipeline_store Scenario.pipeline = S3ImagesStore "bucket" "images/" None
  ∧ ∃ s',
      media_to_download Sample.md5_hexdigest Scenario.engine_outcome
        Scenario.rfc822_stamp Scenario.pipeline Sample.request Sample.info
        Sample.state0
      = (inr (inr (Some {[ "url" := VStr Sample.url;
                           "path" := VStr (image_key Sample.url);
                           "checksum" := VStr "0cc175b9c0f1b6a8" ]})), s')
      ∧ clock s' = clock Sample.state0.
Proof.
  split; [reflexivity|].
  destruct (remote_check_follows_head_response Sample.md5_hexdigest
              Scenario.engine_outcome Scenario.rfc822_stamp Scenario.pipeline
              "bucket" "images/" None Sample.request Sample.info Sample.state0 eq_refl)
    as (s' & Hrun & Hclock).
  exists s'. split; [|exact Hclock].
  rewrite Hrun. apply (f_equal (λ res, (inr (inr res), s'))). vm_refl.
Defined.

Lemma uptodate_at_earlier_times_witness :
  let s := Sample.stored 1699136000 0 in
  let now := 1700000000%Q in
  let now' := 1699500000%Q in
  let out := sample_media_to_download Sample.pipeline Sample.request Sample.info
               (set_clock now s) in
  let r : gmap string pyvalue :=
    {[ "url" := VStr Sample.url;
       "path" := VStr (image_key Sample.url);
       "checksum" := VStr "md5:JPEG:RGB:full" ]} in
  (now' <= now)%Q
  ∧ out = (inr (inr (Some r)), out.2)
  ∧ ∃ s2, sample_media_to_download Sample.pipeline Sample.request Sample.info
            (set_clock now' s) = (inr (inr (Some r)), s2).
Proof.
  intros s now now' out r.
  assert (Hle : (now' <= now)%Q) by (vm_compute; intros H; discriminate H).
  assert (Hrun : out = (inr (inr (Some r)), out.2)) by (apply run_eq; vm_refl).
  split; [exact Hle|]. split; [exact Hrun|].
  exact (uptodate_at_earlier_times Sample.md5_hexdigest Sample.engine_outcome
           Sample.rfc822_stamp Sample.pipeline Sample.request Sample.info s now now'
           r out.2 Hle Hrun).
Defined.

Lemma remote_upload_outcome_is_ignored_witness :
  let run engine :=
    (media_downloaded Sample.Image_open Sample.Image_convert Sample.Image_thumbnail
       Sample.Image_encode Sample.md5_hexdigest engine Scenario.pipeline
       (Sample.response 200 "large") Sample.request Sample.info Sample.state0).1 in
  pipeline_store Scenario.pipeline = S3ImagesStore "bucket" "images/" None
  ∧ run Sample.engine_outcome = run Scenario.engine_outcome.
Proof.
  intros run. split; [reflexivity|].
  exact (proj1 (remote_upload_outcome_is_ignored Sample.Image_open
                  Sample.Image_convert Sample.Image_thumbnail Sample.Image_encode
                  Sample.md5_hexdigest Sample.engine_outcome Scenario.engine_outcome
                  Scenario.pipeline "bucket" "images/" None
                  (Sample.response 200 "large") Sample.request Sample.info
                  Sample.state0 eq_refl)).
Defined.

(** *** The cache of directories *)

Lemma domain_closed_resets_cache_of_its_key_witness :
  let k := KInfo Sample.info in
  let d := "/data/images/full" in
  let s := (sample_FS_persist_image "/data/images" (image_key Sample.url)
              Scenario.primary Scenario.primary_buf Sample.info Sample.state0).2 in
  let out := FS_mkdir d (Some k) (FS_domain_closed k s).2 in
  cache_has s k d
  ∧ dkey_truthy (Some k) = true
  ∧ out = (inr tt, out.2)
  ∧ dir_work d out.2 = dir_work d s + (if os.exists_at (fs s) d then 1 else 2)
  ∧ cache_has out.2 k d.
Proof.
  intros k d s out.
  assert (Hcached : cache_has s k d).
  { exists {[ d ]}. split; [vm_refl|]. by apply elem_of_singleton. }
  assert (Hk : dkey_truthy (Some k) = true) by reflexivity.
  assert (Hrun : out = (inr tt, out.2)) by (apply run_eq; vm_refl).
  split; [exact Hcached|]. split; [exact Hk|]. split; [exact Hrun|].
  destruct (domain_closed_resets_cache_of_its_key k d s (inr tt) out.2 Hk Hrun)
    as (Hwork & Hin & _).
  split; [exact Hwork|exact (Hin eq_refl)].
Defined.

Lemma failed_mkdir_is_not_cached_witness :
  let k := KInfo Sample.info in
  let d := "/data/images/thumbs/small" in
  let out := FS_mkdir d (Some k) Scenario.thumbs_blocked in
  dkey_truthy (Some k) = true
  ∧ out = (inl (OSError ENOTDIR d), out.2)
  ∧ ¬ cache_has out.2 k d
  ∧ ∃ r s'', FS_mkdir d (Some k) out.2 = (r, s'')
             ∧ dir_work d out.2 < dir_work d s''.
Proof.
  intros k d out.
  assert (Hk : dkey_truthy (Some k) = true) by reflexivity.
  assert (Hrun : out = (inl (OSError ENOTDIR d), out.2)) by (apply run_eq; vm_refl).
  split; [exact Hk|]. split; [exact Hrun|].
  destruct (failed_mkdir_is_not_cached k d Scenario.thumbs_blocked _ out.2 Hk Hrun)
    as (Hnot & _ & Hagain).
  split; [exact Hnot|exact Hagain].
Defined.
